(** * pyresto: the lazy resource graph of [pyresto/core.py] and
      [pyresto/relations.py], embedded in Rocq.

    The Python objects of the library live in an explicit heap; every
    function of the source becomes a state-and-exception computation over a
    [World] that also records each HTTP request handed to the transport.
    Recursion between the attribute hook, the path properties and the
    fetch is tied with a step counter, so a computation either returns,
    raises, or is still running when the counter is used up. *)

From stdpp Require Import gmap strings list fin_maps pretty.
From Stdlib Require Import ZArith Lia Ascii.

Set Warnings "-register-all".
Open Scope string_scope.
Open Scope Z_scope.
Open Scope list_scope.

(** ** Python values *)

(** Values that can sit in an instance [__dict__]: what the wire parser
    produces (None, booleans, integers, strings, lists, string-keyed
    dicts) and the runtime objects the library itself stores (tuples of
    primary-key values, the set of changed names, references to model
    instances and collection wrappers, model classes, credentials, bound
    methods).  Numbers are integers; floats are not modelled. *)
Inductive value :=
| VNone
| VBool (b : bool)
| VInt (z : Z)
| VStr (s : string)
| VList (l : list value)
| VDict (kvs : list (string * value))
| VTuple (l : list value)
| VSet (s : gset string)
| VRef (r : nat)
| VWrapper (r : nat)
| VClass (c : nat)
| VAuth (a : nat)
| VMethod (name : string).

(** Exceptions raised by the modelled code. *)
Inductive exn :=
| AttributeError
| TypeError
| ValueError
| KeyError (k : string)
| IndexError
| AssertionError
| TransportError (code : nat)
| PyrestoInvalidOperationException
| PyrestoInvalidRestMethodException (method : string)
| PyrestoServerResponseException (msg : string).

Definition is_AttributeError (e : exn) : bool :=
  match e with AttributeError => true | _ => false end.

(** ** The transport *)

(** Keyword arguments forwarded by [_rest_call] to [requests.request]:
    [auth] (absent, or present with any value, None included) and the
    request body [data]. *)
Record Kwargs := mkKwargs {
  kw_auth : option value;
  kw_data : option string
}.

Record Request := mkRequest {
  rq_method : string;
  rq_url : string;
  rq_kwargs : Kwargs
}.

Record Response := mkResponse {
  status_code : Z;
  text : string;
  resp_headers : list (string * string)
}.

(** ** Heap objects and the world *)

Inductive obj :=
| OModel (cls : nat) (dict : gmap string value)
| OWrappedList (items : list value) (desc : nat) (owner : nat)
| OLazyList (desc : nat) (owner : nat) (url : string).

(** [heap]: objects by reference (a reference is an index, allocation
    appends); [log]: the requests given to the transport, oldest first;
    [cache]: the [__cache] dicts of the relation descriptors, keyed by
    descriptor and owner identity. *)
Record World := mkWorld {
  heap : list obj;
  log : list Request;
  cache : gmap (nat * nat) value
}.

Definition set_heap (h : list obj) (w : World) : World :=
  mkWorld h (log w) (cache w).
Definition set_log (l : list Request) (w : World) : World :=
  mkWorld (heap w) l (cache w).
Definition set_cache (c : gmap (nat * nat) value) (w : World) : World :=
  mkWorld (heap w) (log w) c.

(** ** Outcomes and the computation monad *)

Inductive Res (A : Type) :=
| Ok (a : A) (w : World)
| Raise (e : exn) (w : World)
| Timeout (w : World).
Arguments Ok {A} a w.
Arguments Raise {A} e w.
Arguments Timeout {A} w.

Definition M (A : Type) : Type := World -> Res A.

Definition ret {A} (a : A) : M A := fun w => Ok a w.
Definition raise {A} (e : exn) : M A := fun w => Raise e w.
Definition bind {A B} (m : M A) (k : A -> M B) : M B :=
  fun w => match m w with
           | Ok a w' => k a w'
           | Raise e w' => Raise e w'
           | Timeout w' => Timeout w'
           end.
Definition lift {A} (r : exn + A) : M A :=
  match r with inl e => raise e | inr a => ret a end.

Notation "x <- m ;; k" := (bind m (fun x => k))
  (at level 100, m at next level, right associativity).
Notation "m ;;; k" := (bind m (fun _ => k))
  (at level 100, right associativity).

(** [except AttributeError: handler] around [m]. *)
Definition except_AttributeError {A} (m : M A) (handler : M A) : M A :=
  fun w => match m w with
           | Raise e w' => if is_AttributeError e then handler w' else Raise e w'
           | r => r
           end.

Definition world_of {A} (r : Res A) : World :=
  match r with Ok _ w | Raise _ w | Timeout w => w end.

(** ** Python primitives used by the source *)

(** Truth value of [v] in a condition.  A [WrappedList] is a list and is
    false when empty; model instances, lazy lists, classes, credentials
    and methods define no length and are true. *)
Definition truthy (h : list obj) (v : value) : bool :=
  match v with
  | VNone => false
  | VBool b => b
  | VInt z => negb (z =? 0)
  | VStr s => negb (String.eqb s EmptyString)
  | VList l | VTuple l => match l with [] => false | _ => true end
  | VDict kvs => match kvs with [] => false | _ => true end
  | VSet s => negb (bool_decide (s = ∅))
  | VRef _ | VClass _ | VAuth _ | VMethod _ => true
  | VWrapper r =>
      match h !! r with
      | Some (OWrappedList [] _ _) => false
      | _ => true
      end
  end.

Definition lower_ascii (a : ascii) : ascii :=
  let n := nat_of_ascii a in
  if ((65 <=? n) && (n <=? 90))%nat then ascii_of_nat (n + 32) else a.

(** [str.lower]. *)
Fixpoint lower (s : string) : string :=
  match s with
  | EmptyString => EmptyString
  | String a s' => String (lower_ascii a) (lower s')
  end.

(** The characters of a string, as iteration yields them. *)
Fixpoint chars (s : string) : list value :=
  match s with
  | EmptyString => []
  | String a s' => VStr (String a EmptyString) :: chars s'
  end.

(** Iteration over a value ([for x in v]); sets are walked in the order of
    [elements]. *)
Definition py_iter (v : value) : exn + list value :=
  match v with
  | VList l | VTuple l => inr l
  | VDict kvs => inr (VStr <$> kvs.*1)
  | VStr s => inr (chars s)
  | VSet s => inr (VStr <$> elements s)
  | _ => inl TypeError
  end.

Definition int_of (v : value) : option Z :=
  match v with
  | VInt z => Some z
  | VBool b => Some (if b then 1 else 0)
  | _ => None
  end.

(** [a += b]: a list is extended by any iterable, strings and tuples are
    concatenated with their own kind, integers (and booleans) are added;
    every other combination, None in particular, is a TypeError. *)
Definition py_iadd (a b : value) : exn + value :=
  match a with
  | VList l =>
      match py_iter b with
      | inr l' => inr (VList (l ++ l'))
      | inl e => inl e
      end
  | VStr s => match b with VStr s' => inr (VStr (s +:+ s')) | _ => inl TypeError end
  | VTuple l => match b with VTuple l' => inr (VTuple (l ++ l')) | _ => inl TypeError end
  | VInt _ | VBool _ =>
      match int_of a, int_of b with
      | Some x, Some y => inr (VInt (x + y))
      | _, _ => inl TypeError
      end
  | _ => inl TypeError
  end.

(** One element of the sequence form of [dict.update]: a key/value pair.
    Only string keys fit the store of this model; a pair with another key
    is reported as a TypeError. *)
Definition as_pair (v : value) : exn + (string * value) :=
  match v with
  | VList [k; x] | VTuple [k; x] =>
      match k with VStr s => inr (s, x) | _ => inl TypeError end
  | VList _ | VTuple _ | VDict _ | VSet _ => inl ValueError
  | VStr (String a (String b EmptyString)) =>
      inr (String a EmptyString, VStr (String b EmptyString))
  | VStr _ => inl ValueError
  | _ => inl TypeError
  end.

Fixpoint as_pairs (l : list value) : exn + list (string * value) :=
  match l with
  | [] => inr []
  | v :: l' =>
      match as_pair v with
      | inl e => inl e
      | inr p =>
          match as_pairs l' with
          | inl e => inl e
          | inr ps => inr (p :: ps)
          end
      end
  end.

(** The key/value pairs [dict.update(v)] goes through: a dict gives its
    items, any other iterable must consist of pairs. *)
Definition update_items (v : value) : exn + list (string * value) :=
  match v with
  | VDict kvs => inr kvs
  | _ =>
      match py_iter v with
      | inl e => inl e
      | inr l => as_pairs l
      end
  end.

(** [d.update(items)]: later bindings win. *)
Definition store_update (d : gmap string value) (kvs : list (string * value))
  : gmap string value :=
  foldl (fun acc kv => <[kv.1 := kv.2]> acc) d kvs.

(** [**v] in a call: [v] must be a mapping. *)
Definition kwargs_of (v : value) : exn + list (string * value) :=
  match v with
  | VDict kvs => inr kvs
  | _ => inl TypeError
  end.

(** ['{0:d}'.format(n)]. *)
Definition format_d (n : Z) : string := pretty n.

(** ** Resource types, relation descriptors, environment *)

(** A path template ([str.format] string): literal text, [{k}], and
    [{k.a}] (attribute [a] of the value bound to [k], as in
    [{self.url}]). *)
Inductive segment :=
| Lit (s : string)
| Field (k : string)
| FieldAttr (k : string) (a : string).

Definition template := list segment.

(** What a name of a class body is bound to: a relation descriptor, a
    nested class that is no [Model], or any other value. *)
Inductive cattr :=
| CRelation (d : nat)
| CNested
| CVal (v : value).

(** A resource type after [ModelBase.__new__] ran: [_pk] is a tuple, [_path]
    is set.  [c_bases] lists the resource types it inherits from;
    [c_dict] is its own class body; [c_get_alias] tells whether the class
    binds [get] to [read] (as [McashModel] does).  Class-level
    configuration is read from here: an instance attribute shadowing
    [_path], [_pk] or a method is not modelled. *)
Record ModelClass := mkClass {
  c_name : string;
  c_bases : list nat;
  c_dict : list (string * cattr);
  c_path : template;
  c_pk : list string;
  c_auth : value;
  c_url_base : option string;
  c_continuator : Response -> option string;
  c_parser : string -> exn + value;
  c_serializer : gmap string value -> exn + string;
  c_get_alias : bool
}.

Record ManyDesc := mkMany {
  m_model : nat;
  m_path : option template;
  m_lazy : bool;
  m_preprocessor : option (value -> exn + value)
}.

Record ForeignDesc := mkForeign {
  f_model : nat;
  f_key_property : option string;
  f_key_extractor : option (nat -> M (list value));
  f_embedded : bool
}.

Inductive Descriptor :=
| DMany (m : ManyDesc)
| DForeign (f : ForeignDesc).

(** The collaborators: the HTTP transport (its answer may depend on the
    requests seen before), [urlparse.urljoin], the declared resource
    types and relation descriptors, and the text Python prints for a
    value that is neither a scalar nor a model instance. *)
Record Env := mkEnv {
  transport : list Request -> Request -> exn + Response;
  urljoin : option string -> string -> string;
  classes : nat -> ModelClass;
  descriptors : nat -> Descriptor;
  repr_other : value -> string
}.

Definition ALLOWED_HTTP_METHODS : list string :=
  ["GET"; "POST"; "PUT"; "DELETE"; "PATCH"].

(** The functions that the others reach through a recursive call; an
    [Ops] is the table of these callees. *)
Record Ops := mkOps {
  o_rest_call : nat -> string -> string -> bool -> Kwargs -> M (value * option string);
  o_getattr : nat -> string -> M value;
  o_hook : nat -> string -> M value;
  o_current_path : nat -> M string;
  o_eq : nat -> value -> M bool
}.

Definition get_heap : M (list obj) := fun w => Ok (heap w) w.

(** [requests.request(...)]: the request is recorded, then answered. *)
Definition request (E : Env) (req : Request) : M Response :=
  fun w =>
    let w' := set_log (log w ++ [req]) w in
    match transport E (log w) req with
    | inl e => Raise e w'
    | inr resp => Ok resp w'
    end.

(** The class attribute [name] as [cls.name] finds it, over the class body
    and the inherited bodies. *)
Fixpoint lookup_bodies (E : Env) (cs : list nat) (name : string) : option cattr :=
  match cs with
  | [] => None
  | c :: cs' =>
      match (list_to_map (c_dict (classes E c)) : gmap string cattr) !! name with
      | Some a => Some a
      | None => lookup_bodies E cs' name
      end
  end.

Definition class_lookup (E : Env) (c : nat) (name : string) : option cattr :=
  lookup_bodies E (c :: c_bases (classes E c)) name.

Definition relation_model (D : Descriptor) : nat :=
  match D with
  | DMany m => m_model m
  | DForeign f => f_model f
  end.

Section WithEnv.
Variable E : Env.

(** [if cls._auth is not None and 'auth' not in kwargs:
    kwargs['auth'] = cls.auth] (core.py 247-248).  The class defines
    [_auth]; [auth] exists only where a class body binds it. *)
Definition inject_auth (cls : nat) (kwargs : Kwargs) : M Kwargs :=
  match c_auth (classes E cls), kw_auth kwargs with
  | VNone, _ | _, Some _ => ret kwargs
  | _, None =>
      match class_lookup E cls "auth" with
      | Some (CVal v) => ret (mkKwargs (Some v) (kw_data kwargs))
      | Some (CRelation d) =>
          ret (mkKwargs (Some (VClass (relation_model (descriptors E d))))
                        (kw_data kwargs))
      | Some CNested => ret (mkKwargs (Some (VMethod "auth")) (kw_data kwargs))
      | None => raise AttributeError
      end
  end.

Definition success (response : Response) : bool :=
  (200 <=? status_code response) && (status_code response <? 300).

(** [_rest_call(cls, url, method='GET', fetch_all=True, **kwargs)]
    (core.py 221-279).  The recursive call for the next page receives
    [**kwargs] only: [method] and [fetch_all] fall back to their
    defaults. *)
Definition _rest_call (rec : Ops) (cls : nat) (url : string) (method : string)
    (fetch_all : bool) (kwargs : Kwargs) : M (value * option string) :=
  let C := classes E cls in
  let url := urljoin E (c_url_base C) url in
  kwargs <- inject_auth cls kwargs ;;
  if bool_decide (method ∈ ALLOWED_HTTP_METHODS) then
    response <- request E (mkRequest (lower method) url kwargs) ;;
    if success response then
      let continuation_url := c_continuator C response in
      let response_data := text response in
      data <- (if String.eqb response_data EmptyString then ret VNone
               else lift (c_parser C response_data)) ;;
      match continuation_url with
      | Some next_url =>
          if String.eqb next_url EmptyString then ret (data, None)
          else if fetch_all then
            more <- o_rest_call rec cls next_url "GET" true kwargs ;;
            data <- lift (py_iadd data more.1) ;;
            ret (data, None)
          else ret (data, continuation_url)
      | None => ret (data, None)
      end
    else
      raise (PyrestoServerResponseException
               ("Server response not OK. Response code: "
                +:+ format_d (status_code response)))
  else raise (PyrestoInvalidRestMethodException method).

(** *** Instances *)

(** The class and [__dict__] of the model instance [r].  Every reference
    the modelled code follows was produced by an allocation of a model
    instance; for any other reference the access is a TypeError. *)
Definition instance (r : nat) : M (nat * gmap string value) :=
  fun w => match heap w !! r with
           | Some (OModel c d) => Ok (c, d) w
           | _ => Raise TypeError w
           end.

Definition set_dict (r : nat) (d : gmap string value) : M unit :=
  fun w => match heap w !! r with
           | Some (OModel c _) => Ok tt (set_heap (<[r := OModel c d]> (heap w)) w)
           | _ => Raise TypeError w
           end.

Definition alloc (o : obj) : M nat :=
  fun w => Ok (length (heap w)) (set_heap (heap w ++ [o]) w).

(** Attributes that hold instance state and have a default on the class:
    [_fetched = False], [_changed = None], [_auth = cls._auth],
    [__pk_vals = None], [__footprint = None]. *)
Definition state_default (C : ModelClass) (name : string) : option value :=
  if String.eqb name "_fetched" then Some (VBool false)
  else if String.eqb name "_changed" then Some VNone
  else if String.eqb name "_auth" then Some (c_auth C)
  else if String.eqb name "_Model__pk_vals" then Some VNone
  else if String.eqb name "_Model__footprint" then Some VNone
  else None.

Definition state (C : ModelClass) (d : gmap string value) (name : string) : value :=
  match d !! name with
  | Some v => v
  | None => default VNone (state_default C name)
  end.

(** The other names [Model] and [object] define (configuration, methods);
    reading one through an instance gives the class-level object. *)
Definition Model_namespace : list string :=
  [ "_update_method"; "_url_base"; "_path"; "_pk"; "_get_params";
    "_continuator"; "_parser"; "_serializer"; "_get_sanitized_url";
    "_rest_call"; "_Model__fetch"; "read"; "update"; "update_with_patch";
    "update_with_put"; "delete"; "__metaclass__"; "__init__"; "__getattr__";
    "__setattr__"; "__delattr__"; "__eq__"; "__repr__"; "__class__";
    "__dict__"; "__doc__"; "__module__"; "__weakref__"; "__new__";
    "__hash__"; "__str__"; "__getattribute__"; "__format__"; "__reduce__";
    "__reduce_ex__"; "__sizeof__"; "__subclasshook__"; "__abstractmethods__";
    "_abc_cache"; "_abc_negative_cache"; "_abc_negative_cache_version";
    "_abc_registry" ].

Definition properties : list string :=
  ["_id"; "_pk_vals"; "_footprint"; "_current_path"].

(** The names [object] handles itself on assignment. *)
Definition object_slots : list string := ["__dict__"; "__class__"; "__weakref__"].

(** [key.startswith('_')]. *)
Definition startswith_underscore (key : string) : bool :=
  match key with
  | String a _ => Ascii.eqb a "_"%char
  | EmptyString => false
  end.

Definition py_len (v : value) : exn + nat :=
  match v with
  | VList l | VTuple l => inr (length l)
  | VDict kvs => inr (length kvs)
  | VStr s => inr (String.length s)
  | VSet s => inr (size s)
  | _ => inl TypeError
  end.

(** [v[-1]].  Indexing a [WrappedList] is outside the model and reported
    as a TypeError. *)
Definition py_last (v : value) : exn + value :=
  match v with
  | VList l | VTuple l =>
      match last l with Some x => inr x | None => inl IndexError end
  | VStr s =>
      match last (chars s) with Some x => inr x | None => inl IndexError end
  | VDict _ => inl (KeyError "-1")
  | _ => inl TypeError
  end.

(** A property read: when the getter raises AttributeError, Python falls
    back to [__getattr__] with the property name. *)
Definition prop {A} (rec : Ops) (r : nat) (name : string) (getter : M A)
    (back : value -> M A) : M A :=
  except_AttributeError getter (v <- o_hook rec r name ;; back v).

(** The setter of [_pk_vals] (core.py 198-203). *)
Definition _pk_vals_setter (r : nat) (v : value) : M unit :=
  cd <- instance r ;;
  n <- lift (py_len v) ;;
  if bool_decide (n = length (c_pk (classes E cd.1))) then
    items <- lift (py_iter v) ;;
    set_dict r (<["_Model__pk_vals" := VTuple items]> cd.2)
  else raise ValueError.

(** [obj.__class__ = C]. *)
Definition set_class (r : nat) (c : nat) : M unit :=
  fun w => match heap w !! r with
           | Some (OModel _ d) => Ok tt (set_heap (<[r := OModel c d]> (heap w)) w)
           | _ => Raise TypeError w
           end.

(** [object.__setattr__]: the data descriptors of the class come first.
    These are the properties of [Model], of which [_pk_vals] alone has a
    setter, and the slots of [object]: [__dict__], which takes a dict and
    makes it the whole store of the instance, [__class__], which takes a
    class, and [__weakref__], which is read-only.  Any other name is
    stored in [__dict__]. *)
Definition object_setattr (r : nat) (key : string) (v : value) : M unit :=
  if String.eqb key "_pk_vals" then _pk_vals_setter r v
  else if bool_decide (key ∈ properties) then raise AttributeError
  else if String.eqb key "__dict__" then
    match v with
    | VDict kvs => set_dict r (store_update ∅ kvs)
    | _ => raise TypeError
    end
  else if String.eqb key "__class__" then
    match v with
    | VClass c => set_class r c
    | _ => raise TypeError
    end
  else if String.eqb key "__weakref__" then raise AttributeError
  else cd <- instance r ;; set_dict r (<[key := v]> cd.2).

(** [Model.__setattr__] (core.py 303-306). *)
Definition __setattr__ (r : nat) (key : string) (v : value) : M unit :=
  (if negb (startswith_underscore key) then
     cd <- instance r ;;
     match state (classes E cd.1) cd.2 "_changed" with
     | VSet s => set_dict r (<["_changed" := VSet ({[key]} ∪ s)]> cd.2)
     | _ => raise AttributeError
     end
   else ret tt) ;;;
  object_setattr r key v.

(** [Model.__delattr__] (core.py 308-310). *)
Definition __delattr__ (r : nat) (item : string) : M unit :=
  raise PyrestoInvalidOperationException.

(** [issubclass(getattr(cls, item), Model)] for what the class body binds
    to [item].  A relation read on the class gives its model, and a class
    given as a value is a resource type: both are subclasses.  A nested
    class, a function or method and a credentials object are not.  For a
    value that cannot be weakly referenced or hashed (None, a number, a
    string, a tuple, a list, a dict, a set, a wrapped list) the check of
    [ABCMeta] raises TypeError.  A model instance bound in a class body is
    outside the model and reported as a TypeError as well. *)
Definition overlap_is_model (a : cattr) : exn + bool :=
  match a with
  | CRelation _ => inr true
  | CNested => inr false
  | CVal v =>
      match v with
      | VClass _ => inr true
      | VAuth _ | VMethod _ => inr false
      | _ => inl TypeError
      end
  end.

(** Renaming of constructor or payload fields that collide with names of
    the class body ([__init__], core.py 168-173, and [__fetch], 288-293):
    a field named like a relation, or like a resource type bound in the
    class body, moves under ['__' + name].  The names are visited in one
    fixed order. *)
Fixpoint rename_overlaps (body : list (string * cattr)) (given : list string)
    (d : gmap string value) : exn + gmap string value :=
  match body with
  | [] => inr d
  | (item, a) :: body' =>
      if bool_decide (item ∈ given) then
        match overlap_is_model a with
        | inl e => inl e
        | inr true =>
            match d !! item with
            | Some v => rename_overlaps body' given (<["__" +:+ item := v]> (delete item d))
            | None => inl (KeyError item)
            end
        | inr false => rename_overlaps body' given d
        end
      else rename_overlaps body' given d
  end.

(** The names of a class body, each once ([set(cls.__dict__)]). *)
Definition body_names (C : ModelClass) : list (string * cattr) :=
  map_to_list (list_to_map (c_dict C) : gmap string cattr).

(** [Model.__init__(self, parent=None, **kwargs)] (core.py 151-175), on a
    freshly allocated instance of [cls]. *)
Definition __init__ (cls : nat) (parent : value) (kwargs : list (string * value))
    : M nat :=
  let C := classes E cls in
  let d := <["_parent" := parent]> (∅ : gmap string value) in
  let d := store_update d kwargs in
  d <- lift (rename_overlaps (body_names C) kwargs.*1 d) ;;
  alloc (OModel cls (<["_changed" := VSet ∅]> d)).

(** The call [cls(parent=p, **kwargs)] or [cls( **kwargs)]: a key [self]
    clashes with the receiver, a key [parent] binds the parameter and
    clashes with an explicit [parent=]. *)
Definition new (cls : nat) (parent : option value) (kwargs : list (string * value))
    : M nat :=
  let m : gmap string value := store_update ∅ kwargs in
  if bool_decide ("self" ∈ kwargs.*1) then raise TypeError
  else
    match m !! "parent", parent with
    | Some _, Some _ => raise TypeError
    | Some p, None =>
        __init__ cls p (filter (fun kv => kv.1 ≠ "parent") kwargs)
    | None, Some p => __init__ cls p kwargs
    | None, None => __init__ cls VNone kwargs
    end.

(** The property [_id] (core.py 177-183). *)
Definition _id (rec : Ops) (r : nat) : M value :=
  cd <- instance r ;;
  let C := classes E cd.1 in
  let pk_vals := state C cd.2 "_Model__pk_vals" in
  h <- get_heap ;;
  if truthy h pk_vals then lift (py_last pk_vals)
  else
    match last (c_pk C) with
    | Some name => o_getattr rec r name
    | None => raise IndexError
    end.

(** The property [_pk_vals] (core.py 185-196): the stored tuple is
    rebuilt on every read. *)
Definition _pk_vals (rec : Ops) (r : nat) : M value :=
  cd <- instance r ;;
  let C := classes E cd.1 in
  id <- prop rec r "_id" (_id rec r) ret ;;
  __setattr__ r "_Model__pk_vals"
    (VTuple (replicate (length (c_pk C) - 1) VNone ++ [id])) ;;;
  cd <- instance r ;;
  ret (state (classes E cd.1) cd.2 "_Model__pk_vals").

(** The property [_footprint] (core.py 205-211).  The footprint is
    returned as the items of the dict, later items binding last. *)
Definition _footprint (rec : Ops) (r : nat) : M (list (string * value)) :=
  cd <- instance r ;;
  let C := classes E cd.1 in
  pk_vals <- prop rec r "_pk_vals" (_pk_vals rec r) ret ;;
  vals <- lift (py_iter pk_vals) ;;
  let footprint := zip (c_pk C) vals ++ [("self", VRef r)] in
  __setattr__ r "_Model__footprint" (VDict footprint) ;;;
  ret footprint.

Definition footprint_of (v : value) : M (list (string * value)) :=
  match v with VDict kvs => ret kvs | _ => raise TypeError end.

Definition string_of (v : value) : M string :=
  match v with VStr s => ret s | _ => raise TypeError end.

(** [Model.__repr__] (core.py 315-322).  With an empty [_path] the
    footprint dict is printed, which holds the instance and prints it
    again without end. *)
Definition __repr__ (rec : Ops) (r : nat) : M string :=
  cd <- instance r ;;
  let C := classes E cd.1 in
  match c_path C with
  | [] => _ <- prop rec r "_footprint" (_footprint rec r) footprint_of ;; Timeout
  | _ =>
      descriptor <- prop rec r "_current_path" (o_current_path rec r) string_of ;;
      ret ("<Pyresto.Model." +:+ c_name C +:+ " [" +:+ descriptor +:+ "]>")
  end.

(** The text of a value inside a formatted path. *)
Definition render (rec : Ops) (v : value) : M string :=
  match v with
  | VStr s => ret s
  | VInt z => ret (pretty z)
  | VNone => ret "None"
  | VBool b => ret (if b then "True" else "False")
  | VRef r => __repr__ rec r
  | _ => ret (repr_other E v)
  end.

(** [tpl.format( **footprint)].  Attributes are followed on model
    instances only. *)
Fixpoint format (rec : Ops) (tpl : template) (footprint : gmap string value)
    : M string :=
  match tpl with
  | [] => ret EmptyString
  | seg :: tpl' =>
      s <- (match seg with
            | Lit s => ret s
            | Field k =>
                match footprint !! k with
                | Some v => render rec v
                | None => raise (KeyError k)
                end
            | FieldAttr k a =>
                match footprint !! k with
                | Some (VRef r) => v <- o_getattr rec r a ;; render rec v
                | Some _ => raise AttributeError
                | None => raise (KeyError k)
                end
            end) ;;
      rest <- format rec tpl' footprint ;;
      ret (s +:+ rest)
  end.

(** [getattr(parent, '_current_path', '')]: None when the result is not
    a string (the property object of a class). *)
Definition parent_path (rec : Ops) (parent : value) : M (option string) :=
  match parent with
  | VRef p =>
      except_AttributeError
        (s <- prop rec p "_current_path" (o_current_path rec p) string_of ;;
         ret (Some s))
        (ret (Some EmptyString))
  | VClass _ => ret None
  | _ => ret (Some EmptyString)
  end.

Definition concat_path (base : option string) (s : string) : M string :=
  match base with
  | Some b => ret (b +:+ s)
  | None => raise TypeError
  end.

(** The property [_current_path] (core.py 213-215). *)
Definition _current_path (rec : Ops) (r : nat) : M string :=
  cd <- instance r ;;
  parent <- (match cd.2 !! "_parent" with
             | Some v => ret v
             | None => o_getattr rec r "_parent"
             end) ;;
  base <- parent_path rec parent ;;
  footprint <- prop rec r "_footprint" (_footprint rec r) footprint_of ;;
  cd <- instance r ;;
  s <- format rec (c_path (classes E cd.1)) (store_update ∅ footprint) ;;
  concat_path base s.

(** [set(data)] restricted to strings: the candidates for a name of the
    class body.  Lists, dicts and sets are unhashable. *)
Fixpoint hashable_names (l : list value) : exn + list string :=
  match l with
  | [] => inr []
  | v :: l' =>
      match v with
      | VList _ | VDict _ | VSet _ => inl TypeError
      | _ =>
          match hashable_names l' with
          | inl e => inl e
          | inr ns => inr (match v with VStr s => s :: ns | _ => ns end)
          end
      end
  end.

Definition names_of (data : value) : exn + list string :=
  match py_iter data with
  | inl e => inl e
  | inr l => hashable_names l
  end.

(** [Model.__fetch] (core.py 281-295). *)
Definition __fetch (rec : Ops) (r : nat) : M unit :=
  url <- prop rec r "_current_path" (_current_path rec r) string_of ;;
  cd <- instance r ;;
  let auth := state (classes E cd.1) cd.2 "_auth" in
  res <- _rest_call rec cd.1 url "GET" true (mkKwargs (Some auth) None) ;;
  let data := res.1 in
  h <- get_heap ;;
  if truthy h data then
    items <- lift (update_items data) ;;
    cd <- instance r ;;
    let d := store_update cd.2 items in
    set_dict r d ;;;
    given <- lift (names_of data) ;;
    d <- lift (rename_overlaps (body_names (classes E cd.1)) given d) ;;
    set_dict r d ;;;
    __setattr__ r "_fetched" (VBool true)
  else ret tt.

(** [Model.__getattr__] (core.py 297-301), the hook Python calls when the
    regular lookup of [name] fails. *)
Definition __getattr__ (rec : Ops) (r : nat) (name : string) : M value :=
  cd <- instance r ;;
  h <- get_heap ;;
  if truthy h (state (classes E cd.1) cd.2 "_fetched") then raise AttributeError
  else
    __fetch rec r ;;;
    o_getattr rec r name.

(** [isinstance(v, cls)] for a resource type [cls]. *)
Definition issubclass (c cls : nat) : bool :=
  bool_decide (c = cls) || bool_decide (cls ∈ c_bases (classes E c)).

Definition isinstance (h : list obj) (v : value) (cls : nat) : bool :=
  match v with
  | VRef r =>
      match h !! r with
      | Some (OModel c _) => issubclass c cls
      | _ => false
      end
  | _ => false
  end.

(** [Model.read(cls, *args, parent=..., auth=...)] (core.py 324-354).
    [auth] is None when the keyword is not given. *)
Definition read (rec : Ops) (cls : nat) (args : list value)
    (parent : option value) (auth : option value) : M value :=
  let C := classes E cls in
  let auth := default (c_auth C) auth in
  let ids := zip (c_pk C) args in
  let parent := default VNone parent in
  base <- parent_path rec parent ;;
  s <- format rec (c_path C) (store_update ∅ ids) ;;
  path <- concat_path base s ;;
  res <- _rest_call rec cls path "GET" true (mkKwargs (Some auth) None) ;;
  let data := res.1 in
  h <- get_heap ;;
  if negb (truthy h data) then ret VNone
  else
    kwargs <- lift (kwargs_of data) ;;
    r <- new cls (Some parent) kwargs ;;
    __setattr__ r "_pk_vals" (VTuple args) ;;;
    __setattr__ r "_fetched" (VBool true) ;;;
    h <- get_heap ;;
    (if truthy h auth then __setattr__ r "_auth" auth else ret tt) ;;;
    ret (VRef r).

(** Structural equality of values that are no model instances; [True]
    and [1] are the same number, dicts compare as mappings. *)
Fixpoint value_eqb (a b : value) {struct a} : bool :=
  let fix list_eqb (l1 l2 : list value) {struct l1} : bool :=
    match l1, l2 with
    | [], [] => true
    | x :: l1', y :: l2' => value_eqb x y && list_eqb l1' l2'
    | _, _ => false
    end in
  let fix sub_dict (kvs1 kvs2 : list (string * value)) {struct kvs1} : bool :=
    match kvs1 with
    | [] => true
    | kv :: rest =>
        match (list_to_map kvs2 : gmap string value) !! kv.1 with
        | Some v' => value_eqb kv.2 v'
        | None => false
        end && sub_dict rest kvs2
    end in
  match a, b with
  | VNone, VNone => true
  | (VInt _ | VBool _), (VInt _ | VBool _) =>
      bool_decide (int_of a = int_of b)
  | VStr s, VStr s' => String.eqb s s'
  | VList l, VList l' => list_eqb l l'
  | VTuple l, VTuple l' => list_eqb l l'
  | VDict kvs, VDict kvs' =>
      bool_decide (length kvs = length kvs') && sub_dict kvs kvs'
  | VSet s, VSet s' => bool_decide (s = s')
  | VRef r, VRef r' => bool_decide (r = r')
  | VWrapper r, VWrapper r' => bool_decide (r = r')
  | VClass c, VClass c' => bool_decide (c = c')
  | VAuth x, VAuth x' => bool_decide (x = x')
  | VMethod n, VMethod n' => String.eqb n n'
  | _, _ => false
  end.

(** [a == b]: a model instance on either side decides with its
    [__eq__].  Between two instances the left one decides, unless the
    class of the right one is a proper subclass of the class of the left
    one: then Python asks the right one first, and [Model.__eq__] always
    answers. *)
Definition py_eq (rec : Ops) (a b : value) : M bool :=
  match a, b with
  | VRef r, VRef r' =>
      h <- get_heap ;;
      match h !! r, h !! r' with
      | Some (OModel c _), Some (OModel c' _) =>
          if negb (bool_decide (c = c')) && issubclass c' c then o_eq rec r' a
          else o_eq rec r b
      | _, _ => o_eq rec r b
      end
  | VRef r, _ => o_eq rec r b
  | _, VRef r => o_eq rec r a
  | _, _ => ret (value_eqb a b)
  end.

(** [Model.__eq__] (core.py 312-313). *)
Definition __eq__ (rec : Ops) (r : nat) (other : value) : M bool :=
  cd <- instance r ;;
  h <- get_heap ;;
  if isinstance h other cd.1 then
    match other with
    | VRef o =>
        a <- prop rec r "_id" (_id rec r) ret ;;
        b <- prop rec o "_id" (_id rec o) ret ;;
        py_eq rec a b
    | _ => ret false
    end
  else ret false.

(** *** Relations (relations.py) *)

Definition cache_get (d r : nat) : M (option value) :=
  fun w => Ok (cache w !! (d, r)) w.

Definition cache_set (d r : nat) (v : value) : M unit :=
  fun w => Ok tt (set_cache (<[(d, r) := v]> (cache w)) w).

(** [self.__path = path or model._path] ([Many.__init__]). *)
Definition many_path (m : ManyDesc) : template :=
  match m_path m with
  | Some (seg :: tpl) => seg :: tpl
  | _ => c_path (classes E (m_model m))
  end.

(** [Many.__sanitize_data] (relations.py 142-147). *)
Definition sanitize_data (m : ManyDesc) (data : value) : M value :=
  h <- get_heap ;;
  if negb (truthy h data) then ret (VList [])
  else
    match m_preprocessor m with
    | Some f => lift (f data)
    | None => ret data
    end.

(** [Many.__get__] (relations.py 178-199).  [inst] is None when the field
    is read on the class.  The wrapper is allocated on the heap and its
    reference is what the descriptor caches and returns. *)
Definition Many_get (rec : Ops) (dsc : nat) (m : ManyDesc) (inst : option nat)
    : M value :=
  match inst with
  | None => ret (VClass (m_model m))
  | Some r =>
      hit <- cache_get dsc r ;;
      match hit with
      | Some v => ret v
      | None =>
          footprint <- prop rec r "_footprint" (_footprint rec r) footprint_of ;;
          path <- format rec (many_path m) (store_update ∅ footprint) ;;
          (if m_lazy m then
             l <- alloc (OLazyList dsc r path) ;;
             cache_set dsc r (VWrapper l)
           else
             cd <- instance r ;;
             let auth := state (classes E cd.1) cd.2 "_auth" in
             res <- _rest_call rec (m_model m) path "GET" true
                      (mkKwargs (Some auth) None) ;;
             data <- sanitize_data m res.1 ;;
             items <- lift (py_iter data) ;;
             l <- alloc (OWrappedList items dsc r) ;;
             cache_set dsc r (VWrapper l)) ;;;
          hit <- cache_get dsc r ;;
          match hit with
          | Some v => ret v
          | None => raise (KeyError "instance")
          end
      end
  end.

Definition is_word (a : ascii) : bool :=
  let n := nat_of_ascii a in
  (((48 <=? n) && (n <=? 57)) || ((65 <=? n) && (n <=? 90))
   || ((97 <=? n) && (n <=? 122)) || (n =? 95))%nat.

(** The longest prefix of word characters, and the rest. *)
Fixpoint span_word (s : string) : string * string :=
  match s with
  | String a s' =>
      if is_word a then (String a (span_word s').1, (span_word s').2)
      else (EmptyString, s)
  | EmptyString => (EmptyString, EmptyString)
  end.

(** [re.match(r'(\w+)(?:\[(\w+)\])?', s)]: the groups, when it matches. *)
Definition match_key_property (s : string) : option (string * option string) :=
  let item := (span_word s).1 in
  match item, (span_word s).2 with
  | EmptyString, _ => None
  | _, String a rest =>
      if Ascii.eqb a "["%char then
        match (span_word rest).1, (span_word rest).2 with
        | String k ks, String b _ =>
            if Ascii.eqb b "]"%char then Some (item, Some (String k ks))
            else Some (item, None)
        | _, _ => Some (item, None)
        end
      else Some (item, None)
  | _, EmptyString => Some (item, None)
  end.

(** [item[key]] for a string [key]. *)
Definition py_getitem_str (item : value) (key : string) : exn + value :=
  match item with
  | VDict kvs =>
      match (store_update ∅ kvs) !! key with
      | Some v => inr v
      | None => inl (KeyError key)
      end
  | _ => inl TypeError
  end.

Fixpoint extract_ids (rec : Ops) (r : nat) (footprint : gmap string value)
    (ks : list string) : M (list value) :=
  match ks with
  | [] => ret []
  | k :: ks' =>
      v <- (match footprint !! k with
            | Some v => ret v
            | None => o_getattr rec r k
            end) ;;
      vs <- extract_ids rec r footprint ks' ;;
      ret (v :: vs)
  end.

(** The default key extractor of [Foreign.__init__] (relations.py
    241-254); it reads the constructor argument [key_property]. *)
Definition extract (rec : Ops) (f : ForeignDesc) (r : nat) : M (list value) :=
  footprint <- prop rec r "_footprint" (_footprint rec r) footprint_of ;;
  let pk := c_pk (classes E (f_model f)) in
  ids <- extract_ids rec r (store_update ∅ footprint) (take (length pk - 1) pk) ;;
  match f_key_property f with
  | None => raise TypeError
  | Some key_property =>
      match match_key_property key_property with
      | None => raise AttributeError
      | Some (item, key) =>
          item <- o_getattr rec r item ;;
          v <- (match key with
                | Some k => lift (py_getitem_str item k)
                | None => ret item
                end) ;;
          ret (ids ++ [v])
      end
  end.

(** [self.__embedded = embedded and not key_extractor]. *)
Definition foreign_embedded (f : ForeignDesc) : bool :=
  f_embedded f && negb (bool_decide (is_Some (f_key_extractor f))).

(** [self.__key_property = key_property or '__' + model.__name__.lower()]. *)
Definition foreign_key_property (f : ForeignDesc) : string :=
  match f_key_property f with
  | Some (String a s) => String a s
  | _ => "__" +:+ lower (c_name (classes E (f_model f)))
  end.

Definition foreign_key_extractor (rec : Ops) (f : ForeignDesc) (r : nat)
    : M (list value) :=
  match f_key_extractor f with
  | Some g => g r
  | None => extract rec f r
  end.

(** [Foreign.__get__] (relations.py 258-274).  The referenced branch
    calls [self.__model.get], which exists on the class only when it
    binds [get]. *)
Definition Foreign_get (rec : Ops) (dsc : nat) (f : ForeignDesc) (inst : option nat)
    : M value :=
  match inst with
  | None => ret (VClass (f_model f))
  | Some r =>
      hit <- cache_get dsc r ;;
      match hit with
      | Some v => ret v
      | None =>
          (if foreign_embedded f then
             sub <- o_getattr rec r (foreign_key_property f) ;;
             kwargs <- lift (kwargs_of sub) ;;
             t <- new (f_model f) None kwargs ;;
             cache_set dsc r (VRef t) ;;;
             cd <- instance r ;;
             __setattr__ t "_auth" (state (classes E cd.1) cd.2 "_auth")
           else
             if c_get_alias (classes E (f_model f)) then
               cd <- instance r ;;
               let auth := state (classes E cd.1) cd.2 "_auth" in
               key <- foreign_key_extractor rec f r ;;
               res <- read rec (f_model f) key None (Some auth) ;;
               cache_set dsc r res
             else raise AttributeError) ;;;
          hit <- cache_get dsc r ;;
          match hit with
          | Some (VRef t) =>
              __setattr__ t "_pyresto_owner" (VRef r) ;;;
              ret (VRef t)
          | Some _ => raise AttributeError
          | None => raise (KeyError "instance")
          end
      end
  end.

Definition relation_get (rec : Ops) (dsc : nat) (inst : option nat) : M value :=
  match descriptors E dsc with
  | DMany m => Many_get rec dsc m inst
  | DForeign f => Foreign_get rec dsc f inst
  end.

(** [getattr(instance, name)]: the regular lookup (properties of [Model],
    then [__dict__], then the class), and [__getattr__] when it fails: when
    nothing binds the name, and also when the [__get__] of a relation
    raises AttributeError. *)
Definition getattr (rec : Ops) (r : nat) (name : string) : M value :=
  if String.eqb name "_id" then prop rec r "_id" (_id rec r) ret
  else if String.eqb name "_pk_vals" then prop rec r "_pk_vals" (_pk_vals rec r) ret
  else if String.eqb name "_footprint" then
    kvs <- prop rec r "_footprint" (_footprint rec r) footprint_of ;; ret (VDict kvs)
  else if String.eqb name "_current_path" then
    s <- prop rec r "_current_path" (_current_path rec r) string_of ;; ret (VStr s)
  else
    cd <- instance r ;;
    match cd.2 !! name with
    | Some v => ret v
    | None =>
        match class_lookup E cd.1 name with
        | Some (CRelation dsc) =>
            except_AttributeError (relation_get rec dsc (Some r))
                                  (__getattr__ rec r name)
        | Some CNested => ret (VMethod name)
        | Some (CVal v) => ret v
        | None =>
            match state_default (classes E cd.1) name with
            | Some v => ret v
            | None =>
                if bool_decide (name ∈ Model_namespace) then ret (VMethod name)
                else __getattr__ rec r name
            end
        end
    end.

(** *** Updates and delete *)

(** [v._auth] for the [instance] argument of a class method. *)
Definition auth_of (v : value) : M value :=
  match v with
  | VRef r => cd <- instance r ;; ret (state (classes E cd.1) cd.2 "_auth")
  | VClass c => ret (c_auth (classes E c))
  | _ => raise AttributeError
  end.

(** The decorator [normalize_auth] (decorators.py 23-39): the [auth]
    keyword, when absent or None, becomes [cls._auth or instance._auth]. *)
Definition normalize_auth (cls : nat) (inst : value) (auth : option value)
    : M value :=
  match default VNone auth with
  | VNone =>
      h <- get_heap ;;
      if truthy h (c_auth (classes E cls)) then ret (c_auth (classes E cls))
      else auth_of inst
  | a => ret a
  end.

(** The decorator [assert_class_instance] (decorators.py 6-20). *)
Definition assert_class_instance (cls : nat) (inst : value) : M nat :=
  h <- get_heap ;;
  if isinstance h inst cls then
    match inst with VRef r => ret r | _ => raise AssertionError end
  else raise AssertionError.

(** [dict((key, instance.__dict__[key]) for key in keys)]. *)
Fixpoint pick (d : gmap string value) (keys : list value)
    : exn + gmap string value :=
  match keys with
  | [] => inr ∅
  | k :: keys' =>
      match k with
      | VStr key =>
          match d !! key with
          | None => inl (KeyError key)
          | Some v =>
              match pick d keys' with
              | inl e => inl e
              | inr m => inr (<[key := v]> m)
              end
          end
      | VList _ | VDict _ | VSet _ => inl TypeError
      | _ => inl (KeyError "?")
      end
  end.

(** [Model.update_with_patch(cls, instance, keys=None, auth=None)]
    (core.py 356-372), under its two decorators. *)
Definition update_with_patch (rec : Ops) (cls : nat) (inst : value)
    (keys : value) (auth : option value) : M value :=
  auth <- normalize_auth cls inst auth ;;
  r <- assert_class_instance cls inst ;;
  cd <- instance r ;;
  let changed := state (classes E cd.1) cd.2 "_changed" in
  h <- get_heap ;;
  keys <- (if truthy h keys then
             match keys, changed with
             | VSet k, VSet c => ret (VSet (k ∩ c))
             | _, _ => raise TypeError
             end
           else ret changed) ;;
  ks <- lift (py_iter keys) ;;
  data <- lift (pick cd.2 ks) ;;
  path <- prop rec r "_current_path" (_current_path rec r) string_of ;;
  body <- lift (c_serializer (classes E cls) data) ;;
  res <- _rest_call rec cls path "PATCH" true (mkKwargs (Some auth) (Some body)) ;;
  items <- lift (update_items res.1) ;;
  cd <- instance r ;;
  set_dict r (store_update cd.2 items) ;;;
  cd <- instance r ;;
  match state (classes E cd.1) cd.2 "_changed", keys with
  | VSet c, VSet k => __setattr__ r "_changed" (VSet (c ∖ k))
  | _, _ => raise TypeError
  end ;;;
  ret inst.

(** [Model.update_with_put(cls, instance, auth=None)] (core.py 374-385). *)
Definition update_with_put (rec : Ops) (cls : nat) (inst : value)
    (auth : option value) : M value :=
  auth <- normalize_auth cls inst auth ;;
  r <- assert_class_instance cls inst ;;
  cd <- instance r ;;
  let data := cd.2 in
  path <- prop rec r "_current_path" (_current_path rec r) string_of ;;
  body <- lift (c_serializer (classes E cls) data) ;;
  res <- _rest_call rec cls path "PUT" true (mkKwargs (Some auth) (Some body)) ;;
  items <- lift (update_items res.1) ;;
  cd <- instance r ;;
  set_dict r (store_update cd.2 items) ;;;
  cd <- instance r ;;
  match state (classes E cd.1) cd.2 "_changed" with
  | VSet _ => set_dict r (<["_changed" := VSet ∅]> cd.2)
  | VDict _ => set_dict r (<["_changed" := VDict []]> cd.2)
  | _ => raise AttributeError
  end ;;;
  ret inst.

(** [Model.delete(cls, instance, auth=None)] (core.py 387-392). *)
Definition delete (rec : Ops) (cls : nat) (inst : value) (auth : option value)
    : M bool :=
  auth <- normalize_auth cls inst auth ;;
  r <- assert_class_instance cls inst ;;
  path <- prop rec r "_current_path" (_current_path rec r) string_of ;;
  _ <- _rest_call rec cls path "DELETE" true (mkKwargs (Some auth) None) ;;
  ret true.

(** *** Tying the recursion *)

Definition ops_bot : Ops :=
  mkOps (fun _ _ _ _ _ => Timeout) (fun _ _ => Timeout) (fun _ _ => Timeout)
        (fun _ => Timeout) (fun _ _ => Timeout).

Definition ops_step (rec : Ops) : Ops :=
  mkOps (_rest_call rec) (getattr rec) (__getattr__ rec) (_current_path rec)
        (__eq__ rec).

(** The callees with [fuel] nested calls left. *)
Fixpoint ops (fuel : nat) : Ops :=
  match fuel with
  | O => ops_bot
  | S n => ops_step (ops n)
  end.

End WithEnv.

(** * Statements *)

(** ** Pagination *)

Section PaginationDefs.
Variable E : Env.
Variable cls : nat.
Variable kwargs : Kwargs.

(** The request [_rest_call] hands to the transport for [url]. *)
Definition issued (method url : string) : Request :=
  mkRequest (lower method) (urljoin E (c_url_base (classes E cls)) url) kwargs.

(** One page of a collection: where it is requested and the sequence its
    body parses to. *)
Record page := mkPage { pg_url : string; pg_items : list value }.

(** The transport, having seen [l], answers the request for page [p] with
    a success status and a body that parses to the items of [p]. *)
Definition answers (l : list Request) (method : string) (p : page)
    (resp : Response) : Prop :=
  transport E l (issued method (pg_url p)) = inr resp /\
  success resp = true /\
  text resp <> EmptyString /\
  c_parser (classes E cls) (text resp) = inr (VList (pg_items p)).

Definition no_continuation (resp : Response) : Prop :=
  c_continuator (classes E cls) resp = None \/
  c_continuator (classes E cls) resp = Some EmptyString.

(** [pages l method ps]: starting after the requests [l], the server
    serves the pages [ps] in this order, each answer but the last
    naming the next page. *)
Inductive pages : list Request -> string -> list page -> Prop :=
| pages_last l method p resp :
    answers l method p resp ->
    no_continuation resp ->
    pages l method [p]
| pages_more l method p resp q ps :
    answers l method p resp ->
    c_continuator (classes E cls) resp = Some (pg_url q) ->
    pg_url q <> EmptyString ->
    pages (l ++ [issued method (pg_url p)]) "GET" (q :: ps) ->
    pages l method (p :: q :: ps).

Definition page_requests (method : string) (ps : list page) : list Request :=
  match ps with
  | [] => []
  | p :: ps' =>
      issued method (pg_url p) :: ((fun q => issued "GET" (pg_url q)) <$> ps')
  end.

Definition all_items (ps : list page) : list value :=
  concat (pg_items <$> ps).

(** What the one-page mode returns for the first of [ps]. *)
Definition first_page (ps : list page) : value * option string :=
  match ps with
  | [] => (VNone, None)
  | [p] => (VList (pg_items p), None)
  | p :: q :: _ => (VList (pg_items p), Some (pg_url q))
  end.

End PaginationDefs.

(** ** A small API for the examples *)

Definition header (name : string) (resp : Response) : option string :=
  snd <$> head (filter (fun kv => kv.1 = name) (resp_headers resp)).

Definition sha (s : string) : value := VDict [("sha", VStr s)].

(** The wire parser of the examples, on the few bodies their server
    sends. *)
Definition demo_parser (body : string) : exn + value :=
  if String.eqb body "[a]" then inr (VList [sha "a"])
  else if String.eqb body "[b]" then inr (VList [sha "b"])
  else if String.eqb body "{id,name}" then
    inr (VDict [("id", VStr "42"); ("name", VStr "x")])
  else if String.eqb body "{name}" then inr (VDict [("name", VStr "x")])
  else if String.eqb body "{_changed}" then
    inr (VDict [("_changed", VList [VStr "_x"])])
  else if String.eqb body "{}" then inr (VDict [])
  else inl ValueError.

Definition demo_serializer (data : gmap string value) : exn + string :=
  inr (String.concat "," (map_to_list data).*1).

Definition Commit : ModelClass :=
  mkClass "Commit" [] [] [Lit "/commits/"; Field "sha"] ["sha"] VNone None
          (header "next") demo_parser demo_serializer false.

(** A server with a two-page collection at [/commits]; whatever else is
    asked for is missing, with the given body. *)
Definition paged_transport (missing : string) (l : list Request) (req : Request)
    : exn + Response :=
  if String.eqb (rq_url req) "/commits" then
    inr (mkResponse 200 "[a]" [("next", "/commits?page=2")])
  else if String.eqb (rq_url req) "/commits?page=2" then
    inr (mkResponse 200 "[b]" [])
  else inr (mkResponse 404 missing []).

Definition paged_api (missing : string) : Env :=
  mkEnv (paged_transport missing) (fun _ url => url) (fun _ => Commit)
        (fun _ => DMany (mkMany 0 None false None)) (fun _ => "?").

Definition no_auth : Kwargs := mkKwargs (Some VNone) None.

Definition empty_world : World := mkWorld [] [] ∅.

(** ** Failed requests *)

(** The exception [_rest_call] raises for the answer [resp]
    (core.py 277-279). *)
Definition server_error (resp : Response) : exn :=
  PyrestoServerResponseException
    ("Server response not OK. Response code: " +:+ format_d (status_code resp)).

(** The outcome [out] of an operation started in [w]: whenever one of the
    requests it sent was answered with a status outside 2xx, that request
    is the last one sent and the operation raised [server_error] for
    that answer. *)
Definition aborts_on_failure {A} (E : Env) (w : World) (out : Res A) : Prop :=
  exists reqs, log (world_of out) = log w ++ reqs /\
    forall i req resp,
      reqs !! i = Some req ->
      transport E (log w ++ take i reqs) req = inr resp ->
      success resp = false ->
      S i = length reqs /\ out = Raise (server_error resp) (world_of out).

(** The raised exception determines the body of the failed answer. *)
Definition ServerResponse_carries_body : Prop :=
  exists body_of : exn -> string,
    forall E rec cls url method fetch_all kwargs w resp e w',
      transport E (log w) (issued E cls kwargs method url) = inr resp ->
      success resp = false ->
      _rest_call E rec cls url method fetch_all kwargs w = Raise e w' ->
      body_of e = text resp.

(** An instance of [Commit] created locally with [sha='abc']. *)
Definition commit_abc : obj :=
  OModel 0 (<["_changed" := VSet ∅]> (<["sha" := VStr "abc"]> (<["_parent" := VNone]> ∅))).

Definition one_commit : World := mkWorld [commit_abc] [] ∅.

(** ** Relation caches *)

(** [o] is a collection wrapper built by descriptor [dsc] for owner [r]. *)
Definition is_wrapper_of (dsc r : nat) (o : option obj) : Prop :=
  match o with
  | Some (OWrappedList _ d owner) | Some (OLazyList d owner _) => d = dsc /\ owner = r
  | _ => False
  end.

(** The commits of the examples, as an eager [Many] relation. *)
Definition commits : ManyDesc := mkMany 0 (Some [Lit "/commits"]) false None.

(** ** Invariants of computations *)

(** [m] keeps the world invariant [I], whatever its outcome, and a value
    it returns satisfies [Q]. *)
Definition keeps {A} (I : World -> Prop) (m : M A) (Q : A -> Prop) : Prop :=
  forall w, I w ->
    match m w with
    | Ok a w' => I w' /\ Q a
    | Raise _ w' | Timeout w' => I w'
    end.

Definition any {A} : A -> Prop := fun _ => True.

(** The heap and the relation caches are those of [w0]. *)
Definition same_store (w0 w : World) : Prop :=
  heap w = heap w0 /\ cache w = cache w0.

(** ** The fetched flag *)

(** The instance [r] carries [_fetched = True] in its [__dict__]. *)
Definition is_fetched (w : World) (r : nat) : Prop :=
  exists c d, heap w !! r = Some (OModel c d) /\ d !! "_fetched" = Some (VBool true).

(** A resource type [Item] with primary key [id] at [/items/{id}/], and a
    server that answers every request with status 200 and the given
    body. *)
Definition Item : ModelClass :=
  mkClass "Item" [] [] [Lit "/items/"; Field "id"; Lit "/"] ["id"] VNone None
          (fun _ => None) demo_parser demo_serializer false.

Definition item_api (body : string) : Env :=
  mkEnv (fun _ _ => inr (mkResponse 200 body [])) (fun _ url => url)
        (fun _ => Item) (fun _ => DMany (mkMany 0 None false None)) (fun _ => "?").

(** An instance of [Item] created locally with [id='42']: not fetched. *)
Definition item_42 : obj :=
  OModel 0 (<["_changed" := VSet ∅]> (<["id" := VStr "42"]> (<["_parent" := VNone]> ∅))).

Definition one_item : World := mkWorld [item_42] [] ∅.

Definition get_item_42 : Request := mkRequest "get" "/items/42/" no_auth.

(** [item_42] after its path has been computed once: the properties
    [_pk_vals] and [_footprint] have stored their results. *)
Definition item_42_seen : obj :=
  OModel 0 (<["_Model__footprint" := VDict [("id", VStr "42"); ("self", VRef 0)]]>
             (<["_Model__pk_vals" := VTuple [VStr "42"]]>
               (<["_changed" := VSet ∅]>
                 (<["id" := VStr "42"]> (<["_parent" := VNone]> ∅))))).

Definition seen_item (l : list Request) : World := mkWorld [item_42_seen] l ∅.

(** ** Attribute access *)

(** The access to [name] on [r], started in [w], ends with AttributeError
    after exactly one request and leaves the instance fetched. *)
Definition fetches_once_then_fails (E : Env) (r : nat) (name : string) (w : World)
    : Prop :=
  exists fuel w',
    __getattr__ E (ops E fuel) r name w = Raise AttributeError w'
    /\ length (log w') = S (length (log w))
    /\ is_fetched w' r.

(** ** Footprints *)

(** Reading [args] yields an instance whose footprint binds every
    primary-key field to the value [read] was given for it. *)
Definition footprint_has_bound_keys (E : Env) (fuel cls : nat) (args : list value)
    (w : World) : Prop :=
  forall r w1 fp w2,
    read E (ops E fuel) cls args None None w = Ok (VRef r) w1 ->
    _footprint E (ops E fuel) r w1 = Ok fp w2 ->
    forall k v, (k, v) ∈ zip (c_pk (classes E cls)) args ->
                (store_update ∅ fp : gmap string value) !! k = Some v.

(** A resource type with the composite primary key [(owner, id)]. *)
Definition Repo : ModelClass :=
  mkClass "Repo" [] [] [Lit "/repos/"; Field "owner"; Lit "/"; Field "id"]
          ["owner"; "id"] VNone None (fun _ => None) demo_parser demo_serializer
          false.

Definition repo_api : Env :=
  mkEnv (fun _ _ => inr (mkResponse 200 "{name}" [])) (fun _ url => url)
        (fun _ => Repo) (fun _ => DMany (mkMany 0 None false None)) (fun _ => "?").

(** ** Equality *)

Definition class_of (w : World) (r : nat) : option nat :=
  match heap w !! r with
  | Some (OModel c _) => Some c
  | _ => None
  end.

Definition is_instance_ref (v : value) : bool :=
  match v with VRef _ => true | _ => false end.

(** [SpecialItem] inherits from [Item]. *)
Definition SpecialItem : ModelClass :=
  mkClass "SpecialItem" [0%nat] [] [Lit "/items/"; Field "id"; Lit "/"] ["id"]
          VNone None (fun _ => None) demo_parser demo_serializer false.

Definition shop_api : Env :=
  mkEnv (fun _ _ => inr (mkResponse 200 "{name}" [])) (fun _ url => url)
        (fun c => match c with 1%nat => SpecialItem | _ => Item end)
        (fun _ => DMany (mkMany 0 None false None)) (fun _ => "?").

(** An [Item] and a [SpecialItem], both with [id='42']. *)
Definition special_42 : obj :=
  OModel 1 (<["_changed" := VSet ∅]> (<["id" := VStr "42"]> (<["_parent" := VNone]> ∅))).

Definition two_items : World := mkWorld [item_42; special_42] [] ∅.

(** ** Foreign relations *)

(** A [Book] refers to its author by key ([author], and [writer] whose
    target class binds [get]) and embeds its publisher. *)
Definition Book : ModelClass :=
  mkClass "Book" []
          [("author", CRelation 0); ("publisher", CRelation 1); ("writer", CRelation 2)]
          [Lit "/books/"; Field "id"] ["id"] VNone None
          (fun _ => None) demo_parser demo_serializer false.

Definition Author : ModelClass :=
  mkClass "Author" [] [] [Lit "/authors/"; Field "id"] ["id"] VNone None
          (fun _ => None) demo_parser demo_serializer false.

Definition Publisher : ModelClass :=
  mkClass "Publisher" [] [] [Lit "/publishers/"; Field "id"] ["id"] VNone None
          (fun _ => None) demo_parser demo_serializer false.

(** Like [Author], with [get] bound to [read]. *)
Definition Writer : ModelClass :=
  mkClass "Writer" [] [] [Lit "/authors/"; Field "id"] ["id"] VNone None
          (fun _ => None) demo_parser demo_serializer true.

Definition library : Env :=
  mkEnv (fun _ _ => inr (mkResponse 200 "{name}" [])) (fun _ url => url)
        (fun c => match c with
                  | 1%nat => Author | 2%nat => Publisher | 3%nat => Writer
                  | _ => Book
                  end)
        (fun d => match d with
                  | 0%nat => DForeign (mkForeign 1 (Some "author_id") None false)
                  | 1%nat => DForeign (mkForeign 2 (Some "publisher_doc") None true)
                  | _ => DForeign (mkForeign 3 (Some "author_id") None false)
                  end)
        (fun _ => "?").

Definition a_book : obj :=
  OModel 0 (<["_changed" := VSet ∅]>
             (<["_auth" := VAuth 1]>
               (<["publisher_doc" := VDict [("name", VStr "x")]]>
                 (<["author_id" := VStr "7"]>
                   (<["id" := VStr "1"]> (<["_parent" := VNone]> ∅)))))).

Definition one_book : World := mkWorld [a_book] [] ∅.

(** ** PATCH updates *)

(** The keys [update_with_patch] sends: the caller's set, when it is a
    non-empty set, intersected with the changed names; all the changed
    names when the caller gives none. *)
Definition patch_keys (keys : value) (changed : gset string) : gset string :=
  match keys with
  | VSet k => if bool_decide (k = ∅) then changed else k ∩ changed
  | _ => changed
  end.

(** The part of a store under the names [sel]. *)
Definition restrict (sel : gset string) (d : gmap string value) : gmap string value :=
  filter (fun kv => kv.1 ∈ sel) d.

(** An [Item] with two locally changed fields: its store, the store
    after its path has been computed, and the instance. *)
Definition edited_store : gmap string value :=
  <["_changed" := VSet {["name"; "color"]}]>
    (<["color" := VStr "red"]>
      (<["name" := VStr "y"]>
        (<["id" := VStr "42"]> (<["_parent" := VNone]> ∅)))).

Definition edited_store_seen : gmap string value :=
  <["_Model__footprint" := VDict [("id", VStr "42"); ("self", VRef 0)]]>
    (<["_Model__pk_vals" := VTuple [VStr "42"]]> edited_store).

Definition edited_item : obj := OModel 0 edited_store.

Definition patch_name : Request :=
  mkRequest "patch" "/items/42/" (mkKwargs (Some VNone) (Some "name")).

Definition one_edited_item : World := mkWorld [edited_item] [] ∅.

(** ** The changed names *)

(** The store holds a set of changed names, none of them reserved. *)
Definition clean (d : gmap string value) : Prop :=
  exists s : gset string,
    d !! "_changed" = Some (VSet s)
    /\ forall k, k ∈ s -> startswith_underscore k = false.

Definition all_clean (w : World) : Prop :=
  forall r c d, heap w !! r = Some (OModel c d) -> clean d.

(** Whatever sits under [_changed] yields a reserved name when it is
    iterated. *)
Definition reserved_in_changed (d : gmap string value) : Prop :=
  exists l k, py_iter (default VNone (d !! "_changed")) = inr l
              /\ VStr k ∈ l /\ startswith_underscore k = true.

(** Merging [data] into a store does not write the key [_changed]. *)
Definition payload_ok (data : value) : Prop :=
  forall items, update_items data = inr items -> "_changed" ∉ items.*1.

(** The operations a client performs on the resource graph. *)
Inductive op :=
| OpGet (r : nat) (name : string)
| OpSet (r : nat) (key : string) (v : value)
| OpDel (r : nat) (item : string)
| OpNew (cls : nat) (parent : option value) (kwargs : list (string * value))
| OpRead (cls : nat) (args : list value) (parent auth : option value)
| OpPatch (cls : nat) (inst keys : value) (auth : option value)
| OpPut (cls : nat) (inst : value) (auth : option value)
| OpDelete (cls : nat) (inst : value) (auth : option value)
| OpEq (r : nat) (other : value).

(** The world after the operation, run with [fuel] nested calls. *)
Definition run (E : Env) (fuel : nat) (o : op) (w : World) : World :=
  let rec := ops E fuel in
  match o with
  | OpGet r name => world_of (getattr E rec r name w)
  | OpSet r key v => world_of (__setattr__ E r key v w)
  | OpDel r item => world_of (__delattr__ r item w)
  | OpNew cls parent kwargs => world_of (new E cls parent kwargs w)
  | OpRead cls args parent auth => world_of (read E rec cls args parent auth w)
  | OpPatch cls inst keys auth => world_of (update_with_patch E rec cls inst keys auth w)
  | OpPut cls inst auth => world_of (update_with_put E rec cls inst auth w)
  | OpDelete cls inst auth => world_of (delete E rec cls inst auth w)
  | OpEq r other => world_of (py_eq E rec (VRef r) other w)
  end.

Definition run_all (E : Env) (os : list (nat * op)) (w : World) : World :=
  foldl (fun w o => run E o.1 o.2 w) w os.

(** The operation assigns [_changed] itself, or the whole store
    [__dict__] that holds it. *)
Definition assigns_changed (o : op) : bool :=
  match o with
  | OpSet _ key _ => String.eqb key "_changed" || String.eqb key "__dict__"
  | _ => false
  end.

(** After the operations [os], no instance holds a reserved name among
    its changed names. *)
Definition changed_never_reserved (E : Env) (w : World) (os : list (nat * op))
    : Prop :=
  forall r c d, heap (run_all E os w) !! r = Some (OModel c d) ->
                ~ reserved_in_changed d.


(** No answer of the server parses to a payload with the key [_changed]. *)
Definition answers_ok (E : Env) : Prop :=
  forall l req resp cls data,
    transport E l req = inr resp ->
    c_parser (classes E cls) (text resp) = inr data -> payload_ok data.

(** The key extractors given to [Foreign] keep the changed names clean. *)
Definition extractors_ok (E : Env) : Prop :=
  forall dsc f g r,
    descriptors E dsc = DForeign f -> f_key_extractor f = Some g ->
    keeps all_clean (g r) any.

(** The callees keep the changed names clean, and the payload a request
    returns does not write [_changed]. *)
Definition callees_keep (rec : Ops) : Prop :=
  (forall cls url method fa kw,
      keeps all_clean (o_rest_call rec cls url method fa kw)
            (fun res => payload_ok res.1))
  /\ (forall r name, keeps all_clean (o_getattr rec r name) any)
  /\ (forall r name, keeps all_clean (o_hook rec r name) any)
  /\ (forall r, keeps all_clean (o_current_path rec r) any)
  /\ (forall r v, keeps all_clean (o_eq rec r v) any).

Definition is_string (v : value) : Prop := exists s, v = VStr s.

(** Storing [v] under [key] keeps the changed names a set of names that
    are not reserved. *)
Definition storable (key : string) (v : value) : Prop :=
  (key = "_changed" ->
   exists s : gset string,
     v = VSet s /\ forall k, k ∈ s -> startswith_underscore k = false)
  /\ (key = "__dict__" -> forall kvs, v = VDict kvs -> clean (store_update ∅ kvs)).

(** ** Further properties of the code *)

(** The computation ended without a result: with an exception, or at the
    nesting bound. *)
Definition no_result {A} (r : Res A) : Prop :=
  match r with Ok _ _ => False | _ => True end.

(** [w] differs from [w0] by requests added to the log, at most. *)
Definition only_logs (w0 w : World) : Prop :=
  heap w = heap w0 /\ cache w = cache w0 /\ log w0 `prefix_of` log w.

(** A resource type with class-level credentials and no attribute
    [auth]. *)
Definition Vault : ModelClass :=
  mkClass "Vault" [] [] [Lit "/vault/"; Field "id"] ["id"] (VAuth 1) None
          (fun _ => None) demo_parser demo_serializer false.

Definition vault_api : Env :=
  mkEnv (fun _ _ => inr (mkResponse 200 "{}" [])) (fun _ url => url)
        (fun _ => Vault) (fun _ => DMany (mkMany 0 None false None)) (fun _ => "?").

(** A server whose every answer has the given body and names a next
    page. *)
Definition endless_api (body : string) : Env :=
  mkEnv (fun _ _ => inr (mkResponse 200 body [("next", "/more")]))
        (fun _ url => url) (fun _ => Commit)
        (fun _ => DMany (mkMany 0 None false None)) (fun _ => "?").

(** A resource type whose class body binds a plain attribute [kind]. *)
Definition Tagged : ModelClass :=
  mkClass "Tagged" [] [("kind", CVal (VStr "tag"))] [Lit "/tagged/"; Field "id"] ["id"]
          VNone None (fun _ => None) demo_parser demo_serializer false.

Definition tag_api : Env :=
  mkEnv (fun _ _ => inr (mkResponse 200 "{}" [])) (fun _ url => url)
        (fun _ => Tagged) (fun _ => DMany (mkMany 0 None false None)) (fun _ => "?").

(** A value that admits no weak reference: None, a number, a string, a
    tuple, a list, a dict. *)
Definition no_weakref (v : value) : bool :=
  match v with
  | VNone | VBool _ | VInt _ | VStr _ | VList _ | VDict _ | VTuple _ => true
  | _ => false
  end.

(** The binding of [name] in the class body of [C]. *)
Definition class_body (C : ModelClass) (name : string) : option cattr :=
  (list_to_map (c_dict C) : gmap string cattr) !! name.

(** A [Shelf] refers to its owner with the defaults of [Foreign]: no key
    property, no key extractor, not embedded; the target class binds
    [get]. *)
Definition Shelf : ModelClass :=
  mkClass "Shelf" [] [("owner", CRelation 0)] [Lit "/shelves/"; Field "id"] ["id"]
          VNone None (fun _ => None) demo_parser demo_serializer false.

Definition shelves : Env :=
  mkEnv (fun _ _ => inr (mkResponse 200 "{name}" [])) (fun _ url => url)
        (fun c => match c with 1%nat => Writer | _ => Shelf end)
        (fun _ => DForeign (mkForeign 1 None None false))
        (fun _ => "?").

Definition a_shelf : obj :=
  OModel 0 (<["_changed" := VSet ∅]>
             (<["__writer" := VStr "7"]>
               (<["id" := VStr "1"]> (<["_parent" := VNone]> ∅)))).

Definition one_shelf : World := mkWorld [a_shelf] [] ∅.

(** Every character of [s] is a word character ([\w]). *)
Fixpoint all_word (s : string) : bool :=
  match s with
  | EmptyString => true
  | String a s' => is_word a && all_word s'
  end.

(** ** Wrapped lists (relations.py 7-52, 118-140) *)

(** The function [Many._with_owner(owner)] returns (relations.py
    130-138). *)
Definition mapper (E : Env) (m : ManyDesc) (owner : nat) (data : value) : M value :=
  match data with
  | VDict kvs =>
      r <- new E (m_model m) None kvs ;;
      __setattr__ E r "_pyresto_owner" (VRef owner) ;;;
      ret (VRef r)
  | _ =>
      h <- get_heap ;;
      if isinstance E h data (m_model m) then ret data else raise TypeError
  end.

(** The wrapper of a [WrappedList]: wrapped lists are created by [Many]
    descriptors only. *)
Definition wrapper (E : Env) (dsc owner : nat) (data : value) : M value :=
  match descriptors E dsc with
  | DMany m => mapper E m owner data
  | DForeign _ => raise TypeError
  end.

(** The position an integer index denotes in a list of [n] elements. *)
Definition py_index (n : nat) (key : Z) : option nat :=
  if 0 <=? key then
    if key <? Z.of_nat n then Some (Z.to_nat key) else None
  else if - Z.of_nat n <=? key then Some (Z.to_nat (Z.of_nat n + key))
  else None.

Definition wrapped_list (l : nat) : M (list value * nat * nat) :=
  fun w => match heap w !! l with
           | Some (OWrappedList items dsc owner) => Ok (items, dsc, owner) w
           | _ => Raise TypeError w
           end.

(** [list.__getitem__] and [list.__setitem__] with an integer index. *)
Definition list_getitem (items : list value) (key : Z) : exn + value :=
  match py_index (length items) key with
  | Some i => match items !! i with Some x => inr x | None => inl IndexError end
  | None => inl IndexError
  end.

Definition list_setitem (l : nat) (key : Z) (v : value) : M unit :=
  fun w => match heap w !! l with
           | Some (OWrappedList items dsc owner) =>
               match py_index (length items) key with
               | Some i =>
                   Ok tt (set_heap (<[l := OWrappedList (<[i := v]> items) dsc owner]>
                                      (heap w)) w)
               | None => Raise IndexError w
               end
           | _ => Raise TypeError w
           end.

(** [WrappedList.__getitem__] (relations.py 19-32) with an integer
    index; slices are not covered. *)
Definition WrappedList_getitem (E : Env) (l : nat) (key : Z) : M value :=
  lst <- wrapped_list l ;;
  item <- lift (list_getitem lst.1.1 key) ;;
  match item with
  | VDict _ =>
      item <- wrapper E lst.1.2 lst.2 item ;;
      list_setitem l key item ;;;
      ret item
  | _ => ret item
  end.

Fixpoint wrap_all (f : value -> M value) (items : list value) : M (list value) :=
  match items with
  | [] => ret []
  | x :: rest =>
      v <- f x ;;
      vs <- wrap_all f rest ;;
      ret (v :: vs)
  end.

(** A full pass over [WrappedList.__iter__] (relations.py 42-46), as
    [list(wl)] makes it. *)
Definition WrappedList_iter (E : Env) (l : nat) : M (list value) :=
  lst <- wrapped_list l ;;
  wrap_all (wrapper E lst.1.2 lst.2) lst.1.1.

Definition is_dict (v : value) : Prop := exists kvs, v = VDict kvs.

(** Neither a mapping nor a reference to an object. *)
Definition is_plain (v : value) : bool :=
  match v with
  | VDict _ | VRef _ => false
  | _ => true
  end.

(** A list of three commits as the server sent them, owned by
    [commit_abc] through the relation [7]. *)
Definition three_raw : World :=
  mkWorld [commit_abc; OWrappedList [sha "a"; VInt 5; sha "c"] 7 0] [] ∅.

Definition two_raw : World :=
  mkWorld [commit_abc; OWrappedList [sha "a"; sha "b"] 7 0] [] ∅.

(** The relation caches and the requests sent are those of [w0]. *)
Definition quiet (w0 w : World) : Prop := cache w = cache w0 /\ log w = log w0.
(** * Properties *)

(** ** Stepping through computations *)

(** Discharges the premises of [H] that hold by evaluation. *)
Ltac evaluate_premises H :=
  repeat match type of H with
         | ?P -> _ =>
             let HP := fresh in
             assert (HP : P)
               by first [ vm_compute; reflexivity
                        | reflexivity
                        | apply (bool_decide_unpack _); vm_compute; exact I ];
             specialize (H HP); clear HP
         end.

Lemma bind_Ok {A B} (m : M A) (k : A -> M B) w a w' :
  m w = Ok a w' -> bind m k w = k a w'.
Proof. intros H. unfold bind. by rewrite H. Qed.

Lemma bind_Raise {A B} (m : M A) (k : A -> M B) w e w' :
  m w = Raise e w' -> bind m k w = Raise e w'.
Proof. intros H. unfold bind. by rewrite H. Qed.

Lemma bind_Timeout {A B} (m : M A) (k : A -> M B) w w' :
  m w = Timeout w' -> bind m k w = Timeout w'.
Proof. intros H. unfold bind. by rewrite H. Qed.

Lemma bind_ret {A B} (a : A) (k : A -> M B) w : bind (ret a) k w = k a w.
Proof. reflexivity. Qed.

Lemma bind_Ok_inv {A B} (m : M A) (k : A -> M B) w b w' :
  bind m k w = Ok b w' -> exists a w1, m w = Ok a w1 /\ k a w1 = Ok b w'.
Proof.
  unfold bind. destruct (m w) as [a w1|e w1|w1] eqn:Hm; try discriminate.
  intros H. by exists a, w1.
Qed.

Lemma ops_S E fuel : ops E (S fuel) = ops_step E (ops E fuel).
Proof. reflexivity. Qed.

Lemma eqb_empty_false s : s <> EmptyString -> String.eqb s EmptyString = false.
Proof. intros H. by apply String.eqb_neq. Qed.

(** ** Pagination ([_rest_call]) *)

Section Pagination.
Variable E : Env.
Variable cls : nat.
Variable kwargs : Kwargs.

Hypothesis auth_given :
  c_auth (classes E cls) = VNone \/ is_Some (kw_auth kwargs).

Lemma inject_auth_given w : inject_auth E cls kwargs w = Ok kwargs w.
Proof.
  unfold inject_auth.
  destruct auth_given as [-> | [a ->]]; [done|].
  by destruct (c_auth (classes E cls)).
Qed.

Lemma GET_allowed : bool_decide ("GET" ∈ ALLOWED_HTTP_METHODS) = true.
Proof. by vm_compute. Qed.

Lemma rest_call_fetch_all l method ps :
  pages E cls kwargs l method ps ->
  bool_decide (method ∈ ALLOWED_HTTP_METHODS) = true ->
  forall fuel w, log w = l -> (length ps <= S fuel)%nat ->
  _rest_call E (ops E fuel) cls (pg_url (default (mkPage EmptyString []) (head ps)))
             method true kwargs w
  = Ok (VList (all_items ps), None) (set_log (l ++ page_requests E cls kwargs method ps) w).
Proof.
  induction 1 as [l method p resp (Ht & Hs & Hn & Hp) Hc
                 |l method p resp q ps (Ht & Hs & Hn & Hp) Hc Hq Hps IH];
    intros Hm fuel w Hl Hfuel; simpl head; simpl default.
  - unfold _rest_call. rewrite (bind_Ok _ _ _ _ _ (inject_auth_given w)).
    rewrite Hm. unfold request. fold (issued E cls kwargs method (pg_url p)).
    unfold bind at 1. rewrite Hl, Ht, Hs.
    rewrite (eqb_empty_false _ Hn). unfold bind at 1. rewrite Hp. simpl.
    unfold all_items. simpl. rewrite app_nil_r.
    destruct Hc as [-> | ->]; reflexivity.
  - destruct fuel as [|fuel]; [simpl in Hfuel; lia|].
    unfold _rest_call. rewrite (bind_Ok _ _ _ _ _ (inject_auth_given w)).
    rewrite Hm. unfold request. fold (issued E cls kwargs method (pg_url p)).
    unfold bind at 1. rewrite Hl, Ht, Hs.
    rewrite (eqb_empty_false _ Hn). unfold bind at 1. rewrite Hp. simpl lift.
    unfold ret at 1. rewrite Hc, (eqb_empty_false _ Hq).
    rewrite ops_S. simpl o_rest_call.
    specialize (IH GET_allowed fuel (set_log (l ++ [issued E cls kwargs method (pg_url p)]) w)
                  eq_refl ltac:(simpl in *; lia)).
    simpl head in IH. simpl default in IH.
    rewrite (bind_Ok _ _ _ _ _ IH). simpl.
    unfold ret, set_log. simpl. unfold all_items. simpl.
    by rewrite <- app_assoc.
Qed.

Lemma rest_call_one_page l method ps :
  pages E cls kwargs l method ps ->
  bool_decide (method ∈ ALLOWED_HTTP_METHODS) = true ->
  forall rec w, log w = l ->
  _rest_call E rec cls (pg_url (default (mkPage EmptyString []) (head ps)))
             method false kwargs w
  = Ok (first_page ps) (set_log (l ++ take 1 (page_requests E cls kwargs method ps)) w).
Proof.
  destruct 1 as [l method p resp (Ht & Hs & Hn & Hp) Hc
                |l method p resp q ps (Ht & Hs & Hn & Hp) Hc Hq Hps];
    intros Hm rec w Hl; simpl head; simpl default.
  - unfold _rest_call. rewrite (bind_Ok _ _ _ _ _ (inject_auth_given w)).
    rewrite Hm. unfold request. fold (issued E cls kwargs method (pg_url p)).
    unfold bind at 1. rewrite Hl, Ht, Hs.
    rewrite (eqb_empty_false _ Hn). unfold bind at 1. rewrite Hp. simpl.
    destruct Hc as [-> | ->]; reflexivity.
  - unfold _rest_call. rewrite (bind_Ok _ _ _ _ _ (inject_auth_given w)).
    rewrite Hm. unfold request. fold (issued E cls kwargs method (pg_url p)).
    unfold bind at 1. rewrite Hl, Ht, Hs.
    rewrite (eqb_empty_false _ Hn). unfold bind at 1. rewrite Hp. simpl lift.
    unfold ret at 1. rewrite Hc, (eqb_empty_false _ Hq). reflexivity.
Qed.

End Pagination.

(** C2.  When the server serves the pages [p :: ps] of a collection, each
    body parsing to a sequence and each answer but the last naming the
    next page, [_rest_call] with [fetch_all=True] returns the items of all
    pages concatenated in page order, with no continuation, after one
    request per page; with [fetch_all=False] it returns the items of
    the first page alone, together with the locator of the second page
    (None when there is none), after a single request. *)
Theorem rest_call_pagination E cls kwargs l method p ps :
  c_auth (classes E cls) = VNone \/ is_Some (kw_auth kwargs) ->
  method ∈ ALLOWED_HTTP_METHODS ->
  pages E cls kwargs l method (p :: ps) ->
  forall fuel w, log w = l -> (length ps <= fuel)%nat ->
    _rest_call E (ops E fuel) cls (pg_url p) method true kwargs w
    = Ok (VList (all_items (p :: ps)), None)
         (set_log (l ++ page_requests E cls kwargs method (p :: ps)) w)
    /\
    _rest_call E (ops E fuel) cls (pg_url p) method false kwargs w
    = Ok (first_page (p :: ps))
         (set_log (l ++ [issued E cls kwargs method (pg_url p)]) w).
Proof.
  intros Hauth Hm Hps fuel w Hl Hfuel.
  assert (Hm' : bool_decide (method ∈ ALLOWED_HTTP_METHODS) = true)
    by (by apply bool_decide_eq_true_2).
  split.
  - apply (rest_call_fetch_all E cls kwargs Hauth l method (p :: ps) Hps Hm');
      [done | simpl; lia].
  - apply (rest_call_one_page E cls kwargs Hauth l method (p :: ps) Hps Hm').
    done.
Qed.

Lemma rest_call_pagination_witness :
  _rest_call (paged_api "") (ops (paged_api "") 1) 0 "/commits" "GET" true
             no_auth empty_world
  = Ok (VList [sha "a"; sha "b"], None)
       (mkWorld [] [mkRequest "get" "/commits" no_auth;
                    mkRequest "get" "/commits?page=2" no_auth] ∅)
  /\
  _rest_call (paged_api "") (ops (paged_api "") 1) 0 "/commits" "GET" false
             no_auth empty_world
  = Ok (VList [sha "a"], Some "/commits?page=2")
       (mkWorld [] [mkRequest "get" "/commits" no_auth] ∅).
Proof.
  apply (rest_call_pagination (paged_api "") 0 no_auth [] "GET"
           (mkPage "/commits" [sha "a"]) [mkPage "/commits?page=2" [sha "b"]]).
  - left. reflexivity.
  - apply (bool_decide_unpack _). vm_compute. exact I.
  - eapply pages_more with (resp := mkResponse 200 "[a]" [("next", "/commits?page=2")]).
    + repeat split; try reflexivity. discriminate.
    + reflexivity.
    + discriminate.
    + eapply pages_last with (resp := mkResponse 200 "[b]" []).
      * repeat split; try reflexivity. discriminate.
      * left. reflexivity.
  - reflexivity.
  - simpl. lia.
Defined.

(** ** Failed requests *)

Lemma inject_auth_cases E cls kw w :
  (exists kw', inject_auth E cls kw w = Ok kw' w)
  \/ inject_auth E cls kw w = Raise AttributeError w.
Proof.
  unfold inject_auth.
  destruct (c_auth (classes E cls)), (kw_auth kw);
    try (left; eexists; reflexivity);
    destruct (class_lookup E cls "auth") as [[]|];
    try (left; eexists; reflexivity); by right.
Qed.

Lemma aborts_none {A} E w (out : Res A) :
  world_of out = w -> aborts_on_failure E w out.
Proof.
  intros H. exists []. rewrite H, app_nil_r. split; [done|].
  intros i req resp Hi. by destruct i.
Qed.

Lemma aborts_one {A} E w (out : Res A) req :
  log (world_of out) = log w ++ [req] ->
  (forall resp, transport E (log w) req = inr resp -> success resp = false ->
                out = Raise (server_error resp) (world_of out)) ->
  aborts_on_failure E w out.
Proof.
  intros Hlog H. exists [req]. split; [done|].
  intros i r resp Hi Ht Hs. destruct i as [|i]; [|by destruct i].
  simpl in Hi. injection Hi as <-. simpl in Ht. rewrite app_nil_r in Ht.
  split; [done|]. by apply H.
Qed.

Lemma aborts_more {A B} E w w1 req resp0 (out' : Res A) (out : Res B) :
  log w1 = log w ++ [req] ->
  transport E (log w) req = inr resp0 -> success resp0 = true ->
  aborts_on_failure E w1 out' ->
  world_of out = world_of out' ->
  (forall e, out' = Raise e (world_of out') -> out = Raise e (world_of out)) ->
  aborts_on_failure E w out.
Proof.
  intros Hlog Ht0 Hs0 (reqs & Hreqs & H) Hw Hraise.
  exists (req :: reqs). split.
  - rewrite Hw, Hreqs, Hlog, <- app_assoc. done.
  - intros i r resp Hi Ht Hs. destruct i as [|i]; simpl in *.
    + injection Hi as <-. rewrite app_nil_r in Ht. congruence.
    + destruct (H i r resp Hi) as [Hlen Hout]; [|done|].
      * rewrite Hlog, <- app_assoc. exact Ht.
      * split; [by rewrite Hlen|]. apply Hraise in Hout. exact Hout.
Qed.

Lemma aborts_bind_after {A B} E w w1 req resp0 (m : M A) (k : A -> M B) :
  log w1 = log w ++ [req] ->
  transport E (log w) req = inr resp0 -> success resp0 = true ->
  aborts_on_failure E w1 (m w1) ->
  (forall a w2, world_of (k a w2) = w2) ->
  aborts_on_failure E w (bind m k w1).
Proof.
  intros Hlog Ht Hs Hm Hk.
  eapply (aborts_more E w w1 req resp0 (m w1)); try done.
  - unfold bind. destruct (m w1) as [a w2|e w2|w2]; simpl; done.
  - intros e He. unfold bind. by rewrite He.
Qed.

Lemma rest_call_aborts_step E rec :
  (forall cls url method fa kw w,
      aborts_on_failure E w (o_rest_call rec cls url method fa kw w)) ->
  forall cls url method fa kw w,
    aborts_on_failure E w (_rest_call E rec cls url method fa kw w).
Proof.
  intros IH cls url method fa kw w. unfold _rest_call.
  destruct (inject_auth_cases E cls kw w) as [[kw' H]|H].
  2: { rewrite (bind_Raise _ _ _ _ _ H). by apply aborts_none. }
  rewrite (bind_Ok _ _ _ _ _ H).
  destruct (bool_decide (method ∈ ALLOWED_HTTP_METHODS)); [|by apply aborts_none].
  set (req := mkRequest _ _ kw').
  unfold bind at 1, request.
  destruct (transport E (log w) req) as [e|resp] eqn:Ht.
  { eapply aborts_one; [reflexivity|]. intros resp' Hr. congruence. }
  destruct (success resp) eqn:Hs.
  2: { eapply aborts_one; [reflexivity|]. intros resp' Hr _.
       rewrite Ht in Hr. by injection Hr as <-. }
  set (w1 := set_log (log w ++ [req]) w).
  assert (Hone : forall out : Res (value * option string),
             world_of out = w1 -> aborts_on_failure E w out).
  { intros out Hw. eapply aborts_one; [by rewrite Hw|].
    intros resp' Hr Hs'. rewrite Ht in Hr. injection Hr as <-. congruence. }
  unfold bind at 1.
  destruct (String.eqb (text resp) EmptyString).
  - unfold ret at 1.
    destruct (c_continuator (classes E cls) resp) as [next|];
      [|by apply Hone].
    destruct (String.eqb next EmptyString); [by apply Hone|].
    destruct fa; [|by apply Hone].
    eapply (aborts_bind_after E w w1 req resp); [done|done|done|apply IH|].
    intros [m c] w2. unfold bind. simpl. done.
  - destruct (c_parser (classes E cls) (text resp)) as [e|data];
      [by apply Hone|].
    simpl lift. unfold ret at 1.
    destruct (c_continuator (classes E cls) resp) as [next|];
      [|by apply Hone].
    destruct (String.eqb next EmptyString); [by apply Hone|].
    destruct fa; [|by apply Hone].
    eapply (aborts_bind_after E w w1 req resp); [done|done|done|apply IH|].
    intros [m c] w2. unfold bind. simpl.
    by match goal with |- context [py_iadd ?a ?b] => destruct (py_iadd a b) end.
Qed.

Lemma rest_call_aborts E fuel cls url method fa kw w :
  aborts_on_failure E w (_rest_call E (ops E fuel) cls url method fa kw w).
Proof.
  revert cls url method fa kw w. induction fuel as [|fuel IH]; intros.
  - apply rest_call_aborts_step. intros. by apply aborts_none.
  - apply rest_call_aborts_step. intros. rewrite ops_S. apply IH.
Qed.

Lemma aborts_bind {A B} E w (m : M A) (k : A -> M B) :
  aborts_on_failure E w (m w) ->
  (forall a w2, world_of (k a w2) = w2) ->
  aborts_on_failure E w (bind m k w).
Proof.
  intros (reqs & Hlog & H) Hk. exists reqs.
  assert (Hw : world_of (bind m k w) = world_of (m w)).
  { unfold bind. destruct (m w); simpl; done. }
  split; [by rewrite Hw|].
  intros i req resp Hi Ht Hs. destruct (H i req resp Hi Ht Hs) as [Hlen Hout].
  split; [done|]. unfold bind. rewrite Hout. simpl. done.
Qed.

Lemma delete_aborts E fuel cls inst auth w a r path w1 :
  normalize_auth E cls inst auth w = Ok a w ->
  assert_class_instance E cls inst w = Ok r w ->
  prop (ops E fuel) r "_current_path" (_current_path E (ops E fuel) r) string_of w
    = Ok path w1 ->
  aborts_on_failure E w1 (delete E (ops E fuel) cls inst auth w).
Proof.
  intros Ha Hr Hp. unfold delete.
  rewrite (bind_Ok _ _ _ _ _ Ha), (bind_Ok _ _ _ _ _ Hr), (bind_Ok _ _ _ _ _ Hp).
  apply aborts_bind; [apply rest_call_aborts|done].
Qed.

(** C6, as stated, fails: two answers with the same status and different
    bodies make [_rest_call] raise the very same exception, so the
    exception cannot carry the body. *)
Lemma ServerResponse_does_not_carry_body : ~ ServerResponse_carries_body.
Proof.
  intros [body_of H].
  pose proof (H (paged_api "a") ops_bot 0%nat "/nowhere" "GET" true no_auth
                empty_world (mkResponse 404 "a" []) _ _
                eq_refl eq_refl eq_refl) as Ha.
  pose proof (H (paged_api "b") ops_bot 0%nat "/nowhere" "GET" true no_auth
                empty_world (mkResponse 404 "b" []) _ _
                eq_refl eq_refl eq_refl) as Hb.
  simpl in Ha, Hb. rewrite Ha in Hb. discriminate.
Qed.

(** C6, amended.  Whatever [_rest_call] is asked (either [fetch_all] mode,
    any page of a collection) and whenever [delete] has computed the path
    of its instance: as soon as one request is answered with a status
    outside 2xx, no further request is sent and the operation raises
    [PyrestoServerResponseException] with a message that names the status
    code (the body of the answer is not part of the exception). *)
Theorem server_error_aborts E fuel cls inst auth w a r path w1 :
  normalize_auth E cls inst auth w = Ok a w ->
  assert_class_instance E cls inst w = Ok r w ->
  prop (ops E fuel) r "_current_path" (_current_path E (ops E fuel) r) string_of w
    = Ok path w1 ->
  (forall cls' url method fetch_all kwargs w',
      aborts_on_failure E w'
        (_rest_call E (ops E fuel) cls' url method fetch_all kwargs w'))
  /\ aborts_on_failure E w1 (delete E (ops E fuel) cls inst auth w).
Proof.
  intros Ha Hr Hp. split.
  - intros. apply rest_call_aborts.
  - by eapply delete_aborts.
Qed.

Lemma server_error_aborts_witness :
  (forall cls' url method fetch_all kwargs w',
      aborts_on_failure (paged_api "gone") w'
        (_rest_call (paged_api "gone") (ops (paged_api "gone") 2) cls' url method
                    fetch_all kwargs w'))
  /\ aborts_on_failure (paged_api "gone")
       (mkWorld (heap (world_of (_current_path (paged_api "gone")
                                   (ops (paged_api "gone") 2) 0 one_commit)))
                [] ∅)
       (delete (paged_api "gone") (ops (paged_api "gone") 2) 0 (VRef 0) None
               one_commit).
Proof.
  apply (server_error_aborts (paged_api "gone") 2 0 (VRef 0) None one_commit
           VNone 0%nat "/commits/abc").
  - reflexivity.
  - reflexivity.
  - vm_compute. reflexivity.
Defined.

Example delete_missing :
  delete (paged_api "gone") (ops (paged_api "gone") 2) 0 (VRef 0) None one_commit
  = Raise (PyrestoServerResponseException "Server response not OK. Response code: 404")
          (set_log [mkRequest "delete" "/commits/abc" no_auth]
                   (world_of (_current_path (paged_api "gone")
                                (ops (paged_api "gone") 2) 0 one_commit))).
Proof. vm_compute. reflexivity. Qed.

(** ** The cache of a [Many] relation *)

Lemma Many_get_cached E rec dsc m r v w w' :
  Many_get E rec dsc m (Some r) w = Ok v w' ->
  cache w' !! (dsc, r) = Some v.
Proof.
  unfold Many_get. unfold bind at 1, cache_get at 1.
  destruct (cache w !! (dsc, r)) as [v0|] eqn:Hc.
  - unfold ret. intros [= <- <-]. done.
  - intros H.
    apply bind_Ok_inv in H as (fp & w1 & _ & H).
    apply bind_Ok_inv in H as (path & w2 & _ & H).
    apply bind_Ok_inv in H as (u & w3 & _ & H).
    unfold bind, cache_get in H.
    destruct (cache w3 !! (dsc, r)) as [v1|] eqn:Hc3; [|discriminate].
    unfold ret in H. injection H as <- <-. done.
Qed.

Lemma Many_get_hit E rec dsc m r v w :
  cache w !! (dsc, r) = Some v ->
  Many_get E rec dsc m (Some r) w = Ok v w.
Proof. intros H. unfold Many_get, bind, cache_get. by rewrite H. Qed.

Lemma cache_set_heap dsc r v w u w' :
  cache_set dsc r v w = Ok u w' -> heap w' = heap w.
Proof. unfold cache_set. by intros [= <- <-]. Qed.

Lemma Many_get_wrapper E rec dsc m r v w w' :
  cache w !! (dsc, r) = None ->
  Many_get E rec dsc m (Some r) w = Ok v w' ->
  exists l, v = VWrapper l /\ is_wrapper_of dsc r (heap w' !! l).
Proof.
  intros Hc. unfold Many_get. unfold bind at 1, cache_get at 1. rewrite Hc.
  intros H.
  apply bind_Ok_inv in H as (fp & w1 & _ & H).
  apply bind_Ok_inv in H as (path & w2 & _ & H).
  apply bind_Ok_inv in H as (u & w3 & Hres & H).
  unfold bind, cache_get in H.
  destruct (cache w3 !! (dsc, r)) as [v1|] eqn:Hc3; [|discriminate].
  unfold ret in H. injection H as <- <-.
  assert (Halloc : forall o w4 l w5 w6 (u' : unit),
             alloc o w4 = Ok l w5 -> cache_set dsc r (VWrapper l) w5 = Ok u' w6 ->
             cache w6 !! (dsc, r) = Some (VWrapper l) /\ heap w6 !! l = Some o).
  { intros o w4 l w5 w6 u' Ha Hs. unfold alloc in Ha. unfold cache_set in Hs.
    inversion Ha; subst. inversion Hs; subst. simpl. split.
    - apply lookup_insert_eq.
    - by rewrite lookup_app_r, Nat.sub_diag. }
  destruct (m_lazy m).
  - apply bind_Ok_inv in Hres as (l & w4 & Ha & Hs).
    destruct (Halloc _ _ _ _ _ _ Ha Hs) as [Hv Hh].
    rewrite Hc3 in Hv. injection Hv as ->. exists l. split; [done|].
    rewrite Hh. done.
  - apply bind_Ok_inv in Hres as (cd & w4 & _ & Hres).
    apply bind_Ok_inv in Hres as (res & w5 & _ & Hres).
    apply bind_Ok_inv in Hres as (data & w6 & _ & Hres).
    apply bind_Ok_inv in Hres as (items & w7 & _ & Hres).
    apply bind_Ok_inv in Hres as (l & w8 & Ha & Hs).
    destruct (Halloc _ _ _ _ _ _ Ha Hs) as [Hv Hh].
    rewrite Hc3 in Hv. injection Hv as ->. exists l. split; [done|].
    rewrite Hh. done.
Qed.



Example commits_fetched_once :
  let E := paged_api "" in
  let first := Many_get E (ops E 2) 7 commits (Some 0%nat) one_commit in
  let second := Many_get E (ops E 2) 7 commits (Some 0%nat) (world_of first) in
  second = first
  /\ log (world_of second)
     = [mkRequest "get" "/commits" no_auth; mkRequest "get" "/commits?page=2" no_auth]
  /\ heap (world_of second) !! 1%nat
     = Some (OWrappedList [sha "a"; sha "b"] 7 0).
Proof. vm_compute. repeat split; reflexivity. Qed.

(** ** Invariants of computations *)

Lemma keeps_ret {A} I (a : A) (Q : A -> Prop) : Q a -> keeps I (ret a) Q.
Proof. intros H w Hw. by split. Qed.

Lemma keeps_raise {A} I e (Q : A -> Prop) : keeps I (raise e) Q.
Proof. intros w Hw. done. Qed.

Lemma keeps_Timeout {A} I (Q : A -> Prop) : keeps I (@Timeout A) Q.
Proof. intros w Hw. done. Qed.

Lemma keeps_lift {A} I (x : exn + A) (Q : A -> Prop) :
  (forall a, x = inr a -> Q a) -> keeps I (lift x) Q.
Proof. intros H w Hw. destruct x; simpl; [done|]. split; [done|]. by apply H. Qed.

Lemma keeps_bind {A B} I (m : M A) (k : A -> M B) (P : A -> Prop) (Q : B -> Prop) :
  keeps I m P -> (forall a, P a -> keeps I (k a) Q) -> keeps I (bind m k) Q.
Proof.
  intros Hm Hk w Hw. specialize (Hm w Hw). unfold bind.
  destruct (m w) as [a w1|e w1|w1]; try done.
  destruct Hm as [Hw1 Ha]. by apply Hk.
Qed.

Lemma keeps_weaken {A} I (m : M A) (P Q : A -> Prop) :
  keeps I m P -> (forall a, P a -> Q a) -> keeps I m Q.
Proof.
  intros Hm HPQ w Hw. specialize (Hm w Hw).
  destruct (m w); try done. destruct Hm. split; [done|]. by apply HPQ.
Qed.

Lemma keeps_except {A} I (m h : M A) (Q : A -> Prop) :
  keeps I m Q -> keeps I h Q -> keeps I (except_AttributeError m h) Q.
Proof.
  intros Hm Hh w Hw. specialize (Hm w Hw). unfold except_AttributeError.
  destruct (m w) as [a w1|e w1|w1]; try done.
  destruct (is_AttributeError e); [by apply Hh|done].
Qed.

Lemma keeps_get_heap I : keeps I get_heap any.
Proof. intros w Hw. by split. Qed.

Lemma keeps_inject_auth E I cls kw : keeps I (inject_auth E cls kw) any.
Proof.
  intros w Hw.
  destruct (inject_auth_cases E cls kw w) as [[kw' ->]| ->]; [by split|done].
Qed.

(** *** [_rest_call] touches nothing but the log *)

Lemma same_store_request E w0 req : keeps (same_store w0) (request E req) any.
Proof.
  intros w Hw. unfold request. by destruct (transport E (log w) req).
Qed.

Lemma rest_call_store_step E w0 rec :
  (forall cls url method fa kw, keeps (same_store w0) (o_rest_call rec cls url method fa kw) any) ->
  forall cls url method fa kw,
    keeps (same_store w0) (_rest_call E rec cls url method fa kw) any.
Proof.
  intros IH cls url method fa kw. unfold _rest_call.
  eapply keeps_bind; [apply keeps_inject_auth|]. intros kw' _.
  destruct (bool_decide _); [|apply keeps_raise].
  eapply keeps_bind; [apply same_store_request|]. intros resp _.
  destruct (success resp); [|apply keeps_raise].
  eapply keeps_bind with (P := any).
  { destruct (String.eqb _ _); [by apply keeps_ret|by apply keeps_lift]. }
  intros data _.
  destruct (c_continuator _ resp) as [next|]; [|by apply keeps_ret].
  destruct (String.eqb _ _); [by apply keeps_ret|].
  destruct fa; [|by apply keeps_ret].
  eapply keeps_bind; [apply IH|]. intros more _.
  eapply keeps_bind with (P := any); [by apply keeps_lift|].
  intros. by apply keeps_ret.
Qed.

Lemma rest_call_store E w0 fuel cls url method fa kw :
  keeps (same_store w0) (_rest_call E (ops E fuel) cls url method fa kw) any.
Proof.
  revert cls url method fa kw. induction fuel as [|fuel IH]; intros.
  - apply rest_call_store_step. intros. apply keeps_Timeout.
  - apply rest_call_store_step. intros. rewrite ops_S. apply IH.
Qed.

Lemma rest_call_heap E fuel cls url method fa kw w res w' :
  _rest_call E (ops E fuel) cls url method fa kw w = Ok res w' ->
  heap w' = heap w /\ cache w' = cache w.
Proof.
  intros H. pose proof (rest_call_store E w fuel cls url method fa kw w) as K.
  rewrite H in K. destruct K as [K _]; [by split|]. exact K.
Qed.

(** ** The fetched flag *)

Lemma setattr_state E r key v w :
  startswith_underscore key = true ->
  bool_decide (key ∈ "_pk_vals" :: properties ++ object_slots) = false ->
  __setattr__ E r key v w
  = match heap w !! r with
    | Some (OModel c d) => Ok tt (set_heap (<[r := OModel c (<[key := v]> d)]> (heap w)) w)
    | _ => Raise TypeError w
    end.
Proof.
  intros Hu Hp. unfold __setattr__. rewrite Hu. simpl. rewrite bind_ret.
  unfold object_setattr.
  apply bool_decide_eq_false_1 in Hp.
  assert (Hne : forall k, k ∈ "_pk_vals" :: properties ++ object_slots ->
                          String.eqb key k = false).
  { intros k Hk. apply String.eqb_neq. by intros ->. }
  rewrite (Hne "_pk_vals") by (by constructor).
  rewrite bool_decide_eq_false_2
    by (intros ?; apply Hp; right; apply elem_of_app; by left).
  rewrite (Hne "__dict__"), (Hne "__class__"), (Hne "__weakref__")
    by (right; apply elem_of_app; right; unfold object_slots; set_solver).
  unfold bind, instance, set_dict.
  destruct (heap w !! r) as [[c d| |]|] eqn:Hr; simpl; rewrite ?Hr; done.
Qed.

Lemma setattr_state_Ok E r key v w u w' :
  startswith_underscore key = true ->
  bool_decide (key ∈ "_pk_vals" :: properties ++ object_slots) = false ->
  __setattr__ E r key v w = Ok u w' ->
  exists c d, heap w !! r = Some (OModel c d)
              /\ heap w' = <[r := OModel c (<[key := v]> d)]> (heap w)
              /\ heap w' !! r = Some (OModel c (<[key := v]> d))
              /\ log w' = log w /\ cache w' = cache w.
Proof.
  intros Hu Hp. rewrite setattr_state by done.
  destruct (heap w !! r) as [[c d| |]|] eqn:Hr; try discriminate.
  intros [= <- <-]. exists c, d. simpl. repeat split; try done.
  apply list_lookup_insert_eq. by eapply lookup_lt_Some.
Qed.

Lemma fetch_without_data E rec r w url w1 c d data next w2 :
  prop rec r "_current_path" (_current_path E rec r) string_of w = Ok url w1 ->
  heap w1 !! r = Some (OModel c d) ->
  _rest_call E rec c url "GET" true
             (mkKwargs (Some (state (classes E c) d "_auth")) None) w1
    = Ok (data, next) w2 ->
  truthy (heap w2) data = false ->
  __fetch E rec r w = Ok tt w2.
Proof.
  intros Hp Hr Hc Ht. unfold __fetch.
  rewrite (bind_Ok _ _ _ _ _ Hp).
  unfold bind at 1, instance at 1. rewrite Hr. simpl.
  rewrite (bind_Ok _ _ _ _ _ Hc). unfold bind, get_heap. simpl. by rewrite Ht.
Qed.

Lemma fetch_with_data E rec r w url w1 c d data next w2 w3 :
  prop rec r "_current_path" (_current_path E rec r) string_of w = Ok url w1 ->
  heap w1 !! r = Some (OModel c d) ->
  _rest_call E rec c url "GET" true
             (mkKwargs (Some (state (classes E c) d "_auth")) None) w1
    = Ok (data, next) w2 ->
  truthy (heap w2) data = true ->
  __fetch E rec r w = Ok tt w3 ->
  is_fetched w3 r.
Proof.
  intros Hp Hr Hc Ht. unfold __fetch.
  rewrite (bind_Ok _ _ _ _ _ Hp).
  unfold bind at 1, instance at 1. rewrite Hr. simpl.
  rewrite (bind_Ok _ _ _ _ _ Hc). unfold bind at 1, get_heap. simpl. rewrite Ht.
  intros H.
  apply bind_Ok_inv in H as (items & w4 & _ & H).
  apply bind_Ok_inv in H as (cd & w5 & _ & H).
  apply bind_Ok_inv in H as (u1 & w6 & _ & H).
  apply bind_Ok_inv in H as (given & w7 & _ & H).
  apply bind_Ok_inv in H as (d' & w8 & _ & H).
  apply bind_Ok_inv in H as (u2 & w9 & _ & H).
  apply setattr_state_Ok in H as (c' & d'' & _ & _ & H & _); [|done|done].
  exists c', (<["_fetched" := VBool true]> d''). split; [done|].
  apply lookup_insert_eq.
Qed.

Lemma read_without_data E rec cls args parent auth w base w1 s w2 path data next w3 :
  parent_path rec (default VNone parent) w = Ok base w1 ->
  format E rec (c_path (classes E cls))
         (store_update ∅ (zip (c_pk (classes E cls)) args)) w1 = Ok s w2 ->
  concat_path base s w2 = Ok path w2 ->
  _rest_call E rec cls path "GET" true
             (mkKwargs (Some (default (c_auth (classes E cls)) auth)) None) w2
    = Ok (data, next) w3 ->
  truthy (heap w3) data = false ->
  read E rec cls args parent auth w = Ok VNone w3.
Proof.
  intros Hb Hs Hp Hc Ht. unfold read.
  rewrite (bind_Ok _ _ _ _ _ Hb), (bind_Ok _ _ _ _ _ Hs), (bind_Ok _ _ _ _ _ Hp),
    (bind_Ok _ _ _ _ _ Hc).
  unfold bind, get_heap. simpl. by rewrite Ht.
Qed.

Lemma read_returns_fetched E rec cls args parent auth w r w' :
  read E rec cls args parent auth w = Ok (VRef r) w' -> is_fetched w' r.
Proof.
  unfold read. intros H.
  apply bind_Ok_inv in H as (base & w1 & _ & H).
  apply bind_Ok_inv in H as (s & w2 & _ & H).
  apply bind_Ok_inv in H as (path & w3 & _ & H).
  apply bind_Ok_inv in H as (res & w4 & _ & H).
  apply bind_Ok_inv in H as (h & w5 & _ & H).
  destruct (negb (truthy h res.1)); [discriminate|].
  apply bind_Ok_inv in H as (kwargs & w6 & _ & H).
  apply bind_Ok_inv in H as (r0 & w7 & _ & H).
  apply bind_Ok_inv in H as (u1 & w8 & _ & H).
  apply bind_Ok_inv in H as (u2 & w9 & Hf & H).
  apply bind_Ok_inv in H as (h' & w10 & Hh & H).
  apply bind_Ok_inv in H as (u3 & w11 & Ha & H).
  unfold ret in H. injection H as <- <-.
  unfold get_heap in Hh. injection Hh as <- <-.
  apply setattr_state_Ok in Hf as (c & d & _ & _ & Hf & _); [|done|done].
  destruct (truthy (heap w9) (default (c_auth (classes E cls)) auth)).
  - apply setattr_state_Ok in Ha as (c' & d' & Hr & _ & Ha & _); [|done|done].
    rewrite Hf in Hr. injection Hr as <- <-.
    eexists _, _. split; [exact Ha|].
    rewrite lookup_insert_ne by done. apply lookup_insert_eq.
  - unfold ret in Ha. injection Ha as _ <-.
    eexists _, _. split; [exact Hf|]. apply lookup_insert_eq.
Qed.

(** C10.  An implicit fetch whose answer parses to empty (falsy) data ends
    normally with the heap as it was when the request was sent, so an
    unfetched instance remains unfetched; the fetch leaves [_fetched = True]
    behind only when the data was truthy.  Likewise [read] returns None,
    and builds no instance, when the answer parses to falsy data; any
    instance it does return carries [_fetched = True]. *)
Theorem fetched_only_with_data E fuel
    r w url w1 c d data next w2
    cls args parent auth wr base wr1 s wr2 path data' next' wr3 :
  let rec := ops E fuel in
  prop rec r "_current_path" (_current_path E rec r) string_of w = Ok url w1 ->
  heap w1 !! r = Some (OModel c d) ->
  _rest_call E rec c url "GET" true
             (mkKwargs (Some (state (classes E c) d "_auth")) None) w1
    = Ok (data, next) w2 ->
  parent_path rec (default VNone parent) wr = Ok base wr1 ->
  format E rec (c_path (classes E cls))
         (store_update ∅ (zip (c_pk (classes E cls)) args)) wr1 = Ok s wr2 ->
  concat_path base s wr2 = Ok path wr2 ->
  _rest_call E rec cls path "GET" true
             (mkKwargs (Some (default (c_auth (classes E cls)) auth)) None) wr2
    = Ok (data', next') wr3 ->
  (truthy (heap w2) data = false ->
     __fetch E rec r w = Ok tt w2 /\ heap w2 = heap w1)
  /\ (forall w3, __fetch E rec r w = Ok tt w3 ->
        (truthy (heap w2) data = true /\ is_fetched w3 r)
        \/ (truthy (heap w2) data = false /\ heap w3 = heap w1))
  /\ (truthy (heap wr3) data' = false ->
        read E rec cls args parent auth wr = Ok VNone wr3 /\ heap wr3 = heap wr2)
  /\ (forall r' w3, read E rec cls args parent auth wr = Ok (VRef r') w3 ->
        truthy (heap wr3) data' = true /\ is_fetched w3 r').
Proof.
  intros rec Hp Hr Hc Hb Hs Hpath Hc'.
  pose proof (rest_call_heap _ _ _ _ _ _ _ _ _ _ Hc) as [Hh _].
  pose proof (rest_call_heap _ _ _ _ _ _ _ _ _ _ Hc') as [Hh' _].
  repeat split.
  - by eapply fetch_without_data.
  - done.
  - intros w3 Hf. destruct (truthy (heap w2) data) eqn:Ht.
    + left. split; [done|]. by eapply fetch_with_data.
    + right. split; [done|].
      rewrite (fetch_without_data _ _ _ _ _ _ _ _ _ _ _ Hp Hr Hc Ht) in Hf.
      by injection Hf as <-.
  - by eapply read_without_data.
  - done.
  - destruct (truthy (heap wr3) data') eqn:Ht; [done|].
    rewrite (read_without_data _ _ _ _ _ _ _ _ _ _ _ _ _ _ _ Hb Hs Hpath Hc' Ht) in H.
    discriminate.
  - by eapply read_returns_fetched.
Qed.

Lemma fetched_only_with_data_witness :
  let E := item_api "" in
  let w2 := set_log [get_item_42] (world_of (_current_path E (ops E 2) 0 one_item)) in
  (truthy (heap w2) VNone = false ->
     __fetch E (ops E 2) 0 one_item = Ok tt w2
     /\ heap w2 = heap (world_of (_current_path E (ops E 2) 0 one_item)))
  /\ (forall w3, __fetch E (ops E 2) 0 one_item = Ok tt w3 ->
        (truthy (heap w2) VNone = true /\ is_fetched w3 0)
        \/ (truthy (heap w2) VNone = false
            /\ heap w3 = heap (world_of (_current_path E (ops E 2) 0 one_item))))
  /\ (truthy (heap (set_log [get_item_42] one_item)) VNone = false ->
        read E (ops E 2) 0 [VStr "42"] None None one_item
        = Ok VNone (set_log [get_item_42] one_item)
        /\ heap (set_log [get_item_42] one_item) = heap one_item)
  /\ (forall r' w3,
        read E (ops E 2) 0 [VStr "42"] None None one_item = Ok (VRef r') w3 ->
        truthy (heap (set_log [get_item_42] one_item)) VNone = true
        /\ is_fetched w3 r').
Proof.
  intros E w2.
  apply (fetched_only_with_data E 2
           0 one_item "/items/42/"
           (world_of (_current_path E (ops E 2) 0 one_item))
           0 (<["_Model__footprint" := VDict [("id", VStr "42"); ("self", VRef 0)]]>
                (<["_Model__pk_vals" := VTuple [VStr "42"]]>
                   (<["_changed" := VSet ∅]>
                      (<["id" := VStr "42"]> (<["_parent" := VNone]> ∅)))))
           VNone None w2
           0 [VStr "42"] None None one_item (Some EmptyString) one_item
           "/items/42/" one_item "/items/42/" VNone None
           (set_log [get_item_42] one_item)).
  - vm_compute. reflexivity.
  - vm_compute. reflexivity.
  - vm_compute. reflexivity.
  - reflexivity.
  - vm_compute. reflexivity.
  - reflexivity.
  - vm_compute. reflexivity.
Defined.

Example read_empty_body :
  read (item_api "") (ops (item_api "") 2) 0 [VStr "42"] None None one_item
  = Ok VNone (set_log [get_item_42] one_item).
Proof. vm_compute. reflexivity. Qed.

(** ** Attribute access *)

(** *** An empty answer *)

Lemma refetch_round rec l :
  __getattr__ (item_api "") rec 0 "name" (seen_item l)
  = o_getattr rec 0 "name" (seen_item (l ++ [get_item_42])).
Proof. vm_compute. reflexivity. Qed.

Lemma retry_enters_hook rec l :
  getattr (item_api "") rec 0 "name" (seen_item l)
  = __getattr__ (item_api "") rec 0 "name" (seen_item l).
Proof. vm_compute. reflexivity. Qed.

Lemma refetch_forever fuel l :
  __getattr__ (item_api "") (ops (item_api "") fuel) 0 "name" (seen_item l)
  = Timeout (seen_item (l ++ replicate (S fuel) get_item_42)).
Proof.
  revert l. induction fuel as [|fuel IH]; intros l.
  - rewrite refetch_round. reflexivity.
  - rewrite refetch_round. rewrite ops_S. simpl o_getattr.
    rewrite retry_enters_hook, IH. by rewrite <- app_assoc.
Qed.

Lemma first_fetch_round_step rec :
  __getattr__ (item_api "") (ops_step (item_api "") rec) 0 "name" one_item
  = getattr (item_api "") rec 0 "name" (seen_item [get_item_42]).
Proof. vm_compute. reflexivity. Qed.

Lemma first_fetch_round fuel :
  __getattr__ (item_api "") (ops (item_api "") (S fuel)) 0 "name" one_item
  = getattr (item_api "") (ops (item_api "") fuel) 0 "name" (seen_item [get_item_42]).
Proof. rewrite ops_S. apply first_fetch_round_step. Qed.

Lemma empty_body_refetches fuel :
  exists w',
    __getattr__ (item_api "") (ops (item_api "") fuel) 0 "name" one_item = Timeout w'
    /\ (fuel <= length (log w'))%nat
    /\ ~ is_fetched w' 0.
Proof.
  destruct fuel as [|fuel].
  - eexists. split; [vm_compute; reflexivity|]. split; [simpl; lia|].
    intros (c & d & Hr & Hd). vm_compute in Hr. injection Hr as <- <-.
    vm_compute in Hd. discriminate.
  - rewrite first_fetch_round, retry_enters_hook, refetch_forever.
    eexists. split; [reflexivity|]. split.
    + simpl. rewrite length_replicate. lia.
    + intros (c & d & Hr & Hd). vm_compute in Hr. injection Hr as <- <-.
      vm_compute in Hd. discriminate.
Qed.

(** On a server that answers the fetch with an empty body, the access
    to a missing attribute of an unfetched instance never ends with
    AttributeError after one request. *)
Lemma empty_body_never_fails :
  ~ fetches_once_then_fails (item_api "") 0 "name" one_item.
Proof.
  intros (fuel & w' & H & _).
  destruct (empty_body_refetches fuel) as (w'' & H' & _). congruence.
Qed.

Lemma access_enters_hook rec :
  getattr (item_api "") rec 0 "name" one_item
  = __getattr__ (item_api "") rec 0 "name" one_item.
Proof. vm_compute. reflexivity. Qed.

(** C1 on the code.  An [Item] with [id='42'] is not fetched and has no
    [name]; the server answers every GET with status 200 and an empty
    body.  The access [item.name] does not end with AttributeError after
    one fetch: [__fetch] sets the flag only when the data is truthy, so
    the retried lookup enters [__getattr__] again, which fetches again.
    With [fuel + 1] nested calls allowed the access has sent [fuel + 2]
    requests for the same path when it is cut off, and the instance is
    still not fetched: the number of requests has no bound. *)
Theorem empty_answer_refetches_without_end fuel :
  let E := item_api "" in
  let w' := seen_item (replicate (S (S fuel)) get_item_42) in
  getattr E (ops E (S fuel)) 0 "name" one_item = Timeout w'
  /\ length (log w') = S (S fuel)
  /\ ~ is_fetched w' 0.
Proof.
  intros E w'. split; [|split].
  - unfold E, w'. rewrite access_enters_hook, first_fetch_round.
    rewrite retry_enters_hook, refetch_forever. reflexivity.
  - unfold w'. simpl. by rewrite length_replicate.
  - intros (c & d & Hr & Hd). vm_compute in Hr. injection Hr as <- <-.
    vm_compute in Hd. discriminate.
Qed.

(** *** A first access that fetches data *)

Lemma set_dict_Ok r c d d' w :
  heap w !! r = Some (OModel c d) ->
  set_dict r d' w = Ok tt (set_heap (<[r := OModel c d']> (heap w)) w).
Proof. intros H. unfold set_dict. by rewrite H. Qed.

Lemma instance_Ok r c d w :
  heap w !! r = Some (OModel c d) -> instance r w = Ok (c, d) w.
Proof. intros H. unfold instance. by rewrite H. Qed.

Lemma lookup_set_heap r o o' w :
  heap w !! r = Some o ->
  heap (set_heap (<[r := o']> (heap w)) w) !! r = Some o'.
Proof.
  intros H. simpl. apply list_lookup_insert_eq. by eapply lookup_lt_Some.
Qed.

Lemma set_heap_twice r o o' w :
  set_heap (<[r := o']> (heap (set_heap (<[r := o]> (heap w)) w)))
           (set_heap (<[r := o]> (heap w)) w)
  = set_heap (<[r := o']> (heap w)) w.
Proof. unfold set_heap. simpl. by rewrite list_insert_insert_eq. Qed.

Lemma fetch_merges E rec r w url w1 c d1 data next w2 items given d2 :
  prop rec r "_current_path" (_current_path E rec r) string_of w = Ok url w1 ->
  heap w1 !! r = Some (OModel c d1) ->
  _rest_call E rec c url "GET" true
             (mkKwargs (Some (state (classes E c) d1 "_auth")) None) w1
    = Ok (data, next) w2 ->
  heap w2 = heap w1 ->
  truthy (heap w2) data = true ->
  update_items data = inr items ->
  names_of data = inr given ->
  rename_overlaps (body_names (classes E c)) given (store_update d1 items) = inr d2 ->
  __fetch E rec r w
  = Ok tt (set_heap (<[r := OModel c (<["_fetched" := VBool true]> d2)]> (heap w2)) w2).
Proof.
  intros Hp Hr Hc Hh Ht Hi Hn Hd. unfold __fetch.
  rewrite (bind_Ok _ _ _ _ _ Hp), (bind_Ok _ _ _ _ _ (instance_Ok _ _ _ _ Hr)).
  simpl. rewrite (bind_Ok _ _ _ _ _ Hc). unfold bind at 1, get_heap. simpl.
  rewrite Ht, Hi. simpl lift. rewrite bind_ret.
  rewrite <- Hh in Hr.
  rewrite (bind_Ok _ _ _ _ _ (instance_Ok _ _ _ _ Hr)). simpl.
  rewrite (bind_Ok _ _ _ _ _ (set_dict_Ok _ _ _ _ _ Hr)).
  rewrite Hn. simpl lift. rewrite bind_ret. rewrite Hd. simpl lift. rewrite bind_ret.
  pose proof (lookup_set_heap r _ (OModel c (store_update d1 items)) w2 Hr) as Hr1.
  rewrite (bind_Ok _ _ _ _ _ (set_dict_Ok _ _ _ d2 _ Hr1)).
  rewrite set_heap_twice.
  pose proof (lookup_set_heap r _ (OModel c d2) w2 Hr) as Hr2.
  rewrite setattr_state by done. rewrite Hr2. by rewrite set_heap_twice.
Qed.

Lemma not_property name :
  name ∉ properties ->
  String.eqb name "_id" = false /\ String.eqb name "_pk_vals" = false
  /\ String.eqb name "_footprint" = false /\ String.eqb name "_current_path" = false.
Proof.
  intros H. repeat split; apply String.eqb_neq; intros ->; apply H;
    unfold properties; set_solver.
Qed.

Lemma hook_when_fetched E rec r name c d w :
  heap w !! r = Some (OModel c d) ->
  truthy (heap w) (state (classes E c) d "_fetched") = true ->
  __getattr__ E rec r name w = Raise AttributeError w.
Proof.
  intros Hr Hf. unfold __getattr__.
  rewrite (bind_Ok _ _ _ _ _ (instance_Ok _ _ _ _ Hr)).
  unfold bind, get_heap. simpl. by rewrite Hf.
Qed.

Lemma getattr_after_fetch E rec r name c d w :
  heap w !! r = Some (OModel c d) ->
  d !! "_fetched" = Some (VBool true) ->
  name ∉ properties ->
  class_lookup E c name = None ->
  state_default (classes E c) name = None ->
  name ∉ Model_namespace ->
  getattr E rec r name w
  = match d !! name with
    | Some v => Ok v w
    | None => Raise AttributeError w
    end.
Proof.
  intros Hr Hf Hp Hc Hs Hn. unfold getattr.
  destruct (not_property name Hp) as (-> & -> & -> & ->).
  rewrite (bind_Ok _ _ _ _ _ (instance_Ok _ _ _ _ Hr)). simpl.
  destruct (d !! name) as [v|]; [done|].
  rewrite Hc, Hs. rewrite bool_decide_eq_false_2 by done.
  apply (hook_when_fetched E rec r name c d w Hr).
  unfold state. by rewrite Hf.
Qed.

Lemma rest_call_first_request E fuel cls url method fa kw a w res w' :
  kw_auth kw = Some a ->
  _rest_call E (ops E fuel) cls url method fa kw w = Ok res w' ->
  exists reqs, log w' = log w ++ issued E cls kw method url :: reqs.
Proof.
  intros Ha. unfold _rest_call.
  assert (Hi : inject_auth E cls kw w = Ok kw w).
  { unfold inject_auth. rewrite Ha. by destruct (c_auth (classes E cls)). }
  rewrite (bind_Ok _ _ _ _ _ Hi).
  destruct (bool_decide _); [|discriminate].
  fold (issued E cls kw method url). set (req := issued E cls kw method url).
  unfold bind at 1, request.
  destruct (transport E (log w) req) as [e|resp]; [discriminate|].
  destruct (success resp); [|discriminate].
  set (w1 := set_log (log w ++ [req]) w).
  intros H. apply bind_Ok_inv in H as (data & w2 & Hd & H).
  assert (w2 = w1) as ->.
  { destruct (String.eqb _ _); [by injection Hd|].
    destruct (c_parser _ _); [discriminate|by injection Hd]. }
  assert (Hnow : forall x : value * option string,
             Ok x w1 = Ok res w' -> exists reqs, log w' = log w ++ req :: reqs).
  { intros x [= _ <-]. by exists []. }
  destruct (c_continuator _ resp) as [next|]; [|by eapply Hnow].
  destruct (String.eqb next _); [by eapply Hnow|].
  destruct fa; [|by eapply Hnow].
  apply bind_Ok_inv in H as (more & w3 & Hm & H).
  apply bind_Ok_inv in H as (data' & w4 & Hl & H).
  assert (w4 = w3) as -> by (destruct (py_iadd _ _); [discriminate|by injection Hl]).
  injection H as _ <-.
  assert (exists reqs, log w3 = log w1 ++ reqs) as [reqs Hreqs].
  { destruct fuel as [|fuel]; [discriminate|].
    rewrite ops_S in Hm. simpl in Hm.
    destruct (rest_call_aborts E fuel cls next "GET" true kw w1) as (reqs & Hlog & _).
    rewrite Hm in Hlog. by exists reqs. }
  exists reqs. rewrite Hreqs. unfold w1. simpl. by rewrite <- app_assoc.
Qed.

(** Where the answer is truthy the access behaves as intended.  On an
    unfetched instance, the access to an attribute that neither the store
    nor the class holds computes the path of the instance and calls
    [_rest_call] once, with GET at that path; the fields of the answer are
    merged into the store, the flag [_fetched] is set, and the lookup is
    retried once: it returns the value if the merge brought it and raises
    AttributeError otherwise, without another request.  On an instance
    whose flag is already true the hook raises AttributeError at once and
    leaves the world, its log of requests included, untouched. *)
Lemma getattr_fetches_once E fuel
    r name c0 d0 w url w1 c d1 data next w2 items given d2
    r' name' c' d' w' :
  let rec := ops E (S fuel) in
  let kw := mkKwargs (Some (state (classes E c) d1 "_auth")) None in
  let d3 := <["_fetched" := VBool true]> d2 in
  let w3 := set_heap (<[r := OModel c d3]> (heap w2)) w2 in
  heap w !! r = Some (OModel c0 d0) ->
  truthy (heap w) (state (classes E c0) d0 "_fetched") = false ->
  prop rec r "_current_path" (_current_path E rec r) string_of w = Ok url w1 ->
  heap w1 !! r = Some (OModel c d1) ->
  _rest_call E rec c url "GET" true kw w1 = Ok (data, next) w2 ->
  truthy (heap w2) data = true ->
  update_items data = inr items ->
  names_of data = inr given ->
  rename_overlaps (body_names (classes E c)) given (store_update d1 items) = inr d2 ->
  name ∉ properties ->
  class_lookup E c name = None ->
  state_default (classes E c) name = None ->
  name ∉ Model_namespace ->
  heap w' !! r' = Some (OModel c' d') ->
  truthy (heap w') (state (classes E c') d' "_fetched") = true ->
  __getattr__ E rec r name w
  = match d3 !! name with
    | Some v => Ok v w3
    | None => Raise AttributeError w3
    end
  /\ (exists reqs, log w3 = log w1 ++ issued E c kw "GET" url :: reqs)
  /\ __getattr__ E rec r' name' w' = Raise AttributeError w'.
Proof.
  intros rec kw d3 w3 Hr Hf Hp Hr1 Hc Ht Hi Hn Hd Hprop Hcls Hst Hns Hr' Hf'.
  destruct (rest_call_heap _ _ _ _ _ _ _ _ _ _ Hc) as [Hh _].
  split; [|split].
  - unfold __getattr__.
    rewrite (bind_Ok _ _ _ _ _ (instance_Ok _ _ _ _ Hr)).
    unfold bind at 1, get_heap. simpl. rewrite Hf.
    rewrite (bind_Ok _ _ _ _ _
               (fetch_merges E rec r w url w1 c d1 data next w2 items given d2
                  Hp Hr1 Hc Hh Ht Hi Hn Hd)).
    rewrite <- Hh in Hr1.
    apply (getattr_after_fetch E (ops E fuel) r name c d3 w3); try done.
    + by apply (lookup_set_heap r _ _ w2 Hr1).
    + apply lookup_insert_eq.
  - destruct (rest_call_first_request E (S fuel) c url "GET" true kw _ w1 _ w2
                eq_refl Hc) as [reqs Hreqs].
    exists reqs. exact Hreqs.
  - by eapply hook_when_fetched.
Qed.

Lemma getattr_fetches_once_witness :
  let E := item_api "{name}" in
  let w1 := world_of (_current_path E (ops E 2) 0 one_item) in
  let d3 := <["_fetched" := VBool true]>
              (<["name" := VStr "x"]>
                (<["_Model__footprint" := VDict [("id", VStr "42"); ("self", VRef 0)]]>
                  (<["_Model__pk_vals" := VTuple [VStr "42"]]>
                    (<["_changed" := VSet ∅]>
                      (<["id" := VStr "42"]> (<["_parent" := VNone]> ∅)))))) in
  let w3 := mkWorld [OModel 0 d3] [get_item_42] ∅ in
  __getattr__ E (ops E 2) 0 "name" one_item = Ok (VStr "x") w3
  /\ (exists reqs, log w3 = log w1 ++ get_item_42 :: reqs)
  /\ __getattr__ E (ops E 2) 0 "other" w3 = Raise AttributeError w3.
Proof.
  intros E w1 d3 w3.
  pose proof (getattr_fetches_once E 1
           0 "name" 0 (<["_changed" := VSet ∅]>
                         (<["id" := VStr "42"]> (<["_parent" := VNone]> ∅)))
           one_item "/items/42/" w1
           0 (<["_Model__footprint" := VDict [("id", VStr "42"); ("self", VRef 0)]]>
                (<["_Model__pk_vals" := VTuple [VStr "42"]]>
                   (<["_changed" := VSet ∅]>
                      (<["id" := VStr "42"]> (<["_parent" := VNone]> ∅)))))
           (VDict [("name", VStr "x")]) None (set_log [get_item_42] w1)
           [("name", VStr "x")] ["name"]
           (<["name" := VStr "x"]>
              (<["_Model__footprint" := VDict [("id", VStr "42"); ("self", VRef 0)]]>
                (<["_Model__pk_vals" := VTuple [VStr "42"]]>
                   (<["_changed" := VSet ∅]>
                      (<["id" := VStr "42"]> (<["_parent" := VNone]> ∅))))))
           0 "other" 0 d3 w3) as H.
  cbv zeta in H. evaluate_premises H.
  subst E w1 d3 w3. vm_compute in H. vm_compute. exact H.
Defined.

Example missing_after_fetch :
  let E := item_api "{name}" in
  exists w3,
    __getattr__ E (ops E 2) 0 "nme" one_item = Raise AttributeError w3
    /\ log w3 = [get_item_42] /\ is_fetched w3 0.
Proof.
  eexists. split; [vm_compute; reflexivity|]. split; [reflexivity|].
  eexists _, _. split; [reflexivity|]. vm_compute. reflexivity.
Qed.

(** ** Footprints *)

Lemma prop_Ok {A} rec r name (getter : M A) back w a w' :
  getter w = Ok a w' -> prop rec r name getter back w = Ok a w'.
Proof. intros H. unfold prop, except_AttributeError. by rewrite H. Qed.

(** [_id] of an instance whose key tuple is bound: its last component. *)
Lemma id_of_bound_tuple E rec r c d xs v w :
  heap w !! r = Some (OModel c d) ->
  d !! "_Model__pk_vals" = Some (VTuple (xs ++ [v])) ->
  _id E rec r w = Ok v w.
Proof.
  intros Hr Hd. unfold _id.
  rewrite (bind_Ok _ _ _ _ _ (instance_Ok _ _ _ _ Hr)). simpl.
  unfold bind, get_heap, state. rewrite Hd. simpl.
  assert (Ht : match xs ++ [v] with [] => false | _ => true end = true)
    by (by destruct xs).
  rewrite Ht. by rewrite last_snoc.
Qed.

Lemma footprint_from_id E rec r w c d v w1 d1 :
  heap w !! r = Some (OModel c d) ->
  prop rec r "_id" (_id E rec r) ret w = Ok v w1 ->
  heap w1 !! r = Some (OModel c d1) ->
  let pk := c_pk (classes E c) in
  let pk_vals := replicate (length pk - 1) VNone ++ [v] in
  let fp := zip pk pk_vals ++ [("self", VRef r)] in
  _footprint E rec r w
  = Ok fp (set_heap (<[r := OModel c (<["_Model__footprint" := VDict fp]>
                                      (<["_Model__pk_vals" := VTuple pk_vals]> d1))]>
                       (heap w1)) w1).
Proof.
  intros Hr Hid Hr1 pk pk_vals fp. unfold _footprint.
  rewrite (bind_Ok _ _ _ _ _ (instance_Ok _ _ _ _ Hr)). simpl.
  set (w2 := set_heap (<[r := OModel c (<["_Model__pk_vals" := VTuple pk_vals]> d1)]>
                         (heap w1)) w1).
  assert (Hr2 : heap w2 !! r
                = Some (OModel c (<["_Model__pk_vals" := VTuple pk_vals]> d1)))
    by (by apply (lookup_set_heap r _ _ w1 Hr1)).
  assert (Hpk : _pk_vals E rec r w = Ok (VTuple pk_vals) w2).
  { unfold _pk_vals.
    rewrite (bind_Ok _ _ _ _ _ (instance_Ok _ _ _ _ Hr)). simpl.
    rewrite (bind_Ok _ _ _ _ _ Hid).
    fold pk. fold pk_vals.
    assert (Hs : __setattr__ E r "_Model__pk_vals" (VTuple pk_vals) w1 = Ok tt w2)
      by (rewrite setattr_state by done; by rewrite Hr1).
    rewrite (bind_Ok _ _ _ _ _ Hs).
    rewrite (bind_Ok _ _ _ _ _ (instance_Ok _ _ _ _ Hr2)). simpl.
    unfold ret, state. by rewrite lookup_insert_eq. }
  rewrite (bind_Ok _ _ _ _ _ (prop_Ok _ _ _ _ _ _ _ _ Hpk)).
  simpl lift. rewrite bind_ret. fold pk. fold fp.
  unfold bind. rewrite setattr_state by done. rewrite Hr2. unfold ret.
  unfold w2. by rewrite set_heap_twice.
Qed.

(** C8, as stated, fails for a composite key: the footprint of an
    instance read with the key [(p, c)] binds [owner] to None, not to
    [p]. *)
Lemma footprint_drops_bound_keys :
  ~ footprint_has_bound_keys repo_api 2 0 [VStr "p"; VStr "c"] empty_world.
Proof.
  intros H.
  specialize (H 0%nat _ _ _ ltac:(vm_compute; reflexivity)
                ltac:(vm_compute; reflexivity) "owner" (VStr "p")).
  assert (Hin : ("owner", VStr "p") ∈ zip (c_pk (classes repo_api 0))
                                          [VStr "p"; VStr "c"])
    by (simpl; set_solver).
  specialize (H Hin). vm_compute in H. discriminate.
Qed.

(** C8, amended.  The footprint of an instance binds the last primary-key
    field to the instance's [_id] (the last component of the bound key
    tuple when there is one, the attribute named by that field otherwise),
    every primary-key field before it to None, and [self] to the instance;
    the key tuple stored on the instance is overwritten accordingly. *)
Theorem footprint_last_key_only E rec r w c d v w1 d1 :
  heap w !! r = Some (OModel c d) ->
  prop rec r "_id" (_id E rec r) ret w = Ok v w1 ->
  heap w1 !! r = Some (OModel c d1) ->
  let pk := c_pk (classes E c) in
  let pk_vals := replicate (length pk - 1) VNone ++ [v] in
  let fp := zip pk pk_vals ++ [("self", VRef r)] in
  _footprint E rec r w
  = Ok fp (set_heap (<[r := OModel c (<["_Model__footprint" := VDict fp]>
                                      (<["_Model__pk_vals" := VTuple pk_vals]> d1))]>
                       (heap w1)) w1)
  /\ (forall xs x, d !! "_Model__pk_vals" = Some (VTuple (xs ++ [x])) ->
                   v = x /\ w1 = w).
Proof.
  intros Hr Hid Hr1 pk pk_vals fp. split.
  - by apply footprint_from_id with (d := d).
  - intros xs x Hd.
    rewrite (prop_Ok _ _ _ _ _ _ _ _ (id_of_bound_tuple E rec r c d xs x w Hr Hd)) in Hid.
    by injection Hid.
Qed.

Lemma footprint_last_key_only_witness :
  let E := repo_api in
  let w := world_of (read E (ops E 2) 0 [VStr "p"; VStr "c"] None None empty_world) in
  let d := <["_fetched" := VBool true]>
             (<["_Model__pk_vals" := VTuple [VStr "p"; VStr "c"]]>
               (<["_changed" := VSet ∅]>
                 (<["name" := VStr "x"]> (<["_parent" := VNone]> ∅)))) in
  let fp := [("owner", VNone); ("id", VStr "c"); ("self", VRef 0)] in
  _footprint E (ops E 2) 0 w
  = Ok fp (set_heap (<[0%nat := OModel 0 (<["_Model__footprint" := VDict fp]>
                                   (<["_Model__pk_vals" := VTuple [VNone; VStr "c"]]> d))]>
                       (heap w)) w)
  /\ (forall xs x, d !! "_Model__pk_vals" = Some (VTuple (xs ++ [x])) ->
                   VStr "c" = x /\ w = w).
Proof.
  intros E w d fp.
  apply (footprint_last_key_only E (ops E 2) 0 w 0 d (VStr "c") w d).
  - vm_compute. reflexivity.
  - vm_compute. reflexivity.
  - vm_compute. reflexivity.
Defined.

(** ** Equality *)

Lemma new_Ok E cls parent kwargs w r w' :
  new E cls parent kwargs w = Ok r w' ->
  exists d, heap w' !! r = Some (OModel cls d).
Proof.
  assert (Hinit : forall p kw, __init__ E cls p kw w = Ok r w' ->
                               exists d, heap w' !! r = Some (OModel cls d)).
  { intros p kw H. unfold __init__ in H.
    apply bind_Ok_inv in H as (d & w1 & Hd & H).
    assert (w1 = w) as -> by (destruct (rename_overlaps _ _ _); [discriminate|by injection Hd]).
    unfold alloc in H. injection H as <- <-. eexists. simpl.
    by rewrite lookup_app_r, Nat.sub_diag. }
  unfold new. destruct (bool_decide _); [discriminate|].
  destruct (store_update ∅ kwargs !! "parent"), parent; try discriminate;
    apply Hinit.
Qed.

Lemma pk_vals_set_Ok E r v c d w u w' :
  heap w !! r = Some (OModel c d) ->
  __setattr__ E r "_pk_vals" v w = Ok u w' ->
  exists items, py_iter v = inr items
    /\ heap w' !! r = Some (OModel c (<["_Model__pk_vals" := VTuple items]> d)).
Proof.
  intros Hr. unfold __setattr__. simpl. rewrite bind_ret.
  unfold object_setattr. simpl. unfold _pk_vals_setter.
  rewrite (bind_Ok _ _ _ _ _ (instance_Ok _ _ _ _ Hr)). simpl.
  intros H. apply bind_Ok_inv in H as (n & w1 & Hn & H).
  assert (w1 = w) as -> by (destruct (py_len v); [discriminate|by injection Hn]).
  destruct (bool_decide _); [|discriminate].
  apply bind_Ok_inv in H as (items & w1 & Hi & H).
  destruct (py_iter v) as [e|items'] eqn:Hit; [discriminate|].
  injection Hi as <- <-. exists items'. split; [done|].
  rewrite (set_dict_Ok _ _ _ _ _ Hr) in H. injection H as _ <-.
  by apply (lookup_set_heap r _ _ w Hr).
Qed.

(** An instance returned by [read] is of the class read and carries the
    key it was read with. *)
Lemma read_binds E rec cls args parent auth w r w' :
  read E rec cls args parent auth w = Ok (VRef r) w' ->
  exists d, heap w' !! r = Some (OModel cls d)
            /\ d !! "_Model__pk_vals" = Some (VTuple args).
Proof.
  unfold read. intros H.
  apply bind_Ok_inv in H as (base & w1 & _ & H).
  apply bind_Ok_inv in H as (s & w2 & _ & H).
  apply bind_Ok_inv in H as (path & w3 & _ & H).
  apply bind_Ok_inv in H as (res & w4 & _ & H).
  apply bind_Ok_inv in H as (h & w5 & _ & H).
  destruct (negb (truthy h res.1)); [discriminate|].
  apply bind_Ok_inv in H as (kwargs & w6 & _ & H).
  apply bind_Ok_inv in H as (r0 & w7 & Hnew & H).
  apply bind_Ok_inv in H as (u1 & w8 & Hpk & H).
  apply bind_Ok_inv in H as (u2 & w9 & Hf & H).
  apply bind_Ok_inv in H as (h' & w10 & Hh & H).
  apply bind_Ok_inv in H as (u3 & w11 & Ha & H).
  unfold ret in H. injection H as <- <-.
  unfold get_heap in Hh. injection Hh as <- <-.
  apply new_Ok in Hnew as [d0 Hr0].
  destruct (pk_vals_set_Ok _ _ _ _ _ _ _ _ Hr0 Hpk) as (items & Hit & Hr1).
  simpl in Hit. injection Hit as <-.
  apply setattr_state_Ok in Hf as (c & d & Hr & _ & Hf & _); [|done|done].
  rewrite Hr1 in Hr. injection Hr as <- <-.
  destruct (truthy (heap w9) (default (c_auth (classes E cls)) auth)).
  - apply setattr_state_Ok in Ha as (c' & d' & Hr & _ & Ha & _); [|done|done].
    rewrite Hf in Hr. injection Hr as <- <-.
    eexists. split; [exact Ha|].
    rewrite !lookup_insert_ne by done. apply lookup_insert_eq.
  - unfold ret in Ha. injection Ha as _ <-.
    eexists. split; [exact Hf|].
    rewrite lookup_insert_ne by done. apply lookup_insert_eq.
Qed.

Lemma eq_instances E rec a b w ca da cb db ia w1 ib w2 :
  heap w !! a = Some (OModel ca da) ->
  heap w !! b = Some (OModel cb db) ->
  prop rec a "_id" (_id E rec a) ret w = Ok ia w1 ->
  prop rec b "_id" (_id E rec b) ret w1 = Ok ib w2 ->
  is_instance_ref ia = false -> is_instance_ref ib = false ->
  __eq__ E rec a (VRef b) w
  = if issubclass E cb ca then Ok (value_eqb ia ib) w2 else Ok false w.
Proof.
  intros Ha Hb Hia Hib Hna Hnb. unfold __eq__.
  rewrite (bind_Ok _ _ _ _ _ (instance_Ok _ _ _ _ Ha)).
  unfold bind at 1, get_heap. simpl. rewrite Hb.
  destruct (issubclass E cb ca); [|done].
  rewrite (bind_Ok _ _ _ _ _ Hia), (bind_Ok _ _ _ _ _ Hib).
  by destruct ia, ib.
Qed.

Lemma issubclass_refl E c : issubclass E c c = true.
Proof. unfold issubclass. by rewrite bool_decide_eq_true_2. Qed.

Lemma eq_other_type E rec a b w ca da cb db :
  heap w !! a = Some (OModel ca da) ->
  heap w !! b = Some (OModel cb db) ->
  issubclass E cb ca = false ->
  __eq__ E rec a (VRef b) w = Ok false w.
Proof.
  intros Ha Hb Hsub. unfold __eq__.
  rewrite (bind_Ok _ _ _ _ _ (instance_Ok _ _ _ _ Ha)).
  unfold bind, get_heap. simpl. by rewrite Hb, Hsub.
Qed.

(** [a == b] between two instances, in terms of their classes and of
    their [_id]s. *)
Lemma py_eq_instances E rec a b w ca da cb db ia w1 ib w2 :
  heap w !! a = Some (OModel ca da) ->
  heap w !! b = Some (OModel cb db) ->
  (issubclass E cb ca = true -> issubclass E ca cb = true -> ca = cb) ->
  prop rec a "_id" (_id E rec a) ret w = Ok ia w1 ->
  prop rec b "_id" (_id E rec b) ret w1 = Ok ib w2 ->
  is_instance_ref ia = false -> is_instance_ref ib = false ->
  py_eq E (ops_step E rec) (VRef a) (VRef b) w
  = if bool_decide (ca = cb) then Ok (value_eqb ia ib) w2 else Ok false w.
Proof.
  intros Ha Hb Hacyc Hia Hib Hna Hnb. unfold py_eq, bind, get_heap.
  rewrite Ha, Hb. simpl o_eq.
  destruct (bool_decide (ca = cb)) eqn:Hc; simpl.
  - apply bool_decide_eq_true in Hc. subst cb.
    rewrite (eq_instances E rec a b w ca da ca db ia w1 ib w2 Ha Hb Hia Hib Hna Hnb).
    by rewrite issubclass_refl.
  - apply bool_decide_eq_false in Hc.
    destruct (issubclass E cb ca) eqn:Hsub.
    + apply (eq_other_type E rec b a w cb db ca da Hb Ha).
      destruct (issubclass E ca cb) eqn:Hsub'; [|done].
      by destruct Hc; apply Hacyc.
    + by apply (eq_other_type E rec a b w ca da cb db Ha Hb).
Qed.

(** C7.  Two instances compare equal with [==] exactly when they are of
    the same resource type and their final primary-key components
    ([_id]) are equal.  When the class of the right instance is a proper
    subclass of the class of the left one, Python asks the right
    instance, whose [isinstance] test fails; in every other case of
    different classes the test of the left instance fails: a type and its
    subtype do not compare equal, in either order, and the keys are not
    even evaluated.  For instances with bound key tuples only the last
    components are compared, so two instances of one type whose tuples
    end alike are equal, and such are the instances [read] returns for
    the same key.  The class hierarchy is taken to have no cycle. *)
Theorem eq_by_type_and_id E rec a b w ca da cb db ia w1 ib w2 :
  let top := ops_step E rec in
  heap w !! a = Some (OModel ca da) ->
  heap w !! b = Some (OModel cb db) ->
  (issubclass E cb ca = true -> issubclass E ca cb = true -> ca = cb) ->
  prop rec a "_id" (_id E rec a) ret w = Ok ia w1 ->
  prop rec b "_id" (_id E rec b) ret w1 = Ok ib w2 ->
  is_instance_ref ia = false ->
  is_instance_ref ib = false ->
  (py_eq E top (VRef a) (VRef b) w
   = if bool_decide (ca = cb) then Ok (value_eqb ia ib) w2 else Ok false w)
  /\ (forall res w', py_eq E top (VRef a) (VRef b) w = Ok res w' ->
        (res = true <-> ca = cb /\ value_eqb ia ib = true))
  /\ (forall xs ys k,
        da !! "_Model__pk_vals" = Some (VTuple (xs ++ [k])) ->
        db !! "_Model__pk_vals" = Some (VTuple (ys ++ [k])) ->
        ia = k /\ ib = k
        /\ (ca = cb -> value_eqb k k = true ->
            py_eq E top (VRef a) (VRef b) w = Ok true w))
  /\ (forall cls args parent auth w0 r w',
        read E rec cls args parent auth w0 = Ok (VRef r) w' ->
        exists d, heap w' !! r = Some (OModel cls d)
                  /\ d !! "_Model__pk_vals" = Some (VTuple args)).
Proof.
  intros top Ha Hb Hacyc Hia Hib Hna Hnb.
  pose proof (py_eq_instances E rec a b w ca da cb db ia w1 ib w2
                Ha Hb Hacyc Hia Hib Hna Hnb) as Heq.
  fold top in Heq.
  split; [exact Heq|]. split; [|split].
  - intros res w' H. rewrite Heq in H.
    destruct (bool_decide (ca = cb)) eqn:Hc.
    + apply bool_decide_eq_true in Hc.
      injection H as <- _. split; [by intros ->|by intros [_ ->]].
    + apply bool_decide_eq_false in Hc.
      injection H as <- _. split; [done|by intros [? _]].
  - intros xs ys k Hda Hdb.
    rewrite (prop_Ok _ _ _ _ _ _ _ _ (id_of_bound_tuple E rec a ca da xs k w Ha Hda))
      in Hia.
    injection Hia as <- <-.
    rewrite (prop_Ok _ _ _ _ _ _ _ _ (id_of_bound_tuple E rec b cb db ys k w Hb Hdb))
      in Hib.
    injection Hib as <- <-.
    split; [done|]. split; [done|].
    intros Hc Hk. rewrite Heq, bool_decide_eq_true_2 by done. by rewrite Hk.
  - intros cls args parent auth w0 r w'. apply read_binds.
Qed.

Lemma eq_by_type_and_id_witness :
  let E := shop_api in
  let top := ops E 3 in
  (py_eq E top (VRef 0) (VRef 1) two_items = Ok false two_items)
  /\ (forall res w', py_eq E top (VRef 0) (VRef 1) two_items = Ok res w' ->
        (res = true <-> 0%nat = 1%nat /\ value_eqb (VStr "42") (VStr "42") = true)).
Proof.
  intros E top.
  pose proof (eq_by_type_and_id E (ops E 2) 0 1 two_items
                0 (<["_changed" := VSet ∅]>
                     (<["id" := VStr "42"]> (<["_parent" := VNone]> ∅)))
                1 (<["_changed" := VSet ∅]>
                     (<["id" := VStr "42"]> (<["_parent" := VNone]> ∅)))
                (VStr "42") two_items (VStr "42") two_items) as H.
  cbv zeta in H.
  assert (Hacyc : issubclass E 1 0 = true -> issubclass E 0 1 = true -> 0%nat = 1%nat)
    by (intros _ H01; vm_compute in H01; discriminate).
  specialize (H eq_refl eq_refl Hacyc).
  evaluate_premises H.
  destruct H as (H1 & H2 & _). split; [exact H1|exact H2].
Defined.

(** The method alone admits an instance of a subtype; the operator does
    not reach it that way. *)
Example subtype_equality :
  let E := shop_api in
  __eq__ E (ops E 2) 0 (VRef 1) two_items = Ok true two_items
  /\ py_eq E (ops E 3) (VRef 0) (VRef 1) two_items = Ok false two_items
  /\ py_eq E (ops E 3) (VRef 1) (VRef 0) two_items = Ok false two_items.
Proof. repeat split; vm_compute; reflexivity. Qed.

Example read_twice_equal :
  let E := shop_api in
  let rec := ops E 2 in
  let w1 := world_of (read E rec 0 [VStr "42"] None None empty_world) in
  let w2 := world_of (read E rec 0 [VStr "42"] None None w1) in
  read E rec 0 [VStr "42"] None None empty_world = Ok (VRef 0) w1
  /\ read E rec 0 [VStr "42"] None None w1 = Ok (VRef 1) w2
  /\ py_eq E (ops E 3) (VRef 0) (VRef 1) w2 = Ok true w2.
Proof. repeat split; vm_compute; reflexivity. Qed.

(** ** Foreign relations *)

(** When the target class does not bind [get], the referenced branch of
    [Foreign.__get__] stops at the lookup of [self.__model.get]: no key
    is extracted, nothing is read, nothing is cached. *)
Lemma Foreign_get_without_get E rec dsc f r w :
  cache w !! (dsc, r) = None ->
  foreign_embedded f = false ->
  c_get_alias (classes E (f_model f)) = false ->
  Foreign_get E rec dsc f (Some r) w = Raise AttributeError w.
Proof.
  intros Hc He Hg. unfold Foreign_get.
  unfold bind at 1, cache_get at 1. rewrite Hc, He, Hg. reflexivity.
Qed.

(** C5 on the code: the relation [author] of a [Book], whose target
    [Author] is a plain resource type with [read] and no [get], is not
    resolved.  The descriptor raises AttributeError before it extracts a
    key: [read] is not called and nothing is cached.  Python hands that
    error to [__getattr__], which fetches the owner, with one GET at the
    path of the book, and retries; the descriptor fails again and the
    access ends with AttributeError.  No instance of [Author] exists
    afterwards and no request for an author was sent. *)
Theorem referenced_foreign_fails :
  Foreign_get library (ops library 4) 0 (mkForeign 1 (Some "author_id") None false)
              (Some 0%nat) one_book
  = Raise AttributeError one_book
  /\ exists w',
       getattr library (ops library 4) 0 "author" one_book = Raise AttributeError w'
       /\ log w' = [mkRequest "get" "/books/1" (mkKwargs (Some (VAuth 1)) None)]
       /\ is_fetched w' 0
       /\ length (heap w') = 1%nat
       /\ cache w' = ∅.
Proof.
  split; [vm_compute; reflexivity|].
  eexists. split; [vm_compute; reflexivity|].
  split; [reflexivity|]. split; [|split; reflexivity].
  eexists _, _. split; [reflexivity|]. vm_compute. reflexivity.
Qed.

Example referenced_foreign_with_get :
  let w := world_of (getattr library (ops library 3) 0 "writer" one_book) in
  getattr library (ops library 3) 0 "writer" one_book = Ok (VRef 1) w
  /\ log w = [mkRequest "get" "/authors/7" (mkKwargs (Some (VAuth 1)) None)]
  /\ cache w !! (2%nat, 0%nat) = Some (VRef 1).
Proof. repeat split; vm_compute; reflexivity. Qed.

Example embedded_foreign :
  let w := world_of (getattr library (ops library 3) 0 "publisher" one_book) in
  getattr library (ops library 3) 0 "publisher" one_book = Ok (VRef 1) w
  /\ log w = []
  /\ heap w !! 1%nat
     = Some (OModel 2 (<["_pyresto_owner" := VRef 0]>
                        (<["_auth" := VAuth 1]>
                          (<["_changed" := VSet ∅]>
                            (<["name" := VStr "x"]> (<["_parent" := VNone]> ∅)))))).
Proof. repeat split; vm_compute; reflexivity. Qed.

(** ** PATCH updates *)

Lemma store_update_lookup_notin (items : list (string * value)) d k :
  k ∉ items.*1 -> store_update d items !! k = d !! k.
Proof.
  unfold store_update. revert d.
  induction items as [|[k' v] items IH]; intros d Hk; [done|].
  simpl in *. apply not_elem_of_cons in Hk as [Hne Hk].
  rewrite IH by done. by apply lookup_insert_ne.
Qed.

Lemma pick_list d (l : list string) :
  (forall k, k ∈ l -> is_Some (d !! k)) ->
  pick d (VStr <$> l) = inr (filter (fun kv => kv.1 ∈ l) d).
Proof.
  induction l as [|k l IH]; intros Hl; simpl in *.
  - f_equal. symmetry. apply map_empty. intros i.
    apply map_lookup_filter_None. right. intros x _ Hin. simpl in Hin.
    by apply not_elem_of_nil in Hin.
  - destruct (Hl k) as [v Hv]; [by left|]. rewrite Hv.
    assert (IH' : pick d (list_fmap string value VStr l)
                  = inr (filter (fun kv => kv.1 ∈ l) d))
      by (apply IH; intros k' Hk'; apply Hl; by right).
    rewrite IH'. f_equal.
    apply map_eq. intros j. apply option_eq. intros x.
    rewrite lookup_insert_Some, !map_lookup_filter_Some. simpl.
    split.
    + intros [[<- <-]|(Hne & Hj & Hin)]; split; try done; set_solver.
    + intros [Hj Hin]. destruct (decide (k = j)) as [<-|Hne].
      * left. split; [done|congruence].
      * right. repeat split; try done. set_solver.
Qed.

Lemma pick_set d (sel : gset string) :
  (forall k, k ∈ sel -> is_Some (d !! k)) ->
  pick d (VStr <$> elements sel) = inr (restrict sel d).
Proof.
  intros Hs. rewrite pick_list by (intros k Hk; apply Hs; set_solver).
  f_equal. unfold restrict. apply map_filter_ext. intros i x _. simpl.
  set_solver.
Qed.

Lemma dom_restrict d (sel : gset string) :
  (forall k, k ∈ sel -> is_Some (d !! k)) ->
  dom (restrict sel d) = sel.
Proof.
  intros Hs. unfold restrict. apply dom_filter_L. intros i. split.
  - intros Hi. destruct (Hs i Hi) as [x Hx]. by exists x.
  - by intros (x & _ & Hi).
Qed.

Lemma patch_keys_changed keys ch : patch_keys keys ch ⊆ ch.
Proof.
  unfold patch_keys. destruct keys; try done.
  case_bool_decide; set_solver.
Qed.

Lemma assert_instance_Ok E cls r c d w :
  heap w !! r = Some (OModel c d) ->
  issubclass E c cls = true ->
  assert_class_instance E cls (VRef r) w = Ok r w.
Proof.
  intros Hr Hc. unfold assert_class_instance, bind, get_heap. simpl.
  by rewrite Hr, Hc.
Qed.

(** The run of [update_with_patch] on an instance whose path is computed
    and whose request is answered with a mapping. *)
Lemma patch_run E fuel cls r keys k auth w c d ch a path w1 d1 body resp next w2 items :
  let rec := ops E fuel in
  let sel := patch_keys keys ch in
  heap w !! r = Some (OModel c d) ->
  issubclass E c cls = true ->
  normalize_auth E cls (VRef r) auth w = Ok a w ->
  d !! "_changed" = Some (VSet ch) ->
  keys = VNone \/ keys = VSet k ->
  (forall key, key ∈ sel -> is_Some (d !! key)) ->
  prop rec r "_current_path" (_current_path E rec r) string_of w = Ok path w1 ->
  heap w1 !! r = Some (OModel c d1) ->
  d1 !! "_changed" = Some (VSet ch) ->
  c_serializer (classes E cls) (restrict sel d) = inr body ->
  _rest_call E rec cls path "PATCH" true (mkKwargs (Some a) (Some body)) w1
    = Ok (resp, next) w2 ->
  update_items resp = inr items ->
  "_changed" ∉ items.*1 ->
  update_with_patch E rec cls (VRef r) keys auth w
  = Ok (VRef r)
       (set_heap (<[r := OModel c (<["_changed" := VSet (ch ∖ sel)]>
                                   (store_update d1 items))]> (heap w2)) w2).
Proof.
  intros rec sel Hr Hsub Ha Hch Hkeys Hpresent Hp Hr1 Hch1 Hser Hc Hitems Hnot.
  destruct (rest_call_heap _ _ _ _ _ _ _ _ _ _ Hc) as [Hh _].
  unfold update_with_patch.
  rewrite (bind_Ok _ _ _ _ _ Ha).
  rewrite (bind_Ok _ _ _ _ _ (assert_instance_Ok E cls r c d w Hr Hsub)).
  rewrite (bind_Ok _ _ _ _ _ (instance_Ok _ _ _ _ Hr)). simpl.
  assert (Hst : state (classes E c) d "_changed" = VSet ch)
    by (unfold state; by rewrite Hch).
  unfold bind at 1, get_heap. rewrite !Hst.
  match goal with
  | |- bind ?m _ _ = _ =>
      assert (Hsel : m w = Ok (VSet sel) w)
        by (unfold sel, patch_keys; destruct Hkeys as [-> | ->]; simpl;
            [done|by case_bool_decide])
  end.
  rewrite (bind_Ok _ _ _ _ _ Hsel). simpl py_iter. simpl lift at 1. rewrite bind_ret.
  rewrite (pick_set d sel Hpresent). simpl lift at 1. rewrite bind_ret.
  rewrite (bind_Ok _ _ _ _ _ Hp). rewrite Hser. simpl lift at 1. rewrite bind_ret.
  rewrite (bind_Ok _ _ _ _ _ Hc). simpl. rewrite Hitems. simpl lift. rewrite bind_ret.
  rewrite <- Hh in Hr1.
  rewrite (bind_Ok _ _ _ _ _ (instance_Ok _ _ _ _ Hr1)). simpl.
  rewrite (bind_Ok _ _ _ _ _ (set_dict_Ok _ _ _ _ _ Hr1)).
  pose proof (lookup_set_heap r _ (OModel c (store_update d1 items)) w2 Hr1) as Hr2.
  rewrite (bind_Ok _ _ _ _ _ (instance_Ok _ _ _ _ Hr2)). simpl.
  unfold state. rewrite (store_update_lookup_notin items d1 "_changed" Hnot), Hch1.
  unfold bind. rewrite setattr_state by done. rewrite Hr2.
  unfold ret. by rewrite set_heap_twice.
Qed.

(** When the answer is a mapping the update behaves as intended.  A
    PATCH update of an instance whose changed names are in its
    store sends one PATCH request whose body is the serialization of the
    store restricted to [sel], the caller's key set (all the changed names
    when the caller gives none) intersected with the changed names: the
    payload has exactly these keys, so no untouched field is sent.  When
    the answer is a mapping it is merged into the store, and [sel] is
    removed from the changed names. *)
Lemma patch_sends_changed_keys E fuel cls r keys k auth w c d ch a path w1 d1
    body resp next w2 items :
  let rec := ops E fuel in
  let sel := patch_keys keys ch in
  let kw := mkKwargs (Some a) (Some body) in
  heap w !! r = Some (OModel c d) ->
  issubclass E c cls = true ->
  normalize_auth E cls (VRef r) auth w = Ok a w ->
  d !! "_changed" = Some (VSet ch) ->
  keys = VNone \/ keys = VSet k ->
  (forall key, key ∈ sel -> is_Some (d !! key)) ->
  prop rec r "_current_path" (_current_path E rec r) string_of w = Ok path w1 ->
  heap w1 !! r = Some (OModel c d1) ->
  d1 !! "_changed" = Some (VSet ch) ->
  c_serializer (classes E cls) (restrict sel d) = inr body ->
  _rest_call E rec cls path "PATCH" true kw w1 = Ok (resp, next) w2 ->
  update_items resp = inr items ->
  "_changed" ∉ items.*1 ->
  update_with_patch E rec cls (VRef r) keys auth w
  = Ok (VRef r)
       (set_heap (<[r := OModel c (<["_changed" := VSet (ch ∖ sel)]>
                                   (store_update d1 items))]> (heap w2)) w2)
  /\ (exists reqs, log w2 = log w1 ++ issued E cls kw "PATCH" path :: reqs)
  /\ dom (restrict sel d) = sel
  /\ sel ⊆ ch
  /\ (forall k', keys = VSet k' -> k' <> ∅ -> sel = k' ∩ ch)
  /\ (keys = VNone \/ keys = VSet ∅ -> sel = ch).
Proof.
  intros rec sel kw Hr Hsub Ha Hch Hkeys Hpresent Hp Hr1 Hch1 Hser Hc Hitems Hnot.
  split; [by eapply patch_run|].
  split; [by eapply rest_call_first_request|].
  split; [by apply dom_restrict|].
  split; [apply patch_keys_changed|]. split.
  - intros k' -> Hne. unfold sel, patch_keys. by rewrite bool_decide_eq_false_2.
  - intros [-> | ->]; [done|]. unfold sel, patch_keys.
    by rewrite bool_decide_eq_true_2.
Qed.

Lemma patch_sends_changed_keys_witness :
  let E := item_api "{name}" in
  let w1 := world_of (_current_path E (ops E 2) 0 one_edited_item) in
  let sel := patch_keys (VSet {["name"]}) {["name"; "color"]} in
  update_with_patch E (ops E 2) 0 (VRef 0) (VSet {["name"]}) None one_edited_item
  = Ok (VRef 0)
       (set_heap (<[0%nat := OModel 0 (<["_changed" := VSet ({["name"; "color"]} ∖ sel)]>
                                     (store_update edited_store_seen
                                                   [("name", VStr "x")]))]>
                    (heap (set_log [patch_name] w1)))
                 (set_log [patch_name] w1))
  /\ dom (restrict sel edited_store) = sel.
Proof.
  intros E w1 sel.
  pose proof (patch_sends_changed_keys E 2 0 0 (VSet {["name"]}) {["name"]} None
                one_edited_item 0 edited_store {["name"; "color"]} VNone
                "/items/42/" w1 edited_store_seen "name"
                (VDict [("name", VStr "x")]) None (set_log [patch_name] w1)
                [("name", VStr "x")]) as H.
  cbv zeta in H. evaluate_premises H.
  specialize (H (or_intror eq_refl)).
  assert (Hp : set_Forall (fun key => is_Some (edited_store !! key)) sel)
    by (apply (bool_decide_unpack _); vm_compute; exact I).
  specialize (H Hp). evaluate_premises H.
  exact (conj (proj1 H) (proj1 (proj2 (proj2 H)))).
Defined.

Example patch_one_of_two :
  let E := item_api "{name}" in
  let out := update_with_patch E (ops E 2) 0 (VRef 0) (VSet {["name"]}) None
                               one_edited_item in
  log (world_of out) = [patch_name]
  /\ (exists d3, heap (world_of out) !! 0%nat = Some (OModel 0 d3)
                 /\ d3 !! "_changed" = Some (VSet {["color"]})
                 /\ d3 !! "name" = Some (VStr "x")
                 /\ d3 !! "color" = Some (VStr "red")).
Proof.
  split; [vm_compute; reflexivity|].
  eexists. split; [vm_compute; reflexivity|].
  repeat split; vm_compute; reflexivity.
Qed.

Lemma rest_call_empty_answer E rec cls url method kw a w resp :
  kw_auth kw = Some a ->
  method ∈ ALLOWED_HTTP_METHODS ->
  transport E (log w) (issued E cls kw method url) = inr resp ->
  success resp = true ->
  text resp = EmptyString ->
  c_continuator (classes E cls) resp = None ->
  _rest_call E rec cls url method true kw w
  = Ok (VNone, None) (set_log (log w ++ [issued E cls kw method url]) w).
Proof.
  intros Ha Hm Ht Hs Hb Hc. unfold _rest_call.
  assert (Hi : inject_auth E cls kw w = Ok kw w).
  { unfold inject_auth. rewrite Ha. by destruct (c_auth (classes E cls)). }
  rewrite (bind_Ok _ _ _ _ _ Hi), bool_decide_eq_true_2 by done.
  fold (issued E cls kw method url).
  unfold bind at 1, request. rewrite Ht, Hs, Hc, Hb. reflexivity.
Qed.

(** C3 on the code.  A PATCH update that the server answers with a
    success status and an empty body does not end as the claim says.
    [_rest_call] returns None for the empty body, [__dict__.update(None)]
    raises TypeError after the request has been sent, and the removal of
    the sent keys is not reached: the update raises, the instance is as
    it was when the request was sent, and the names sent are still among
    its changed names. *)
Theorem patch_empty_answer_keeps_changed
    E rec cls r keys k auth w c d ch a path w1 d1 body resp :
  let sel := patch_keys keys ch in
  let kw := mkKwargs (Some a) (Some body) in
  let req := issued E cls kw "PATCH" path in
  let w2 := set_log (log w1 ++ [req]) w1 in
  heap w !! r = Some (OModel c d) ->
  issubclass E c cls = true ->
  normalize_auth E cls (VRef r) auth w = Ok a w ->
  d !! "_changed" = Some (VSet ch) ->
  keys = VNone \/ keys = VSet k ->
  (forall key, key ∈ sel -> is_Some (d !! key)) ->
  prop rec r "_current_path" (_current_path E rec r) string_of w = Ok path w1 ->
  heap w1 !! r = Some (OModel c d1) ->
  d1 !! "_changed" = Some (VSet ch) ->
  c_serializer (classes E cls) (restrict sel d) = inr body ->
  transport E (log w1) req = inr resp ->
  success resp = true ->
  text resp = EmptyString ->
  c_continuator (classes E cls) resp = None ->
  update_with_patch E rec cls (VRef r) keys auth w = Raise TypeError w2
  /\ log w2 = log w1 ++ [req]
  /\ heap w2 !! r = Some (OModel c d1)
  /\ sel ⊆ ch.
Proof.
  intros sel kw req w2 Hr Hsub Ha Hch Hkeys Hpresent Hp Hr1 Hch1 Hser Ht Hs Hb Hc.
  split; [|split; [done|split; [done|apply patch_keys_changed]]].
  assert (Hm : "PATCH" ∈ ALLOWED_HTTP_METHODS)
    by (apply (bool_decide_unpack _); vm_compute; exact I).
  pose proof (rest_call_empty_answer E rec cls path "PATCH" kw a w1 resp
                eq_refl Hm Ht Hs Hb Hc) as Hcall.
  unfold update_with_patch.
  rewrite (bind_Ok _ _ _ _ _ Ha).
  rewrite (bind_Ok _ _ _ _ _ (assert_instance_Ok E cls r c d w Hr Hsub)).
  rewrite (bind_Ok _ _ _ _ _ (instance_Ok _ _ _ _ Hr)). simpl.
  assert (Hst : state (classes E c) d "_changed" = VSet ch)
    by (unfold state; by rewrite Hch).
  unfold bind at 1, get_heap. rewrite !Hst.
  match goal with
  | |- bind ?m _ _ = _ =>
      assert (Hsel : m w = Ok (VSet sel) w)
        by (unfold sel, patch_keys; destruct Hkeys as [-> | ->]; simpl;
            [done|by case_bool_decide])
  end.
  rewrite (bind_Ok _ _ _ _ _ Hsel). simpl py_iter. simpl lift at 1. rewrite bind_ret.
  rewrite (pick_set d sel Hpresent). simpl lift at 1. rewrite bind_ret.
  rewrite (bind_Ok _ _ _ _ _ Hp). rewrite Hser. simpl lift at 1. rewrite bind_ret.
  rewrite (bind_Ok _ _ _ _ _ Hcall). reflexivity.
Qed.

Lemma patch_empty_answer_keeps_changed_witness :
  let E := item_api EmptyString in
  let w1 := world_of (_current_path E (ops E 2) 0 one_edited_item) in
  let w2 := set_log (log w1 ++ [patch_name]) w1 in
  update_with_patch E (ops E 2) 0 (VRef 0) (VSet {["name"]}) None one_edited_item
  = Raise TypeError w2
  /\ heap w2 !! 0%nat = Some (OModel 0 edited_store_seen)
  /\ edited_store_seen !! "_changed" = Some (VSet {["name"; "color"]}).
Proof.
  intros E w1 w2.
  pose proof (patch_empty_answer_keeps_changed E (ops E 2) 0 0 (VSet {["name"]})
                {["name"]} None one_edited_item 0 edited_store {["name"; "color"]}
                VNone "/items/42/" w1 edited_store_seen "name"
                (mkResponse 200 EmptyString [])) as H.
  cbv zeta in H. evaluate_premises H.
  specialize (H (or_intror eq_refl)).
  assert (Hp : set_Forall (fun key => is_Some (edited_store !! key))
                 (patch_keys (VSet {["name"]}) {["name"; "color"]}))
    by (apply (bool_decide_unpack _); vm_compute; exact I).
  specialize (H Hp). evaluate_premises H.
  split; [exact (proj1 H)|]. split; [exact (proj1 (proj2 (proj2 H)))|].
  vm_compute. reflexivity.
Defined.

(** ** The changed names *)

Lemma clean_insert_ne key v d :
  key <> "_changed" -> clean d -> clean (<[key := v]> d).
Proof.
  intros Hne (s & Hs & Hk). exists s. split; [|done].
  by rewrite lookup_insert_ne.
Qed.

Lemma clean_insert_set (s : gset string) d :
  (forall k, k ∈ s -> startswith_underscore k = false) ->
  clean (<["_changed" := VSet s]> d).
Proof. intros Hs. exists s. split; [apply lookup_insert_eq|done]. Qed.

Lemma clean_store_update items d :
  "_changed" ∉ items.*1 -> clean d -> clean (store_update d items).
Proof.
  intros Hn (s & Hs & Hk). exists s. split; [|done].
  by rewrite store_update_lookup_notin.
Qed.

Lemma clean_not_reserved d : clean d -> ~ reserved_in_changed d.
Proof.
  intros (s & Hs & Hk) (l & k & Hl & Hin & Hu).
  rewrite Hs in Hl. simpl in Hl. injection Hl as <-.
  apply list_elem_of_fmap in Hin as (k' & [= <-] & Hin).
  apply elem_of_elements in Hin. rewrite (Hk k Hin) in Hu. discriminate.
Qed.

Lemma keeps_instance r : keeps all_clean (instance r) (fun cd => clean cd.2).
Proof.
  intros w Hw. unfold instance.
  destruct (heap w !! r) as [[c d| |]|] eqn:Hr; try done.
  split; [done|]. by eapply Hw.
Qed.

Lemma all_clean_insert w r c d :
  all_clean w -> clean d -> all_clean (set_heap (<[r := OModel c d]> (heap w)) w).
Proof.
  intros Hw Hd r' c' d' Hr'. simpl in Hr'.
  destruct (decide (r = r')) as [<-|Hne].
  - destruct (decide (r < length (heap w))%nat) as [Hlt|Hge].
    + rewrite list_lookup_insert_eq in Hr' by done. by injection Hr' as <- <-.
    + rewrite list_insert_ge in Hr' by lia. by eapply Hw.
  - rewrite list_lookup_insert_ne in Hr' by done. by eapply Hw.
Qed.

Lemma keeps_set_dict r d : clean d -> keeps all_clean (set_dict r d) any.
Proof.
  intros Hd w Hw. unfold set_dict.
  destruct (heap w !! r) as [[c d0| |]|] eqn:Hr; try done.
  split; [|done]. by apply all_clean_insert.
Qed.

Lemma all_clean_alloc w o :
  all_clean w -> (forall c d, o = OModel c d -> clean d) ->
  all_clean (set_heap (heap w ++ [o]) w).
Proof.
  intros Hw Ho r c d Hr. simpl in Hr.
  apply lookup_app_Some in Hr as [Hr|[_ Hr]]; [by eapply Hw|].
  apply list_lookup_singleton_Some in Hr as [_ ->]. by eapply Ho.
Qed.

Lemma keeps_alloc o :
  (forall c d, o = OModel c d -> clean d) -> keeps all_clean (alloc o) any.
Proof. intros Ho w Hw. split; [|done]. by apply all_clean_alloc. Qed.

Lemma keeps_request E req : keeps all_clean (request E req) any.
Proof. intros w Hw. unfold request. by destruct (transport E (log w) req). Qed.

Lemma keeps_request_answer E req :
  keeps all_clean (request E req)
        (fun resp => exists l req', transport E l req' = inr resp).
Proof.
  intros w Hw. unfold request.
  destruct (transport E (log w) req) eqn:Ht; [done|]. split; [done|]. eauto.
Qed.

Lemma keeps_cache_get d r : keeps all_clean (cache_get d r) any.
Proof. intros w Hw. by split. Qed.

Lemma keeps_cache_set d r v : keeps all_clean (cache_set d r v) any.
Proof. intros w Hw. by split. Qed.

Lemma keeps_any {A} I (m : M A) (Q : A -> Prop) : keeps I m Q -> keeps I m any.
Proof. intros H. eapply keeps_weaken; [exact H|done]. Qed.

(** *** Payloads that do not name [_changed] *)

Lemma as_pairs_app l l' items :
  as_pairs (l ++ l') = inr items ->
  exists i1 i2, as_pairs l = inr i1 /\ as_pairs l' = inr i2 /\ items = i1 ++ i2.
Proof.
  revert items. induction l as [|v l IH]; intros items H; simpl in *.
  - by exists [], items.
  - destruct (as_pair v) as [e|p]; [done|].
    destruct (as_pairs (l ++ l')) as [e|ps]; [done|].
    injection H as <-. destruct (IH ps eq_refl) as (i1 & i2 & -> & -> & ->).
    by exists (p :: i1), i2.
Qed.

Lemma as_pairs_strings l items :
  Forall is_string l -> as_pairs l = inr items -> "_changed" ∉ items.*1.
Proof.
  intros Hl. revert items. induction Hl as [|v l [s ->] Hl IH]; intros items H; simpl in *.
  - injection H as <-. apply not_elem_of_nil.
  - destruct s as [|a [|b [|c s]]]; try done.
    destruct (as_pairs l) as [e|ps]; [done|]. injection H as <-.
    simpl. apply not_elem_of_cons. split; [done|]. by apply IH.
Qed.

Lemma chars_strings s : Forall is_string (chars s).
Proof. induction s; simpl; constructor; [by eexists|done]. Qed.

Lemma fmap_strings (l : list string) : Forall is_string (VStr <$> l).
Proof. induction l; simpl; constructor; [by eexists|done]. Qed.

Lemma payload_ok_iter b l' i2 :
  payload_ok b -> py_iter b = inr l' -> as_pairs l' = inr i2 -> "_changed" ∉ i2.*1.
Proof.
  intros Hb Hit Hi2. destruct b; simpl in Hit; try done; injection Hit as <-.
  - eapply as_pairs_strings; [apply chars_strings|done].
  - by apply Hb.
  - eapply as_pairs_strings; [apply fmap_strings|done].
  - by apply Hb.
  - eapply as_pairs_strings; [apply fmap_strings|done].
Qed.

Lemma payload_ok_string s : payload_ok (VStr s).
Proof. intros items H. simpl in H. eapply as_pairs_strings; [apply chars_strings|done]. Qed.

Lemma payload_ok_seq l l' :
  (forall i, as_pairs l = inr i -> "_changed" ∉ i.*1) ->
  (forall i, as_pairs l' = inr i -> "_changed" ∉ i.*1) ->
  forall items, as_pairs (l ++ l') = inr items -> "_changed" ∉ items.*1.
Proof.
  intros H1 H2 items H. apply as_pairs_app in H as (i1 & i2 & E1 & E2 & ->).
  rewrite fmap_app. apply not_elem_of_app. split; [by apply H1|by apply H2].
Qed.

Lemma payload_ok_iadd a b c :
  payload_ok a -> payload_ok b -> py_iadd a b = inr c -> payload_ok c.
Proof.
  intros Ha Hb H. destruct a; simpl in H; try done.
  - destruct (int_of b); [|done]. injection H as <-. by intros items Hi.
  - destruct (int_of b); [|done]. injection H as <-. by intros items Hi.
  - destruct b; try done. injection H as <-. apply payload_ok_string.
  - destruct (py_iter b) as [e|l'] eqn:Hit; [done|]. injection H as <-.
    intros items Hi. simpl in Hi. revert items Hi. apply payload_ok_seq.
    + intros i Hi. by apply Ha.
    + intros i Hi. by eapply payload_ok_iter.
  - destruct b; try done. injection H as <-.
    intros items Hi. simpl in Hi. revert items Hi. apply payload_ok_seq.
    + intros i Hi. by apply Ha.
    + intros i Hi. by apply Hb.
Qed.

Lemma payload_ok_None : payload_ok VNone.
Proof. by intros items H. Qed.

(** The names [set(data)] offers to the renaming include [_changed] only
    when the merge writes it. *)
Lemma hashable_names_fmap (l : list string) : hashable_names (VStr <$> l) = inr l.
Proof. induction l as [|k l IH]; [done|]. simpl. fold (VStr <$> l). by rewrite IH. Qed.

Lemma names_of_pairs l items given :
  as_pairs l = inr items -> hashable_names l = inr given -> "_changed" ∉ given.
Proof.
  revert items given. induction l as [|v l IH]; intros items given Hp Hn; simpl in *.
  - injection Hn as <-. apply not_elem_of_nil.
  - destruct (as_pair v) as [e|p] eqn:Hv; [done|].
    destruct (as_pairs l) as [e|ps]; [done|].
    specialize (IH ps).
    destruct v; try done;
      destruct (hashable_names l) as [e|ns]; try done; injection Hn as <-;
      try (by eapply IH).
    apply not_elem_of_cons. split; [|by eapply IH].
    intros <-. simpl in Hv. done.
Qed.

Lemma names_of_payload data items given :
  payload_ok data -> update_items data = inr items -> names_of data = inr given ->
  "_changed" ∉ given.
Proof.
  intros Hd Hi Hn. unfold names_of in Hn.
  destruct data; simpl in Hi, Hn; try done.
  - eapply names_of_pairs; eauto.
  - eapply names_of_pairs; eauto.
  - injection Hi as <-. rewrite hashable_names_fmap in Hn. injection Hn as <-.
    by apply Hd.
  - eapply names_of_pairs; eauto.
  - eapply names_of_pairs; eauto.
Qed.

Lemma clean_rename_overlaps body given d d' :
  "_changed" ∉ given -> clean d -> rename_overlaps body given d = inr d' -> clean d'.
Proof.
  intros Hg. revert d. induction body as [|[item a] body IH]; intros d Hd H; simpl in H.
  - by injection H as <-.
  - destruct (bool_decide (item ∈ given)) eqn:Hin; [|by eapply IH].
    apply bool_decide_eq_true in Hin.
    destruct (overlap_is_model a) as [e|[]]; [done| |by eapply IH].
    destruct (d !! item) as [v|] eqn:Hv; [|done].
    eapply IH; [|done]. destruct Hd as (s & Hs & Hk). exists s. split; [|done].
    rewrite lookup_insert_ne by done.
    rewrite lookup_delete_ne; [done|]. intros ->. done.
Qed.

(** *** Every function keeps the changed names clean *)

Lemma storable_other key v :
  key <> "_changed" -> key <> "__dict__" -> storable key v.
Proof. intros H1 H2. split; intros ->; done. Qed.

Lemma clean_insert key v d : storable key v -> clean d -> clean (<[key := v]> d).
Proof.
  intros Hs Hd. destruct (decide (key = "_changed")) as [->|Hne].
  - destruct (proj1 Hs eq_refl) as (s & -> & Hk). by apply clean_insert_set.
  - by apply clean_insert_ne.
Qed.

Lemma clean_state C d :
  clean d -> exists s : gset string,
    state C d "_changed" = VSet s /\ forall k, k ∈ s -> startswith_underscore k = false.
Proof. intros (s & Hs & Hk). exists s. unfold state. by rewrite Hs. Qed.

Create HintDb keeps discriminated.

#[local] Hint Resolve keeps_instance keeps_request keeps_cache_get keeps_cache_set
  keeps_get_heap keeps_inject_auth keeps_raise keeps_Timeout : keeps.
#[local] Hint Extern 1 (keeps _ (ret _) any) => apply keeps_ret; exact I : keeps.
#[local] Hint Extern 1 (keeps _ (lift _) any) => apply keeps_lift; intros; exact I : keeps.
#[local] Hint Extern 1 (storable _ _) => apply storable_other; discriminate : keeps.
#[local] Hint Extern 1 (_ <> _) => discriminate : keeps.

Ltac keeps_leaf :=
  first [ solve [eauto 3 with keeps]
        | solve [eapply keeps_any; eauto 3 with keeps] ].

Ltac keeps_step :=
  match goal with
  | |- keeps _ (bind (instance _) _) _ =>
      eapply keeps_bind; [apply keeps_instance|intros [? ?] ?; simpl in *]
  | |- keeps _ (bind _ _) _ =>
      eapply (keeps_bind _ _ _ any); [|intros ? _]
  | |- keeps _ (except_AttributeError _ _) _ => apply keeps_except
  | |- keeps _ (prop _ _ _ _ _) _ => unfold prop; apply keeps_except
  | |- keeps _ (if ?b then _ else _) _ => destruct b eqn:?
  | |- keeps _ (match ?x with _ => _ end) _ => destruct x eqn:?
  | |- keeps _ (let _ := _ in _) _ => cbv zeta
  | |- _ => keeps_leaf
  end.

Ltac keeps_auto := repeat keeps_step.

Section ChangedNames.
Variable E : Env.
Hypothesis answers : answers_ok E.
Hypothesis extractors : extractors_ok E.

Lemma keeps_set_dict_insert r key v d :
  storable key v -> clean d -> keeps all_clean (set_dict r (<[key := v]> d)) any.
Proof. intros. apply keeps_set_dict. by apply clean_insert. Qed.

Lemma keeps_pk_vals_setter r v : keeps all_clean (_pk_vals_setter E r v) any.
Proof.
  unfold _pk_vals_setter. keeps_auto.
  apply keeps_set_dict_insert; [|done]. apply storable_other; discriminate.
Qed.

Lemma keeps_set_class r c : keeps all_clean (set_class r c) any.
Proof.
  intros w Hw. unfold set_class.
  destruct (heap w !! r) as [[c0 d| |]|] eqn:Hr; try done.
  split; [|done]. apply all_clean_insert; [done|]. by eapply Hw.
Qed.

Lemma keeps_object_setattr r key v :
  storable key v -> keeps all_clean (object_setattr E r key v) any.
Proof.
  intros Hs. unfold object_setattr.
  destruct (String.eqb key "_pk_vals"); [apply keeps_pk_vals_setter|].
  destruct (bool_decide (key ∈ properties)); [apply keeps_raise|].
  destruct (String.eqb key "__dict__") eqn:Hd.
  { apply String.eqb_eq in Hd. destruct v; try apply keeps_raise.
    apply keeps_set_dict. by apply (proj2 Hs Hd). }
  destruct (String.eqb key "__class__").
  { destruct v; try apply keeps_raise. apply keeps_set_class. }
  destruct (String.eqb key "__weakref__"); [apply keeps_raise|].
  eapply keeps_bind; [apply keeps_instance|]. intros [c d] Hc. simpl.
  by apply keeps_set_dict_insert.
Qed.

Lemma keeps_setattr r key v :
  storable key v -> keeps all_clean (__setattr__ E r key v) any.
Proof.
  intros Hs. unfold __setattr__.
  eapply (keeps_bind _ _ _ any); [|intros ? _; by apply keeps_object_setattr].
  destruct (startswith_underscore key) eqn:Hu; simpl; [keeps_auto|].
  eapply keeps_bind; [apply keeps_instance|]. intros [c d] Hd. simpl in *.
  destruct (clean_state (classes E c) d Hd) as (s & -> & Hk).
  apply keeps_set_dict. apply clean_insert_set.
  intros k [->%elem_of_singleton|Hin]%elem_of_union; [done|by apply Hk].
Qed.

Lemma keeps_init cls parent kwargs : keeps all_clean (__init__ E cls parent kwargs) any.
Proof.
  unfold __init__. keeps_auto.
  apply keeps_alloc. intros c d [= <- <-]. by apply clean_insert_set.
Qed.

Lemma keeps_new cls parent kwargs : keeps all_clean (new E cls parent kwargs) any.
Proof. unfold new. keeps_auto; apply keeps_init. Qed.

Section Callees.
Variable rec : Ops.
Hypothesis callees : callees_keep rec.

Lemma keeps_o_rest_call cls url method fa kw :
  keeps all_clean (o_rest_call rec cls url method fa kw) (fun res => payload_ok res.1).
Proof. apply callees. Qed.
Lemma keeps_o_getattr r name : keeps all_clean (o_getattr rec r name) any.
Proof. apply callees. Qed.
Lemma keeps_o_hook r name : keeps all_clean (o_hook rec r name) any.
Proof. apply callees. Qed.
Lemma keeps_o_current_path r : keeps all_clean (o_current_path rec r) any.
Proof. apply callees. Qed.
Lemma keeps_o_eq r v : keeps all_clean (o_eq rec r v) any.
Proof. apply callees. Qed.

#[local] Hint Resolve keeps_o_rest_call keeps_o_getattr keeps_o_hook
  keeps_o_current_path keeps_o_eq keeps_setattr keeps_new : keeps.

Lemma keeps_rest_call cls url method fa kw :
  keeps all_clean (_rest_call E rec cls url method fa kw) (fun res => payload_ok res.1).
Proof.
  unfold _rest_call.
  eapply keeps_bind; [apply keeps_inject_auth|]. intros kw' _.
  destruct (bool_decide (method ∈ ALLOWED_HTTP_METHODS)); [|apply keeps_raise].
  eapply keeps_bind; [apply keeps_request_answer|]. intros resp (l & req & Hresp).
  destruct (success resp); [|apply keeps_raise].
  eapply (keeps_bind _ _ _ payload_ok).
  { destruct (String.eqb (text resp) EmptyString).
    - apply keeps_ret, payload_ok_None.
    - apply keeps_lift. intros data Hd. by eapply answers. }
  intros data Hd.
  destruct (c_continuator (classes E cls) resp) as [next|]; [|by apply keeps_ret].
  destruct (String.eqb next EmptyString); [by apply keeps_ret|].
  destruct fa; [|by apply keeps_ret].
  eapply keeps_bind; [apply keeps_o_rest_call|]. intros more Hm. simpl in Hm.
  eapply (keeps_bind _ _ _ payload_ok).
  { apply keeps_lift. intros c Hc.
    eapply payload_ok_iadd; [exact Hd|exact Hm|exact Hc]. }
  intros c Hc. by apply keeps_ret.
Qed.

Lemma keeps_id r : keeps all_clean (_id E rec r) any.
Proof. unfold _id. keeps_auto. Qed.

#[local] Hint Resolve keeps_id : keeps.

Lemma keeps_pk_vals r : keeps all_clean (_pk_vals E rec r) any.
Proof. unfold _pk_vals. keeps_auto. Qed.

#[local] Hint Resolve keeps_pk_vals : keeps.

Lemma keeps_footprint r : keeps all_clean (_footprint E rec r) any.
Proof. unfold _footprint. keeps_auto. Qed.

#[local] Hint Resolve keeps_footprint : keeps.

Lemma keeps_footprint_of v : keeps all_clean (footprint_of v) any.
Proof. unfold footprint_of. keeps_auto. Qed.

Lemma keeps_string_of v : keeps all_clean (string_of v) any.
Proof. unfold string_of. keeps_auto. Qed.

#[local] Hint Resolve keeps_footprint_of keeps_string_of : keeps.

Lemma keeps_repr r : keeps all_clean (__repr__ E rec r) any.
Proof. unfold __repr__. keeps_auto. Qed.

#[local] Hint Resolve keeps_repr : keeps.

Lemma keeps_render v : keeps all_clean (render E rec v) any.
Proof. unfold render. keeps_auto. Qed.

#[local] Hint Resolve keeps_render : keeps.

Lemma keeps_format tpl footprint : keeps all_clean (format E rec tpl footprint) any.
Proof.
  induction tpl as [|seg tpl IH]; simpl; [keeps_auto|].
  eapply (keeps_bind _ _ _ any); [destruct seg; keeps_auto|]. intros s _.
  eapply (keeps_bind _ _ _ any); [exact IH|]. intros rest _. keeps_auto.
Qed.

#[local] Hint Resolve keeps_format : keeps.

Lemma keeps_parent_path parent : keeps all_clean (parent_path rec parent) any.
Proof. unfold parent_path. keeps_auto. Qed.

Lemma keeps_concat_path base s : keeps all_clean (concat_path base s) any.
Proof. unfold concat_path. keeps_auto. Qed.

#[local] Hint Resolve keeps_parent_path keeps_concat_path : keeps.

Lemma keeps_current_path r : keeps all_clean (_current_path E rec r) any.
Proof. unfold _current_path. keeps_auto. Qed.

#[local] Hint Resolve keeps_current_path : keeps.

Lemma keeps_fetch r : keeps all_clean (__fetch E rec r) any.
Proof.
  unfold __fetch.
  eapply (keeps_bind _ _ _ any); [keeps_auto|]. intros url _.
  eapply keeps_bind; [apply keeps_instance|]. intros [c d] Hd. simpl.
  eapply keeps_bind; [apply keeps_rest_call|]. intros res Hres.
  eapply (keeps_bind _ _ _ any); [keeps_auto|]. intros h _.
  destruct (truthy h res.1); [|keeps_auto].
  eapply (keeps_bind _ _ _ (fun items => update_items res.1 = inr items));
    [by apply keeps_lift|]. intros items Hi.
  eapply keeps_bind; [apply keeps_instance|]. intros [c1 d1] Hd1. simpl in *.
  assert (Hup : clean (store_update d1 items)).
  { apply clean_store_update; [by apply Hres|done]. }
  eapply (keeps_bind _ _ _ any); [by apply keeps_set_dict|]. intros _ _.
  eapply (keeps_bind _ _ _ (fun given => names_of res.1 = inr given));
    [by apply keeps_lift|]. intros given Hg.
  eapply (keeps_bind _ _ _ clean).
  { apply keeps_lift. intros d2 Hd2.
    eapply clean_rename_overlaps; [|exact Hup|exact Hd2].
    by eapply names_of_payload. }
  intros d2 Hd2.
  eapply (keeps_bind _ _ _ any); [by apply keeps_set_dict|]. intros _ _.
  keeps_auto.
Qed.

#[local] Hint Resolve keeps_fetch : keeps.

Lemma keeps_hook r name : keeps all_clean (__getattr__ E rec r name) any.
Proof. unfold __getattr__. keeps_auto. Qed.

Lemma keeps_read cls args parent auth :
  keeps all_clean (read E rec cls args parent auth) any.
Proof.
  unfold read. cbv zeta.
  eapply (keeps_bind _ _ _ any); [keeps_auto|]. intros base _.
  eapply (keeps_bind _ _ _ any); [keeps_auto|]. intros s _.
  eapply (keeps_bind _ _ _ any); [keeps_auto|]. intros path _.
  eapply (keeps_bind _ _ _ any); [eapply keeps_any; apply keeps_rest_call|].
  intros res _. keeps_auto.
Qed.

Lemma keeps_py_eq a b : keeps all_clean (py_eq E rec a b) any.
Proof. unfold py_eq. destruct a, b; keeps_auto. Qed.

#[local] Hint Resolve keeps_hook keeps_read keeps_py_eq : keeps.

Lemma keeps_eq r other : keeps all_clean (__eq__ E rec r other) any.
Proof. unfold __eq__. keeps_auto. Qed.

Lemma keeps_sanitize_data m data : keeps all_clean (sanitize_data m data) any.
Proof. unfold sanitize_data. keeps_auto. Qed.

Lemma keeps_alloc_list o :
  (forall c d, o <> OModel c d) -> keeps all_clean (alloc o) any.
Proof. intros Ho. apply keeps_alloc. intros c d ->. by destruct (Ho c d). Qed.

#[local] Hint Resolve keeps_eq keeps_sanitize_data : keeps.

Lemma keeps_Many_get dsc m inst : keeps all_clean (Many_get E rec dsc m inst) any.
Proof.
  unfold Many_get. destruct inst as [r|]; [|keeps_auto].
  eapply (keeps_bind _ _ _ any); [keeps_auto|]. intros hit _.
  destruct hit; [keeps_auto|].
  eapply (keeps_bind _ _ _ any); [keeps_auto|]. intros footprint _.
  eapply (keeps_bind _ _ _ any); [keeps_auto|]. intros path _.
  eapply (keeps_bind _ _ _ any); [|intros _ _; keeps_auto].
  destruct (m_lazy m).
  - eapply (keeps_bind _ _ _ any); [by apply keeps_alloc_list|]. intros l _. keeps_auto.
  - eapply keeps_bind; [apply keeps_instance|]. intros [c d] Hd. simpl.
    eapply (keeps_bind _ _ _ any); [eapply keeps_any; apply keeps_rest_call|].
    intros res _.
    eapply (keeps_bind _ _ _ any); [keeps_auto|]. intros data _.
    eapply (keeps_bind _ _ _ any); [keeps_auto|]. intros items _.
    eapply (keeps_bind _ _ _ any); [by apply keeps_alloc_list|]. intros l _. keeps_auto.
Qed.

Lemma keeps_extract_ids r footprint ks :
  keeps all_clean (extract_ids rec r footprint ks) any.
Proof.
  induction ks as [|k ks IH]; simpl; [keeps_auto|].
  eapply (keeps_bind _ _ _ any); [keeps_auto|]. intros v _.
  eapply (keeps_bind _ _ _ any); [exact IH|]. intros vs _. keeps_auto.
Qed.

#[local] Hint Resolve keeps_Many_get keeps_extract_ids : keeps.

Lemma keeps_extract f r : keeps all_clean (extract E rec f r) any.
Proof. unfold extract. keeps_auto. Qed.

#[local] Hint Resolve keeps_extract : keeps.

Lemma keeps_Foreign_get dsc f inst :
  descriptors E dsc = DForeign f ->
  keeps all_clean (Foreign_get E rec dsc f inst) any.
Proof.
  intros Hdsc. unfold Foreign_get. destruct inst as [r|]; [|keeps_auto].
  eapply (keeps_bind _ _ _ any); [keeps_auto|]. intros hit _.
  destruct hit; [keeps_auto|].
  eapply (keeps_bind _ _ _ any); [|intros _ _; keeps_auto].
  destruct (foreign_embedded f); [keeps_auto|].
  destruct (c_get_alias (classes E (f_model f))); [|keeps_auto].
  eapply keeps_bind; [apply keeps_instance|]. intros [c d] Hd. simpl.
  eapply (keeps_bind _ _ _ any); [|intros key _; keeps_auto].
  unfold foreign_key_extractor.
  destruct (f_key_extractor f) as [g|] eqn:Hg; [|keeps_auto].
  by eapply extractors.
Qed.

Lemma keeps_relation_get dsc inst : keeps all_clean (relation_get E rec dsc inst) any.
Proof.
  unfold relation_get. destruct (descriptors E dsc) eqn:Hd.
  - apply keeps_Many_get.
  - by apply keeps_Foreign_get.
Qed.

#[local] Hint Resolve keeps_relation_get : keeps.

Lemma keeps_getattr r name : keeps all_clean (getattr E rec r name) any.
Proof. unfold getattr. keeps_auto. Qed.

Lemma keeps_auth_of v : keeps all_clean (auth_of E v) any.
Proof. unfold auth_of. keeps_auto. Qed.

#[local] Hint Resolve keeps_getattr keeps_auth_of : keeps.

Lemma keeps_normalize_auth cls inst auth :
  keeps all_clean (normalize_auth E cls inst auth) any.
Proof. unfold normalize_auth. keeps_auto. Qed.

Lemma keeps_assert_class_instance cls inst :
  keeps all_clean (assert_class_instance E cls inst) any.
Proof. unfold assert_class_instance. keeps_auto. Qed.

#[local] Hint Resolve keeps_normalize_auth keeps_assert_class_instance : keeps.

Lemma keeps_merge r res :
  payload_ok res ->
  keeps all_clean
    (items <- lift (update_items res) ;;
     cd <- instance r ;;
     set_dict r (store_update cd.2 items)) any.
Proof.
  intros Hres.
  eapply (keeps_bind _ _ _ (fun items => update_items res = inr items));
    [by apply keeps_lift|]. intros items Hi.
  eapply keeps_bind; [apply keeps_instance|]. intros [c d] Hd. simpl in *.
  apply keeps_set_dict. apply clean_store_update; [by apply Hres|done].
Qed.

Lemma keeps_update_with_patch cls inst keys auth :
  keeps all_clean (update_with_patch E rec cls inst keys auth) any.
Proof.
  unfold update_with_patch.
  eapply (keeps_bind _ _ _ any); [keeps_auto|]. intros auth' _.
  eapply (keeps_bind _ _ _ any); [keeps_auto|]. intros r _.
  eapply keeps_bind; [apply keeps_instance|]. intros [c d] Hd. simpl.
  eapply (keeps_bind _ _ _ any); [keeps_auto|]. intros h _.
  eapply (keeps_bind _ _ _ any); [keeps_auto|]. intros keys' _.
  eapply (keeps_bind _ _ _ any); [keeps_auto|]. intros ks _.
  eapply (keeps_bind _ _ _ any); [keeps_auto|]. intros data _.
  eapply (keeps_bind _ _ _ any); [keeps_auto|]. intros path _.
  eapply (keeps_bind _ _ _ any); [keeps_auto|]. intros body _.
  eapply keeps_bind; [apply keeps_rest_call|]. intros res Hres.
  eapply (keeps_bind _ _ _ (fun items => update_items res.1 = inr items));
    [by apply keeps_lift|]. intros items Hi.
  eapply keeps_bind; [apply keeps_instance|]. intros [c1 d1] Hd1. simpl in *.
  eapply (keeps_bind _ _ _ any).
  { apply keeps_set_dict. apply clean_store_update; [by apply Hres|done]. }
  intros _ _.
  eapply keeps_bind; [apply keeps_instance|]. intros [c2 d2] Hd2. simpl in *.
  eapply (keeps_bind _ _ _ any); [|intros _ _; keeps_auto].
  destruct (clean_state (classes E c2) d2 Hd2) as (s & -> & Hk).
  destruct keys'; try apply keeps_raise.
  apply keeps_setattr. split; [|discriminate].
  intros _. eexists. split; [done|].
  intros k [Hin _]%elem_of_difference. by apply Hk.
Qed.

Lemma keeps_update_with_put cls inst auth :
  keeps all_clean (update_with_put E rec cls inst auth) any.
Proof.
  unfold update_with_put.
  eapply (keeps_bind _ _ _ any); [keeps_auto|]. intros auth' _.
  eapply (keeps_bind _ _ _ any); [keeps_auto|]. intros r _.
  eapply keeps_bind; [apply keeps_instance|]. intros [c d] Hd. simpl.
  eapply (keeps_bind _ _ _ any); [keeps_auto|]. intros path _.
  eapply (keeps_bind _ _ _ any); [keeps_auto|]. intros body _.
  eapply keeps_bind; [apply keeps_rest_call|]. intros res Hres.
  eapply (keeps_bind _ _ _ (fun items => update_items res.1 = inr items));
    [by apply keeps_lift|]. intros items Hi.
  eapply keeps_bind; [apply keeps_instance|]. intros [c1 d1] Hd1. simpl in *.
  eapply (keeps_bind _ _ _ any).
  { apply keeps_set_dict. apply clean_store_update; [by apply Hres|done]. }
  intros _ _.
  eapply keeps_bind; [apply keeps_instance|]. intros [c2 d2] Hd2. simpl in *.
  eapply (keeps_bind _ _ _ any); [|intros _ _; keeps_auto].
  destruct (clean_state (classes E c2) d2 Hd2) as (s & -> & Hk).
  apply keeps_set_dict. by apply clean_insert_set.
Qed.

Lemma keeps_delete cls inst auth : keeps all_clean (delete E rec cls inst auth) any.
Proof.
  unfold delete.
  eapply (keeps_bind _ _ _ any); [keeps_auto|]. intros auth' _.
  eapply (keeps_bind _ _ _ any); [keeps_auto|]. intros r _.
  eapply (keeps_bind _ _ _ any); [keeps_auto|]. intros path _.
  eapply (keeps_bind _ _ _ any); [eapply keeps_any; apply keeps_rest_call|].
  intros res _. keeps_auto.
Qed.

Lemma callees_keep_step : callees_keep (ops_step E rec).
Proof.
  repeat split; simpl; intros.
  - apply keeps_rest_call.
  - apply keeps_getattr.
  - apply keeps_hook.
  - apply keeps_current_path.
  - apply keeps_eq.
Qed.

End Callees.

Lemma callees_keep_ops fuel : callees_keep (ops E fuel).
Proof.
  induction fuel as [|fuel IH].
  - repeat split; simpl; intros; apply keeps_Timeout.
  - rewrite ops_S. by apply callees_keep_step.
Qed.

End ChangedNames.

Lemma keeps_world_of {A} I (m : M A) Q w : keeps I m Q -> I w -> I (world_of (m w)).
Proof.
  intros Hm Hw. specialize (Hm w Hw). destruct (m w); simpl; [by destruct Hm|done|done].
Qed.

Lemma run_clean E fuel o w :
  answers_ok E -> extractors_ok E -> assigns_changed o = false ->
  all_clean w -> all_clean (run E fuel o w).
Proof.
  intros Ha Hx Ho Hw.
  pose proof (callees_keep_ops E Ha Hx fuel) as Hrec.
  destruct o; unfold run;
    (eapply (keeps_world_of all_clean _ any); [|exact Hw]).
  - by apply keeps_getattr.
  - simpl in Ho. apply orb_false_elim in Ho as [H1 H2].
    apply keeps_setattr. apply storable_other; by apply String.eqb_neq.
  - unfold __delattr__. apply keeps_raise.
  - apply keeps_new.
  - by apply keeps_read.
  - by apply keeps_update_with_patch.
  - by apply keeps_update_with_put.
  - by apply keeps_delete.
  - by apply keeps_py_eq.
Qed.

Lemma run_all_clean E os w :
  answers_ok E -> extractors_ok E ->
  Forall (fun o => assigns_changed o.2 = false) os ->
  all_clean w -> all_clean (run_all E os w).
Proof.
  intros Ha Hx Hos. revert w. unfold run_all.
  induction Hos as [|o os Ho Hos IH]; intros w Hw; simpl; [done|].
  apply IH. by apply run_clean.
Qed.

Lemma setattr_public E r key v w c d (s : gset string) :
  startswith_underscore key = false ->
  heap w !! r = Some (OModel c d) ->
  d !! "_changed" = Some (VSet s) ->
  __setattr__ E r key v w
  = Ok tt (set_heap
             (<[r := OModel c (<[key := v]> (<["_changed" := VSet ({[key]} ∪ s)]> d))]>
                (heap w)) w).
Proof.
  intros Hu Hr Hs. unfold __setattr__. rewrite Hu. simpl.
  unfold bind at 1. unfold bind at 1. unfold instance at 1. rewrite Hr. simpl.
  unfold state. rewrite Hs. unfold set_dict at 1. rewrite Hr.
  unfold object_setattr.
  assert (Hne : String.eqb key "_pk_vals" = false).
  { apply String.eqb_neq. by intros ->. }
  rewrite Hne.
  assert (Hp : bool_decide (key ∈ properties) = false).
  { apply bool_decide_eq_false. unfold properties.
    intros Hin. repeat (apply elem_of_cons in Hin as [->|Hin]; [done|]).
    by apply elem_of_nil in Hin. }
  rewrite Hp.
  assert (Hslot : forall k, startswith_underscore k = true -> String.eqb key k = false).
  { intros k Hk. apply String.eqb_neq. intros ->. by rewrite Hk in Hu. }
  rewrite !Hslot by done.
  unfold bind, instance, set_dict. simpl.
  assert (Hlt : (r < length (heap w))%nat) by (by eapply lookup_lt_Some).
  pose proof (list_lookup_insert_eq (heap w) r
                (OModel c (<["_changed" := VSet ({[key]} ∪ s)]> d)) Hlt) as Hl.
  simpl. repeat (rewrite Hl; simpl).
  unfold set_heap. simpl. by rewrite list_insert_insert_eq.
Qed.

Lemma fetched_changed_key :
  exists c d,
    heap (run_all (item_api "{_changed}") [(5%nat, OpGet 0%nat "name")] one_item) !! 0%nat
    = Some (OModel c d)
    /\ d !! "_changed" = Some (VList [VStr "_x"]).
Proof. vm_compute. do 2 eexists. split; reflexivity. Qed.


Lemma item_api_answers_ok : answers_ok (item_api "{name}").
Proof.
  intros l req resp cls data Hresp Hdata. simpl in Hresp. injection Hresp as <-.
  vm_compute in Hdata. injection Hdata as <-.
  intros items Hi. injection Hi as <-. simpl.
  intros Hin. apply list_elem_of_singleton in Hin. discriminate.
Qed.

Lemma item_api_extractors_ok body : extractors_ok (item_api body).
Proof. intros dsc f g r Hd. discriminate. Qed.

Lemma one_item_clean : all_clean one_item.
Proof.
  intros r c d Hr. destruct r as [|r]; [|done]. injection Hr as <- <-.
  exists ∅. split; [done|]. intros k Hk. by apply elem_of_empty in Hk.
Qed.



(** * Further properties *)

(** ** Requests *)

Lemma no_result_intro {A} (r : Res A) :
  (forall a w', r <> Ok a w') -> no_result r.
Proof. intros H. destruct r as [a w'| |]; [by destruct (H a w')|done|done]. Qed.

Lemma inject_auth_keeps_kwargs E cls kw w :
  c_auth (classes E cls) = VNone \/ is_Some (kw_auth kw) ->
  inject_auth E cls kw w = Ok kw w.
Proof.
  intros [H|[a H]]; unfold inject_auth; rewrite H; [done|].
  by destruct (c_auth (classes E cls)).
Qed.

(** X1.  A method name outside GET, POST, PUT, DELETE and PATCH (the
    comparison is case sensitive, so [get] is outside) makes [_rest_call]
    raise the invalid-method exception naming it, before any request is
    sent: the world is left as it was. *)
Theorem rest_call_rejects_method E rec cls url method fa kw w :
  method ∉ ALLOWED_HTTP_METHODS ->
  c_auth (classes E cls) = VNone \/ is_Some (kw_auth kw) ->
  _rest_call E rec cls url method fa kw w
  = Raise (PyrestoInvalidRestMethodException method) w.
Proof.
  intros Hm Ha. unfold _rest_call.
  rewrite (bind_Ok _ _ _ _ _ (inject_auth_keeps_kwargs E cls kw w Ha)).
  by rewrite bool_decide_eq_false_2.
Qed.

Lemma rest_call_rejects_method_witness :
  _rest_call (item_api "{}") ops_bot 0 "/items/42/" "get" true no_auth one_item
  = Raise (PyrestoInvalidRestMethodException "get") one_item.
Proof.
  apply (rest_call_rejects_method (item_api "{}") ops_bot 0 "/items/42/" "get" true
           no_auth one_item).
  - apply (bool_decide_unpack _). vm_compute. exact I.
  - left. reflexivity.
Defined.

Lemma only_logs_refl w : only_logs w w.
Proof. by repeat split. Qed.

Lemma only_logs_request E w0 req : keeps (only_logs w0) (request E req) any.
Proof.
  intros w (Hh & Hc & Hl). unfold request.
  assert (only_logs w0 (set_log (log w ++ [req]) w)).
  { repeat split; [done|done|]. simpl. by apply prefix_app_r. }
  by destruct (transport E (log w) req).
Qed.

Lemma rest_call_only_logs_step E w0 rec :
  (forall cls url method fa kw,
      keeps (only_logs w0) (o_rest_call rec cls url method fa kw) any) ->
  forall cls url method fa kw,
    keeps (only_logs w0) (_rest_call E rec cls url method fa kw) any.
Proof.
  intros IH cls url method fa kw. unfold _rest_call.
  eapply keeps_bind; [apply keeps_inject_auth|]. intros kw' _.
  destruct (bool_decide (method ∈ ALLOWED_HTTP_METHODS)); [|apply keeps_raise].
  eapply keeps_bind; [apply only_logs_request|]. intros resp _.
  destruct (success resp); [|apply keeps_raise].
  eapply (keeps_bind _ _ _ any).
  { destruct (String.eqb (text resp) EmptyString);
      [by apply keeps_ret|by apply keeps_lift]. }
  intros data _.
  destruct (c_continuator (classes E cls) resp) as [next|]; [|by apply keeps_ret].
  destruct (String.eqb next EmptyString); [by apply keeps_ret|].
  destruct fa; [|by apply keeps_ret].
  eapply keeps_bind; [apply IH|]. intros more _.
  eapply (keeps_bind _ _ _ any); [by apply keeps_lift|]. intros c _.
  by apply keeps_ret.
Qed.

Lemma rest_call_keeps_only_logs E w0 fuel cls url method fa kw :
  keeps (only_logs w0) (_rest_call E (ops E fuel) cls url method fa kw) any.
Proof.
  revert cls url method fa kw. induction fuel as [|fuel IH]; intros.
  - apply rest_call_only_logs_step. intros. apply keeps_Timeout.
  - apply rest_call_only_logs_step. intros. rewrite ops_S. apply IH.
Qed.

(** X2.  Whatever [_rest_call] is asked and however it ends (a result, an
    exception, or the nesting bound of the pagination), it leaves every
    object and every relation cache as they were, and the requests sent
    before stay recorded in their order: it only sends requests. *)
Theorem rest_call_only_logs E fuel cls url method fa kw w :
  only_logs w (world_of (_rest_call E (ops E fuel) cls url method fa kw w)).
Proof.
  pose proof (rest_call_keeps_only_logs E w fuel cls url method fa kw w
                (only_logs_refl w)) as H.
  destruct (_rest_call E (ops E fuel) cls url method fa kw w); simpl;
    [by destruct H|done|done].
Qed.

(** X3.  On a resource type with class-level credentials ([_auth] set)
    whose class has no attribute [auth], a [_rest_call] without [auth]
    keyword raises AttributeError before any request is sent: the source
    reads [cls.auth], not [cls._auth]. *)
Theorem rest_call_class_auth_unreachable E rec cls url method fa kw w :
  c_auth (classes E cls) <> VNone ->
  kw_auth kw = None ->
  class_lookup E cls "auth" = None ->
  _rest_call E rec cls url method fa kw w = Raise AttributeError w.
Proof.
  intros Ha Hk Hl. unfold _rest_call, inject_auth. rewrite Hk, Hl.
  by destruct (c_auth (classes E cls)).
Qed.

Lemma rest_call_class_auth_unreachable_witness :
  _rest_call vault_api ops_bot 0 "/vault/1" "GET" true (mkKwargs None None) empty_world
  = Raise AttributeError empty_world.
Proof.
  apply (rest_call_class_auth_unreachable vault_api ops_bot 0 "/vault/1" "GET" true
           (mkKwargs None None) empty_world).
  - discriminate.
  - reflexivity.
  - reflexivity.
Defined.

(** X4.  When the first page of a paginated answer has an empty body or
    parses to a mapping, [_rest_call] with [fetch_all=True] never returns
    a result: the next page is requested first, and joining it to None or
    to a dict with [+=] is a TypeError. *)
Theorem rest_call_unjoinable_first_page E rec cls url method kw w resp next :
  let C := classes E cls in
  c_auth C = VNone \/ is_Some (kw_auth kw) ->
  method ∈ ALLOWED_HTTP_METHODS ->
  transport E (log w) (mkRequest (lower method) (urljoin E (c_url_base C) url) kw)
  = inr resp ->
  success resp = true ->
  c_continuator C resp = Some next ->
  next <> EmptyString ->
  text resp = EmptyString \/ (exists kvs, c_parser C (text resp) = inr (VDict kvs)) ->
  no_result (_rest_call E rec cls url method true kw w)
  /\ (forall more w1,
         o_rest_call rec cls next "GET" true kw
                     (set_log (log w ++ [mkRequest (lower method)
                                           (urljoin E (c_url_base C) url) kw]) w)
         = Ok more w1 ->
         _rest_call E rec cls url method true kw w = Raise TypeError w1).
Proof.
  intros C Ha Hm Ht Hs Hc Hn Hbody.
  assert (Hrun : _rest_call E rec cls url method true kw w
    = bind (o_rest_call rec cls next "GET" true kw)
           (fun more => bind (lift (py_iadd
              (if String.eqb (text resp) EmptyString then VNone
               else match c_parser C (text resp) with inr d => d | inl _ => VNone end)
              more.1)) (fun data => ret (data, None)))
           (set_log (log w ++ [mkRequest (lower method)
                                 (urljoin E (c_url_base C) url) kw]) w)).
  { unfold _rest_call.
    rewrite (bind_Ok _ _ _ _ _ (inject_auth_keeps_kwargs E cls kw w Ha)).
    rewrite bool_decide_eq_true_2 by done.
    unfold bind at 1. unfold request. fold C. rewrite Ht, Hs, Hc.
    rewrite (eqb_empty_false _ Hn).
    destruct Hbody as [Hb|[kvs Hb]].
    - rewrite Hb. reflexivity.
    - destruct (String.eqb (text resp) EmptyString) eqn:He; [reflexivity|].
      rewrite Hb. reflexivity. }
  assert (Hadd : forall x,
    py_iadd (if String.eqb (text resp) EmptyString then VNone
             else match c_parser C (text resp) with inr d => d | inl _ => VNone end) x
    = inl TypeError).
  { intros x. destruct Hbody as [Hb|[kvs Hb]].
    - by rewrite Hb.
    - rewrite Hb. by destruct (String.eqb (text resp) EmptyString). }
  split.
  - apply no_result_intro. intros res w' H. rewrite Hrun in H. unfold bind in H.
    destruct (o_rest_call rec cls next "GET" true kw _) as [more w1|e w1|w1];
      try discriminate.
    rewrite Hadd in H. discriminate.
  - intros more w1 Hmore. rewrite Hrun. unfold bind. rewrite Hmore.
    by rewrite Hadd.
Qed.

Lemma rest_call_unjoinable_first_page_witness :
  no_result (_rest_call (endless_api EmptyString) (ops (endless_api EmptyString) 3) 0
                        "/commits" "GET" true no_auth empty_world).
Proof.
  pose proof (rest_call_unjoinable_first_page (endless_api EmptyString)
                (ops (endless_api EmptyString) 3) 0 "/commits" "GET" no_auth empty_world
                (mkResponse 200 EmptyString [("next", "/more")]) "/more") as H.
  cbv zeta in H.
  assert (H1 : c_auth (classes (endless_api EmptyString) 0) = VNone
               \/ is_Some (kw_auth no_auth)) by (left; reflexivity).
  assert (H2 : "GET" ∈ ALLOWED_HTTP_METHODS)
    by (apply (bool_decide_unpack _); vm_compute; exact I).
  specialize (H H1 H2 eq_refl eq_refl eq_refl).
  assert (H3 : "/more" <> EmptyString) by discriminate.
  exact (proj1 (H H3 (or_introl eq_refl))).
Defined.

(** ** The constructor *)

Lemma store_update_lookup_ext kvs k (d d' : gmap string value) :
  d !! k = d' !! k -> store_update d kvs !! k = store_update d' kvs !! k.
Proof.
  unfold store_update. revert d d'.
  induction kvs as [|[k' v] kvs IH]; intros d d' H; [done|]. simpl.
  apply IH. destruct (decide (k' = k)) as [->|Hne].
  - by rewrite !lookup_insert_eq.
  - by rewrite !lookup_insert_ne.
Qed.

Lemma store_update_lookup_filter kvs k x (d : gmap string value) :
  k <> x ->
  store_update d (filter (fun kv : string * value => kv.1 ≠ x) kvs) !! k
  = store_update d kvs !! k.
Proof.
  intros Hk. unfold store_update. revert d.
  induction kvs as [|[k' v] kvs IH]; intros d; [done|].
  destruct (decide (k' = x)) as [->|Hne].
  - rewrite filter_cons_False by (simpl; intros H; by apply H).
    simpl. rewrite IH.
    apply (store_update_lookup_ext kvs k). by rewrite lookup_insert_ne.
  - rewrite filter_cons_True by done. simpl. apply IH.
Qed.

Lemma store_update_lookup_in kvs k (d : gmap string value) :
  k ∈ kvs.*1 -> is_Some (store_update d kvs !! k).
Proof.
  unfold store_update. revert d.
  induction kvs as [|[k' v] kvs IH]; intros d Hk; [by apply elem_of_nil in Hk|].
  simpl in *. destruct (decide (k ∈ kvs.*1)) as [Hin|Hnin]; [by apply IH|].
  apply elem_of_cons in Hk as [->|Hk]; [|done].
  fold (store_update (<[k' := v]> d) kvs).
  rewrite store_update_lookup_notin by done. rewrite lookup_insert_eq. by eexists.
Qed.

Lemma public_not_dunder k i : startswith_underscore k = false -> k <> "__" +:+ i.
Proof. intros Hk ->. done. Qed.

Lemma rename_overlaps_frame body given d d' k :
  rename_overlaps body given d = inr d' ->
  k ∉ body.*1 -> (forall i, i ∈ body.*1 -> k <> "__" +:+ i) ->
  d' !! k = d !! k.
Proof.
  revert d. induction body as [|[item a] body IH]; intros d H Hk Hd; simpl in *.
  - by injection H as <-.
  - apply not_elem_of_cons in Hk as [Hne Hk].
    assert (Hd' : forall i, i ∈ body.*1 -> k <> "__" +:+ i).
    { intros i Hi. apply Hd. by right. }
    destruct (bool_decide (item ∈ given)); [|by apply IH].
    destruct (overlap_is_model a) as [e|[]]; [done| |by apply IH].
    destruct (d !! item) as [v|] eqn:Hv; [|done].
    rewrite (IH _ H Hk Hd').
    rewrite lookup_insert_ne by (apply not_eq_sym, Hd; by left).
    by rewrite lookup_delete_ne.
Qed.

Lemma body_names_NoDup C : NoDup (body_names C).*1.
Proof. apply NoDup_fst_map_to_list. Qed.

Lemma body_names_elem C item a :
  (item, a) ∈ body_names C <-> class_body C item = Some a.
Proof. unfold body_names, class_body. apply elem_of_map_to_list. Qed.

Lemma init_Ok_inv E cls parent kwargs w r w' :
  __init__ E cls parent kwargs w = Ok r w' ->
  exists d,
    rename_overlaps (body_names (classes E cls)) kwargs.*1
                    (store_update (<["_parent" := parent]> ∅) kwargs) = inr d
    /\ r = length (heap w)
    /\ w' = set_heap (heap w ++ [OModel cls (<["_changed" := VSet ∅]> d)]) w.
Proof.
  unfold __init__, bind. intros H.
  destruct (rename_overlaps _ _ _) as [e|d]; [done|]. simpl in H.
  unfold alloc in H. injection H as <- <-. by exists d.
Qed.

Lemma new_Ok_inv E cls parent kwargs w r w' :
  new E cls parent kwargs w = Ok r w' ->
  exists p kw,
    __init__ E cls p kw w = Ok r w'
    /\ (kw = kwargs \/ kw = filter (fun kv : string * value => kv.1 ≠ "parent") kwargs).
Proof.
  unfold new. intros H.
  destruct (bool_decide ("self" ∈ kwargs.*1)); [done|].
  destruct (store_update ∅ kwargs !! "parent") as [p|], parent as [p'|]; try done;
    eauto 6.
Qed.

(** X5.  The constructor appends one instance of the class to the
    objects and touches nothing else: no object, cache or request.  The new
    instance starts with an empty set of changed names, even when a field
    of the call is named [_changed], and a field with a public name that
    is no name of the class body is bound to the value given last for
    it. *)
Theorem new_binds_fields E cls parent kwargs w r w' :
  new E cls parent kwargs w = Ok r w' ->
  exists d,
    r = length (heap w)
    /\ w' = set_heap (heap w ++ [OModel cls d]) w
    /\ d !! "_changed" = Some (VSet ∅)
    /\ forall k, startswith_underscore k = false -> k <> "parent" ->
                 class_body (classes E cls) k = None ->
                 d !! k = store_update ∅ kwargs !! k.
Proof.
  intros H. apply new_Ok_inv in H as (p & kw & H & Hkw).
  apply init_Ok_inv in H as (d & Hd & -> & ->).
  exists (<["_changed" := VSet ∅]> d). split; [done|]. split; [done|].
  split; [apply lookup_insert_eq|].
  intros k Hk Hp Hb.
  rewrite lookup_insert_ne by (intros <-; done).
  rewrite (rename_overlaps_frame _ _ _ _ k Hd).
  - rewrite (store_update_lookup_ext kw k _ ∅)
      by (rewrite lookup_insert_ne; [done|by intros <-]).
    destruct Hkw as [->| ->]; [done|]. by apply store_update_lookup_filter.
  - intros Hin. apply list_elem_of_fmap in Hin as ([k' a] & -> & Hin).
    apply body_names_elem in Hin. simpl in Hb. rewrite Hb in Hin. done.
  - intros i _. by apply public_not_dunder.
Qed.

Lemma new_binds_fields_witness :
  exists d,
    2%nat = length (heap two_items)
    /\ world_of (new shop_api 0 None [("name", VStr "a"); ("_changed", VInt 1);
                                      ("name", VStr "b")] two_items)
       = set_heap (heap two_items ++ [OModel 0 d]) two_items
    /\ d !! "_changed" = Some (VSet ∅)
    /\ forall k, startswith_underscore k = false -> k <> "parent" ->
                 class_body (classes shop_api 0) k = None ->
                 d !! k = store_update ∅ [("name", VStr "a"); ("_changed", VInt 1);
                                          ("name", VStr "b")] !! k.
Proof.
  apply (new_binds_fields shop_api 0 None
           [("name", VStr "a"); ("_changed", VInt 1); ("name", VStr "b")]
           two_items 2 _).
  vm_compute. reflexivity.
Defined.

Lemma rename_overlaps_moves body given d d' item dsc v :
  NoDup body.*1 ->
  (item, CRelation dsc) ∈ body ->
  item ∈ given ->
  startswith_underscore item = false ->
  "__" +:+ item ∉ body.*1 ->
  d !! item = Some v ->
  rename_overlaps body given d = inr d' ->
  d' !! item = None /\ d' !! ("__" +:+ item) = Some v.
Proof.
  intros Hnd Hin Hg Hpub Hfree. revert d.
  induction body as [|[i a] body IH]; intros d Hv H; [by apply elem_of_nil in Hin|].
  simpl in *. apply NoDup_cons in Hnd as [Hi Hnd].
  apply not_elem_of_cons in Hfree as [Hfi Hfree].
  apply elem_of_cons in Hin as [[= <- <-]|Hin].
  - rewrite bool_decide_eq_true_2 in H by done. simpl overlap_is_model in H.
    rewrite Hv in H.
    assert (Hframe : forall k, k ∉ body.*1 ->
               (forall j, j ∈ body.*1 -> k <> "__" +:+ j) ->
               d' !! k = <["__" +:+ item := v]> (base.delete item d) !! k).
    { intros k Hk Hj. by eapply rename_overlaps_frame. }
    split.
    + rewrite Hframe; [|done|intros j _; by apply public_not_dunder].
      rewrite lookup_insert_ne by (apply not_eq_sym; by apply public_not_dunder).
      apply lookup_delete_eq.
    + rewrite Hframe; [apply lookup_insert_eq|done|].
      intros j Hj Heq. cbv in Heq. injection Heq as Heq. by subst j.
  - assert (Hne : i <> item).
    { intros ->. apply Hi. apply list_elem_of_fmap. by exists (item, CRelation dsc). }
    specialize (IH Hnd Hin Hfree).
    destruct (bool_decide (i ∈ given)); [|by apply (IH d)].
    destruct (overlap_is_model a) as [e|[]]; [done| |by apply (IH d)].
    destruct (d !! i) as [vi|] eqn:Hvi; [|done].
    apply (IH (<["__" +:+ i := vi]> (base.delete i d))); [|done].
    rewrite lookup_insert_ne by (apply not_eq_sym; by apply public_not_dunder).
    by rewrite lookup_delete_ne.
Qed.

(** X6.  A field of the constructor call named like a relation of the
    class (a public name whose ['__']-prefixed form is no name of the
    class body) is not bound under its own name: its value is stored
    under ['__' + name], and the name stays free for the relation. *)
Theorem new_renames_relation E cls parent kwargs w r w' item dsc v :
  class_body (classes E cls) item = Some (CRelation dsc) ->
  startswith_underscore item = false ->
  item <> "parent" ->
  class_body (classes E cls) ("__" +:+ item) = None ->
  store_update ∅ kwargs !! item = Some v ->
  new E cls parent kwargs w = Ok r w' ->
  exists d, heap w' !! r = Some (OModel cls d)
            /\ d !! item = None
            /\ d !! ("__" +:+ item) = Some v.
Proof.
  intros Hb Hpub Hp Hfree Hv H.
  apply new_Ok_inv in H as (p & kw & H & Hkw).
  apply init_Ok_inv in H as (d & Hd & -> & ->).
  exists (<["_changed" := VSet ∅]> d). split.
  { simpl. rewrite lookup_app_r by done. by rewrite Nat.sub_diag. }
  assert (Hv' : store_update (<["_parent" := p]> ∅) kw !! item = Some v).
  { rewrite (store_update_lookup_ext kw item _ ∅)
      by (rewrite lookup_insert_ne; [done|by intros <-]).
    destruct Hkw as [->| ->]; [done|]. by rewrite store_update_lookup_filter. }
  assert (Hin : item ∈ kw.*1).
  { destruct (decide (item ∈ kw.*1)) as [|Hn]; [done|].
    rewrite store_update_lookup_notin in Hv' by done.
    rewrite lookup_insert_ne in Hv' by (by intros <-). done. }
  assert (Hfree' : "__" +:+ item ∉ (body_names (classes E cls)).*1).
  { intros Hm. apply list_elem_of_fmap in Hm as ([k' a] & Hk & Hm).
    apply body_names_elem in Hm. simpl in Hk. rewrite <- Hk in Hm.
    rewrite Hfree in Hm. done. }
  destruct (rename_overlaps_moves (body_names (classes E cls)) kw.*1
              (store_update (<["_parent" := p]> ∅) kw) d item dsc v
              (body_names_NoDup _) (proj2 (body_names_elem _ _ _) Hb) Hin Hpub
              Hfree' Hv' Hd) as [H1 H2].
  rewrite !lookup_insert_ne; [done| |].
  - intros H0. by apply (public_not_dunder "_changed" item) in H0.
  - intros <-. done.
Qed.

Lemma new_renames_relation_witness :
  exists d, heap (world_of (new library 0 None [("publisher", VDict [("name", VStr "x")])]
                              one_book)) !! 1%nat = Some (OModel 0 d)
            /\ d !! "publisher" = None
            /\ d !! "__publisher" = Some (VDict [("name", VStr "x")]).
Proof.
  apply (new_renames_relation library 0 None [("publisher", VDict [("name", VStr "x")])]
           one_book 1 _ "publisher" 1 (VDict [("name", VStr "x")])).
  - vm_compute. reflexivity.
  - reflexivity.
  - discriminate.
  - vm_compute. reflexivity.
  - vm_compute. reflexivity.
  - vm_compute. reflexivity.
Defined.

Lemma overlap_is_model_error a e : overlap_is_model a = inl e -> e = TypeError.
Proof. destruct a as [| |[]]; simpl; congruence. Qed.

Lemma overlap_no_weakref x : no_weakref x = true -> overlap_is_model (CVal x) = inl TypeError.
Proof. by destruct x. Qed.

Lemma rename_overlaps_rejects body given d item x :
  NoDup body.*1 ->
  (item, CVal x) ∈ body ->
  no_weakref x = true ->
  item ∈ given ->
  (forall i, i ∈ body.*1 -> i ∈ given -> is_Some (d !! i)) ->
  rename_overlaps body given d = inl TypeError.
Proof.
  intros Hnd Hin Hx Hg. revert d.
  induction body as [|[i a] body IH]; intros d Hd; [by apply elem_of_nil in Hin|].
  simpl in *. apply NoDup_cons in Hnd as [Hi Hnd].
  apply elem_of_cons in Hin as [[= <- <-]|Hin].
  - rewrite bool_decide_eq_true_2 by done. by rewrite (overlap_no_weakref x Hx).
  - specialize (IH Hnd Hin).
    assert (Hd' : forall j, j ∈ body.*1 -> j ∈ given -> is_Some (d !! j)).
    { intros j Hj. apply Hd. by right. }
    destruct (bool_decide (i ∈ given)) eqn:Hig; [|by apply IH].
    apply bool_decide_eq_true in Hig.
    destruct (overlap_is_model a) as [e|[]] eqn:Ha;
      [by rewrite (overlap_is_model_error a e Ha)| |by apply IH].
    destruct (Hd i) as [vi Hvi]; [by left|done|]. rewrite Hvi.
    apply IH. intros j Hj Hjg.
    destruct (decide (j = "__" +:+ i)) as [->|Hne].
    + rewrite lookup_insert_eq. by eexists.
    + rewrite lookup_insert_ne by done.
      rewrite lookup_delete_ne; [by apply Hd'|]. intros ->. done.
Qed.

(** X7.  A field of the constructor call named like an attribute of the
    class body that is bound to None, a number, a string, a tuple, a list
    or a dict makes the constructor raise TypeError, and no instance is
    created: the subclass check against the abstract class [Model] needs a
    weak reference to the value, which such a value does not admit. *)
Theorem new_rejects_class_attribute E cls parent kwargs w item x :
  class_body (classes E cls) item = Some (CVal x) ->
  no_weakref x = true ->
  item ∈ kwargs.*1 ->
  item <> "parent" ->
  new E cls parent kwargs w = Raise TypeError w.
Proof.
  intros Hb Hx Hin Hp.
  assert (Hinit : forall p kw,
    kw = kwargs \/ kw = filter (fun kv : string * value => kv.1 ≠ "parent") kwargs ->
    __init__ E cls p kw w = Raise TypeError w).
  { intros p kw Hkw. unfold __init__, bind.
    rewrite (rename_overlaps_rejects _ _ _ item x (body_names_NoDup _)
               (proj2 (body_names_elem _ _ _) Hb) Hx); [done| |].
    - destruct Hkw as [->| ->]; [done|].
      apply list_elem_of_fmap in Hin as ([k v] & -> & Hin).
      apply list_elem_of_fmap. exists (k, v). split; [done|].
      by apply list_elem_of_filter.
    - intros i _ Hi. by apply store_update_lookup_in. }
  unfold new. destruct (bool_decide ("self" ∈ kwargs.*1)); [done|].
  destruct (store_update ∅ kwargs !! "parent") as [p|], parent as [p'|]; try done;
    apply Hinit; auto.
Qed.

Lemma new_rejects_class_attribute_witness :
  new tag_api 0 None [("id", VStr "1"); ("kind", VStr "other")] empty_world
  = Raise TypeError empty_world.
Proof.
  apply (new_rejects_class_attribute tag_api 0 None
           [("id", VStr "1"); ("kind", VStr "other")] empty_world "kind" (VStr "tag")).
  - vm_compute. reflexivity.
  - reflexivity.
  - apply (bool_decide_unpack _). vm_compute. exact I.
  - discriminate.
Defined.

(** ** The decorators of the update methods *)

Lemma normalize_auth_pure E cls inst auth w :
  (exists a, normalize_auth E cls inst auth w = Ok a w)
  \/ (exists e, normalize_auth E cls inst auth w = Raise e w).
Proof.
  unfold normalize_auth.
  assert (Hdef : (exists a, bind get_heap (fun h =>
                     if truthy h (c_auth (classes E cls)) then ret (c_auth (classes E cls))
                     else auth_of E inst) w = Ok a w)
                 \/ (exists e, bind get_heap (fun h =>
                     if truthy h (c_auth (classes E cls)) then ret (c_auth (classes E cls))
                     else auth_of E inst) w = Raise e w)).
  { unfold bind, get_heap.
    destruct (truthy (heap w) (c_auth (classes E cls))); [left; by eexists|].
    unfold auth_of. destruct inst; try (right; by eexists); [|left; by eexists].
    unfold bind, instance. destruct (heap w !! r) as [[c d| |]|];
      try (right; by eexists). left. by eexists. }
  destruct (default VNone auth); try (left; by eexists). exact Hdef.
Qed.

Lemma normalize_auth_given E cls inst a w :
  a <> VNone -> normalize_auth E cls inst (Some a) w = Ok a w.
Proof. intros Ha. unfold normalize_auth. simpl. by destruct a. Qed.

Lemma assert_class_instance_rejects E cls inst w :
  isinstance E (heap w) inst cls = false ->
  assert_class_instance E cls inst w = Raise AssertionError w.
Proof. intros H. unfold assert_class_instance, bind, get_heap. by rewrite H. Qed.

(** X8.  [update_with_patch], [update_with_put] and [delete] called with
    an object that is no instance of the class (or of a subclass) raise
    without sending a request or changing anything; the exception is the
    AssertionError of the decorator whenever credentials are given, and
    otherwise what reading [_auth] off the object raises before the
    assertion is reached. *)
Theorem mutators_reject_other_objects E rec cls inst keys auth w :
  isinstance E (heap w) inst cls = false ->
  exists e,
    update_with_patch E rec cls inst keys auth w = Raise e w
    /\ update_with_put E rec cls inst auth w = Raise e w
    /\ delete E rec cls inst auth w = Raise e w
    /\ ((exists a, normalize_auth E cls inst auth w = Ok a w) -> e = AssertionError).
Proof.
  intros Hi.
  destruct (normalize_auth_pure E cls inst auth w) as [[a Ha]|[e He]].
  - exists AssertionError.
    unfold update_with_patch, update_with_put, delete.
    rewrite !(bind_Ok _ _ _ _ _ Ha).
    rewrite !(bind_Raise _ _ _ _ _ (assert_class_instance_rejects E cls inst w Hi)).
    done.
  - exists e. unfold update_with_patch, update_with_put, delete.
    rewrite !(bind_Raise _ _ _ _ _ He). repeat split; try done.
    intros [a Ha]. rewrite Ha in He. done.
Qed.

Lemma mutators_reject_other_objects_witness :
  exists e,
    update_with_patch shop_api ops_bot 1 (VRef 0) VNone (Some (VAuth 1)) two_items
    = Raise e two_items
    /\ update_with_put shop_api ops_bot 1 (VRef 0) (Some (VAuth 1)) two_items
       = Raise e two_items
    /\ delete shop_api ops_bot 1 (VRef 0) (Some (VAuth 1)) two_items = Raise e two_items
    /\ ((exists a, normalize_auth shop_api 1 (VRef 0) (Some (VAuth 1)) two_items
                   = Ok a two_items) -> e = AssertionError).
Proof.
  apply (mutators_reject_other_objects shop_api ops_bot 1 (VRef 0) VNone
           (Some (VAuth 1)) two_items).
  vm_compute. reflexivity.
Defined.

(** ** [update_with_put] *)

Lemma set_dict_Ok_inv r d w u w' :
  set_dict r d w = Ok u w' ->
  exists c, heap w' !! r = Some (OModel c d).
Proof.
  unfold set_dict. destruct (heap w !! r) as [[c d0| |]|] eqn:Hr; try done.
  intros [= _ <-]. exists c. simpl.
  apply list_lookup_insert_eq. by eapply lookup_lt_Some.
Qed.

(** X9.  When [update_with_put] returns, it returns the instance it was
    given, and the instance has no changed names left. *)
Theorem put_clears_changed E rec cls inst auth w v w' :
  update_with_put E rec cls inst auth w = Ok v w' ->
  v = inst
  /\ exists r c d,
       inst = VRef r /\ heap w' !! r = Some (OModel c d)
       /\ (d !! "_changed" = Some (VSet ∅) \/ d !! "_changed" = Some (VDict [])).
Proof.
  intros H. unfold update_with_put in H.
  apply bind_Ok_inv in H as (a & w1 & _ & H).
  apply bind_Ok_inv in H as (r & w2 & Hr & H).
  assert (Hinst : inst = VRef r).
  { unfold assert_class_instance, bind, get_heap in Hr.
    destruct (isinstance E (heap w1) inst cls); [|done].
    destruct inst; try done. by injection Hr as -> _. }
  apply bind_Ok_inv in H as (cd & w3 & _ & H).
  apply bind_Ok_inv in H as (path & w4 & _ & H).
  apply bind_Ok_inv in H as (body & w5 & _ & H).
  apply bind_Ok_inv in H as (res & w6 & _ & H).
  apply bind_Ok_inv in H as (items & w7 & _ & H).
  apply bind_Ok_inv in H as (cd1 & w8 & _ & H).
  apply bind_Ok_inv in H as (u & w9 & _ & H).
  apply bind_Ok_inv in H as (cd2 & w10 & _ & H).
  apply bind_Ok_inv in H as (u' & w11 & Hclear & H).
  injection H as <- <-. split; [done|]. exists r.
  destruct (state (classes E cd2.1) cd2.2 "_changed"); try done;
    apply set_dict_Ok_inv in Hclear as [c Hc];
    eexists c, _; (split; [done|]); (split; [exact Hc|]).
  - right. apply lookup_insert_eq.
  - left. apply lookup_insert_eq.
Qed.

Lemma put_clears_changed_witness :
  VRef 0 = VRef 0
  /\ exists r c d,
       VRef 0 = VRef r
       /\ heap (world_of (update_with_put (item_api "{name}") (ops (item_api "{name}") 3)
                            0 (VRef 0) None one_edited_item)) !! r = Some (OModel c d)
       /\ (d !! "_changed" = Some (VSet ∅) \/ d !! "_changed" = Some (VDict [])).
Proof.
  apply (put_clears_changed (item_api "{name}") (ops (item_api "{name}") 3) 0 (VRef 0)
           None one_edited_item (VRef 0)
           (world_of (update_with_put (item_api "{name}") (ops (item_api "{name}") 3)
                        0 (VRef 0) None one_edited_item))).
  vm_compute. reflexivity.
Defined.

(** ** [Foreign] relations *)

Lemma setattr_reserved_cache E r key v w u w' :
  startswith_underscore key = true ->
  bool_decide (key ∈ "_pk_vals" :: properties ++ object_slots) = false ->
  __setattr__ E r key v w = Ok u w' -> cache w' = cache w.
Proof.
  intros Hu Hp H. rewrite setattr_state in H by done.
  destruct (heap w !! r) as [[c d| |]|]; try done. by injection H as _ <-.
Qed.



(** X11.  A [Foreign] relation declared with the defaults (no key
    property, no key extractor, not embedded) never resolves: the default
    extractor matches the constructor argument [key_property], which is
    None, not the default name the constructor stored. *)
Theorem Foreign_defaults_never_resolve E rec dsc f r w :
  f_key_property f = None ->
  f_key_extractor f = None ->
  f_embedded f = false ->
  cache w !! (dsc, r) = None ->
  no_result (Foreign_get E rec dsc f (Some r) w).
Proof.
  intros Hk Hx He Hc. apply no_result_intro. intros v w' H.
  unfold Foreign_get in H. unfold bind at 1 in H. unfold cache_get at 1 in H.
  rewrite Hc in H. apply bind_Ok_inv in H as (u & w1 & H & _).
  unfold foreign_embedded in H. rewrite He in H. simpl in H.
  destruct (c_get_alias (classes E (f_model f))); [|done].
  apply bind_Ok_inv in H as (cd & w2 & _ & H).
  apply bind_Ok_inv in H as (key & w3 & H & _).
  unfold foreign_key_extractor in H. rewrite Hx in H. unfold extract in H.
  apply bind_Ok_inv in H as (fp & w4 & _ & H).
  apply bind_Ok_inv in H as (ids & w5 & _ & H).
  rewrite Hk in H. done.
Qed.

Lemma Foreign_defaults_never_resolve_witness :
  no_result (Foreign_get shelves (ops shelves 3) 0 (mkForeign 1 None None false)
                         (Some 0%nat) one_shelf).
Proof.
  apply (Foreign_defaults_never_resolve shelves (ops shelves 3) 0
           (mkForeign 1 None None false) 0 one_shelf); reflexivity.
Defined.

(** ** Primary-key values *)

Lemma py_len_iter v items : py_iter v = inr items -> py_len v = inr (length items).
Proof.
  destruct v; simpl; try done; intros [= <-]; f_equal.
  - induction s as [|a s IH]; simpl; [done|]. by rewrite IH.
  - by rewrite !length_fmap.
  - by rewrite length_fmap.
Qed.

(** X12.  Assigning [_pk_vals] accepts exactly the values with as many
    elements as the class has primary-key names.  After an accepted
    assignment of a non-empty key, [_id] is its last element, read without
    any request; a value of another length raises ValueError and leaves
    the instance as it was. *)
Theorem pk_vals_assignment E rec r v items c d w :
  heap w !! r = Some (OModel c d) ->
  py_iter v = inr items ->
  (length items = length (c_pk (classes E c)) ->
   forall xs x, items = xs ++ [x] ->
     let w1 := set_heap (<[r := OModel c (<["_Model__pk_vals" := VTuple items]> d)]>
                           (heap w)) w in
     __setattr__ E r "_pk_vals" v w = Ok tt w1 /\ _id E rec r w1 = Ok x w1)
  /\ (length items <> length (c_pk (classes E c)) ->
      __setattr__ E r "_pk_vals" v w = Raise ValueError w).
Proof.
  intros Hr Hit.
  assert (Hrun : __setattr__ E r "_pk_vals" v w
    = if bool_decide (length items = length (c_pk (classes E c))) then
        Ok tt (set_heap (<[r := OModel c (<["_Model__pk_vals" := VTuple items]> d)]>
                           (heap w)) w)
      else Raise ValueError w).
  { unfold __setattr__. simpl. rewrite bind_ret. unfold object_setattr. simpl.
    unfold _pk_vals_setter. rewrite (bind_Ok _ _ _ _ _ (instance_Ok r c d w Hr)).
    rewrite (py_len_iter _ _ Hit). simpl. rewrite bind_ret.
    destruct (bool_decide (length items = length (c_pk (classes E c)))); [|done].
    rewrite Hit. simpl. rewrite bind_ret. by apply set_dict_Ok with d. }
  split.
  - intros Hlen xs x -> w1. rewrite Hrun, bool_decide_eq_true_2 by done.
    split; [done|].
    eapply id_of_bound_tuple; [|apply lookup_insert_eq].
    simpl. apply list_lookup_insert_eq. by eapply lookup_lt_Some.
  - intros Hlen. by rewrite Hrun, bool_decide_eq_false_2.
Qed.

Lemma pk_vals_assignment_witness :
  __setattr__ repo_api 0 "_pk_vals" (VList [VStr "u"; VStr "r"]) 
              (mkWorld [OModel 0 ∅] [] ∅)
  = Ok tt (mkWorld [OModel 0 (<["_Model__pk_vals" := VTuple [VStr "u"; VStr "r"]]> ∅)] [] ∅)
  /\ _id repo_api ops_bot 0
         (mkWorld [OModel 0 (<["_Model__pk_vals" := VTuple [VStr "u"; VStr "r"]]> ∅)] [] ∅)
     = Ok (VStr "r")
          (mkWorld [OModel 0 (<["_Model__pk_vals" := VTuple [VStr "u"; VStr "r"]]> ∅)] [] ∅).
Proof.
  pose proof (pk_vals_assignment repo_api ops_bot 0 (VList [VStr "u"; VStr "r"])
                [VStr "u"; VStr "r"] 0 ∅ (mkWorld [OModel 0 ∅] [] ∅) eq_refl eq_refl) as H.
  exact (proj1 H eq_refl [VStr "u"] (VStr "r") eq_refl).
Defined.

(** ** The key property of a [Foreign] relation *)

Lemma append_cons c a r : String c a +:+ r = String c (a +:+ r).
Proof. reflexivity. Qed.

Lemma span_word_append a rest :
  all_word a = true ->
  (forall c r, rest = String c r -> is_word c = false) ->
  span_word (a +:+ rest) = (a, rest).
Proof.
  intros Ha Hr. induction a as [|c a IH].
  - change (EmptyString +:+ rest) with rest. destruct rest as [|c r]; [done|].
    simpl. by rewrite (Hr c r eq_refl).
  - simpl in Ha. apply andb_true_iff in Ha as [Hc Ha].
    rewrite append_cons. simpl. rewrite Hc, (IH Ha). done.
Qed.

Lemma span_word_whole a : all_word a = true -> span_word a = (a, EmptyString).
Proof.
  intros Ha. induction a as [|c a IH]; [done|].
  simpl in Ha. apply andb_true_iff in Ha as [Hc Ha].
  simpl. by rewrite Hc, (IH Ha).
Qed.

(** X13.  The pattern of the default key extractor reads a key property
    [item[key]], both parts non-empty words, as the attribute [item]
    indexed by [key], and a key property that is one word as that
    attribute alone; it matches nothing exactly when the property is empty
    or starts with a character that is no word character. *)
Theorem match_key_property_groups a b s :
  (all_word a = true -> a <> EmptyString ->
   match_key_property a = Some (a, None)
   /\ (all_word b = true -> b <> EmptyString ->
       match_key_property (a +:+ "[" +:+ b +:+ "]") = Some (a, Some b)))
  /\ (match_key_property s = None
      <-> s = EmptyString \/ exists c s', s = String c s' /\ is_word c = false).
Proof.
  split.
  - intros Ha Hne. split.
    + unfold match_key_property. rewrite (span_word_whole a Ha). simpl.
      by destruct a.
    + intros Hb Hbe. unfold match_key_property.
      rewrite (span_word_append a ("[" +:+ b +:+ "]") Ha)
        by (by intros c r [= <- _]).
      simpl fst. simpl snd. destruct a as [|a0 a]; [done|].
      change ("[" +:+ b +:+ "]") with (String "[" (b +:+ "]")).
      cbv iota beta. change (Ascii.eqb "[" "[") with true. cbv iota.
      rewrite (span_word_append b "]" Hb) by (by intros c r [= <- _]).
      simpl. by destruct b.
  - unfold match_key_property. destruct s as [|c s]; [by split; [left|]|].
    simpl. destruct (is_word c) eqn:Hc; simpl.
    + split.
      * destruct (span_word s).2 as [|x rest]; [done|].
        destruct (Ascii.eqb x "["); [|done].
        destruct (span_word rest).1, (span_word rest).2; try done.
        by destruct (Ascii.eqb _ _).
      * intros [|(c' & s' & [= <- <-] & Hc')]; [done|]. by rewrite Hc in Hc'.
    + split; [|done]. intros _. right. by exists c, s.
Qed.

Lemma match_key_property_groups_witness :
  match_key_property "commit" = Some ("commit", None)
  /\ match_key_property "commit[sha]" = Some ("commit", Some "sha").
Proof.
  pose proof (match_key_property_groups "commit" "sha" EmptyString) as [H _].
  assert (H1 : all_word "commit" = true) by reflexivity.
  assert (H2 : "commit" <> EmptyString) by discriminate.
  destruct (H H1 H2) as [Ha Hb]. split; [exact Ha|].
  apply Hb; [reflexivity|discriminate].
Defined.

(** ** Wrapped lists *)

Lemma new_allocates E cls parent kwargs w r w' :
  new E cls parent kwargs w = Ok r w' ->
  exists d, r = length (heap w) /\ w' = set_heap (heap w ++ [OModel cls d]) w.
Proof.
  intros H. apply new_Ok_inv in H as (p & kw & H & _).
  apply init_Ok_inv in H as (d & _ & -> & ->). by eexists.
Qed.

Lemma insert_last {A} (h : list A) (x y : A) : <[length h := y]> (h ++ [x]) = h ++ [y].
Proof.
  rewrite insert_app_r_alt by done. by rewrite Nat.sub_diag.
Qed.

Lemma mapper_dict E m owner kvs w v w' :
  mapper E m owner (VDict kvs) w = Ok v w' ->
  exists d, v = VRef (length (heap w))
            /\ w' = set_heap (heap w ++ [OModel (m_model m) d]) w
            /\ d !! "_pyresto_owner" = Some (VRef owner).
Proof.
  unfold mapper. intros H.
  apply bind_Ok_inv in H as (r & w1 & Hnew & H).
  apply new_allocates in Hnew as (d & -> & ->).
  apply bind_Ok_inv in H as (u & w2 & Hs & H). injection H as <- <-.
  rewrite setattr_state in Hs by done. simpl in Hs.
  rewrite lookup_app_r in Hs by done. rewrite Nat.sub_diag in Hs. simpl in Hs.
  injection Hs as _ <-. rewrite insert_last.
  exists (<["_pyresto_owner" := VRef owner]> d).
  split; [done|]. split; [done|]. apply lookup_insert_eq.
Qed.

Lemma mapper_plain E m owner x w :
  is_plain x = true -> mapper E m owner x w = Raise TypeError w.
Proof. intros Hx. by destruct x. Qed.

Lemma py_index_lt n key i : py_index n key = Some i -> (i < n)%nat.
Proof.
  unfold py_index. destruct (0 <=? key) eqn:H0.
  - destruct (key <? Z.of_nat n) eqn:H1; [|done]. intros [= <-]. lia.
  - destruct (- Z.of_nat n <=? key) eqn:H1; [|done]. intros [= <-]. lia.
Qed.

(** X14.  Indexing a wrapped list at a position that holds a mapping
    creates one instance of the relation's model from it, owned by the
    owner of the list, and stores the instance at that position; any later
    indexing of the position, by the same or by another index that
    denotes it (a negative one counts from the end), returns this very
    instance and changes nothing. *)
Theorem WrappedList_getitem_caches E l key items dsc owner m i kvs w v w' :
  heap w !! l = Some (OWrappedList items dsc owner) ->
  descriptors E dsc = DMany m ->
  py_index (length items) key = Some i ->
  items !! i = Some (VDict kvs) ->
  WrappedList_getitem E l key w = Ok v w' ->
  exists d,
    v = VRef (length (heap w))
    /\ w' = set_heap (<[l := OWrappedList (<[i := v]> items) dsc owner]>
                        (heap w ++ [OModel (m_model m) d])) w
    /\ d !! "_pyresto_owner" = Some (VRef owner)
    /\ forall key', py_index (length items) key' = Some i ->
                    WrappedList_getitem E l key' w' = Ok v w'.
Proof.
  intros Hl Hd Hi Hx H.
  assert (Hlt : (l < length (heap w))%nat) by (by eapply lookup_lt_Some).
  unfold WrappedList_getitem in H. unfold bind at 1 in H.
  unfold wrapped_list at 1 in H. rewrite Hl in H. simpl in H.
  unfold list_getitem in H. rewrite Hi, Hx in H. simpl in H. rewrite bind_ret in H.
  apply bind_Ok_inv in H as (v' & w1 & Hm & H).
  unfold wrapper in Hm. rewrite Hd in Hm.
  apply mapper_dict in Hm as (d & -> & -> & Hown).
  apply bind_Ok_inv in H as (u & w2 & Hs & H). injection H as <- <-.
  unfold list_setitem in Hs. simpl in Hs.
  rewrite lookup_app_l in Hs by done. rewrite Hl, Hi in Hs. injection Hs as _ <-.
  exists d. split; [done|]. split; [done|]. split; [done|].
  intros key' Hi'. unfold WrappedList_getitem, bind, wrapped_list. simpl.
  rewrite list_lookup_insert_eq by (rewrite length_app; lia). simpl.
  unfold list_getitem. rewrite length_insert, Hi'.
  rewrite list_lookup_insert_eq by (by eapply py_index_lt). done.
Qed.

Lemma WrappedList_getitem_caches_witness :
  let w' := world_of (WrappedList_getitem (paged_api "") 1 (-1) two_raw) in
  exists d,
    VRef 2 = VRef (length (heap two_raw))
    /\ w' = set_heap (<[1%nat := OWrappedList (<[1%nat := VRef 2]> [sha "a"; sha "b"]) 7 0]>
                        (heap two_raw ++ [OModel 0 d])) two_raw
    /\ d !! "_pyresto_owner" = Some (VRef 0)
    /\ forall key', py_index 2 key' = Some 1%nat ->
                    WrappedList_getitem (paged_api "") 1 key' w' = Ok (VRef 2) w'.
Proof.
  intros w'.
  apply (WrappedList_getitem_caches (paged_api "") 1 (-1) [sha "a"; sha "b"] 7 0
           (mkMany 0 None false None) 1 [("sha", VStr "b")] two_raw (VRef 2) w').
  - reflexivity.
  - reflexivity.
  - reflexivity.
  - reflexivity.
  - vm_compute. reflexivity.
Defined.

Lemma wrap_all_dicts E m owner items w vs w' :
  Forall is_dict items ->
  wrap_all (mapper E m owner) items w = Ok vs w' ->
  exists news,
    heap w' = heap w ++ news /\ length news = length items
    /\ vs = VRef <$> seq (length (heap w)) (length items)
    /\ log w' = log w /\ cache w' = cache w.
Proof.
  intros Hitems. revert w vs.
  induction Hitems as [|x items [kvs ->] _ IH]; intros w vs H; simpl in H.
  - injection H as <- <-. exists []. by rewrite app_nil_r.
  - apply bind_Ok_inv in H as (v & w1 & Hm & H).
    apply mapper_dict in Hm as (d & -> & -> & _).
    apply bind_Ok_inv in H as (vs' & w2 & Hrest & H). injection H as <- <-.
    apply IH in Hrest as (news & Hh & Hlen & -> & Hlog & Hc). simpl in *.
    exists (OModel (m_model m) d :: news).
    rewrite Hh, <- app_assoc. split; [done|].
    split; [simpl; by rewrite Hlen|].
    split; [|done]. rewrite length_app. simpl. by rewrite Nat.add_1_r.
Qed.

(** X15.  A full pass over a wrapped list of mappings creates one new
    instance per item, in order, and stores none of them: the list holds
    the same items afterwards, no request is sent and no cache is
    written, so every pass creates instances of its own. *)
Theorem WrappedList_iter_wraps_afresh E l items dsc owner m w vs w' :
  heap w !! l = Some (OWrappedList items dsc owner) ->
  descriptors E dsc = DMany m ->
  Forall is_dict items ->
  WrappedList_iter E l w = Ok vs w' ->
  vs = VRef <$> seq (length (heap w)) (length items)
  /\ (exists news, heap w' = heap w ++ news /\ length news = length items)
  /\ heap w' !! l = Some (OWrappedList items dsc owner)
  /\ log w' = log w /\ cache w' = cache w.
Proof.
  intros Hl Hd Hitems H.
  unfold WrappedList_iter in H. unfold bind, wrapped_list in H. rewrite Hl in H.
  simpl in H. unfold wrapper in H. rewrite Hd in H.
  change (fun data => mapper E m owner data) with (mapper E m owner) in H.
  apply wrap_all_dicts in H as (news & Hh & Hlen & -> & Hlog & Hc); [|done].
  split; [done|]. split; [by exists news|]. split; [|done].
  rewrite Hh. rewrite lookup_app_l; [done|]. by eapply lookup_lt_Some.
Qed.

Lemma WrappedList_iter_wraps_afresh_witness :
  let w' := world_of (WrappedList_iter (paged_api "") 1 two_raw) in
  [VRef 2; VRef 3] = VRef <$> seq (length (heap two_raw)) 2
  /\ (exists news, heap w' = heap two_raw ++ news /\ length news = 2%nat)
  /\ heap w' !! 1%nat = Some (OWrappedList [sha "a"; sha "b"] 7 0)
  /\ log w' = log two_raw /\ cache w' = cache two_raw.
Proof.
  intros w'.
  apply (WrappedList_iter_wraps_afresh (paged_api "") 1 [sha "a"; sha "b"] 7 0
           (mkMany 0 None false None) two_raw [VRef 2; VRef 3] w').
  - reflexivity.
  - reflexivity.
  - repeat constructor; by eexists.
  - vm_compute. reflexivity.
Defined.

Lemma wrap_all_reaches f items w vs w' x :
  wrap_all f items w = Ok vs w' -> x ∈ items ->
  exists w1 v w2, f x w1 = Ok v w2.
Proof.
  revert w vs. induction items as [|y items IH]; intros w vs H Hx;
    [by apply elem_of_nil in Hx|].
  simpl in H. apply bind_Ok_inv in H as (v & w1 & Hy & H).
  apply bind_Ok_inv in H as (vs' & w2 & Hrest & H). injection H as _ <-.
  apply elem_of_cons in Hx as [->|Hx]; [by exists w, v, w1|by eapply IH].
Qed.

(** X16.  An item of a wrapped list that is neither a mapping nor an
    object (a number or a string the server sent) is returned as it is by
    indexing, which changes nothing, while no full pass over the list
    returns: the pass raises TypeError at the item, if not earlier. *)
Theorem WrappedList_plain_item E l key items dsc owner m i x w :
  heap w !! l = Some (OWrappedList items dsc owner) ->
  descriptors E dsc = DMany m ->
  py_index (length items) key = Some i ->
  items !! i = Some x ->
  is_plain x = true ->
  WrappedList_getitem E l key w = Ok x w
  /\ no_result (WrappedList_iter E l w).
Proof.
  intros Hl Hd Hi Hx Hp. split.
  - unfold WrappedList_getitem, bind, wrapped_list. rewrite Hl. simpl.
    unfold list_getitem. rewrite Hi, Hx. simpl. by destruct x.
  - apply no_result_intro.
    intros vs w' H. unfold WrappedList_iter, bind, wrapped_list in H.
    rewrite Hl in H. simpl in H.
    destruct (wrap_all_reaches _ _ _ _ _ x H) as (w1 & v & w2 & Hw).
    { by eapply list_elem_of_lookup_2. }
    unfold wrapper in Hw. rewrite Hd in Hw. by rewrite mapper_plain in Hw.
Qed.

Lemma WrappedList_plain_item_witness :
  WrappedList_getitem (paged_api "") 1 1 three_raw = Ok (VInt 5) three_raw
  /\ no_result (WrappedList_iter (paged_api "") 1 three_raw).
Proof.
  apply (WrappedList_plain_item (paged_api "") 1 1 [sha "a"; VInt 5; sha "c"] 7 0
           (mkMany 0 None false None) 1 (VInt 5) three_raw); reflexivity.
Defined.

(** ** Assignments and the relation caches *)

Lemma instance_keeps I r : keeps I (instance r) any.
Proof.
  intros w Hw. unfold instance. by destruct (heap w !! r) as [[]|].
Qed.

Lemma set_dict_keeps_caches w0 r d : keeps (quiet w0) (set_dict r d) any.
Proof.
  intros w Hw. unfold set_dict. by destruct (heap w !! r) as [[]|].
Qed.

Lemma set_class_keeps_caches w0 r c : keeps (quiet w0) (set_class r c) any.
Proof.
  intros w Hw. unfold set_class. by destruct (heap w !! r) as [[]|].
Qed.

Lemma setattr_keeps_caches E w0 r key v :
  keeps (quiet w0) (__setattr__ E r key v) any.
Proof.
  unfold __setattr__.
  eapply (keeps_bind _ _ _ any).
  { destruct (negb (startswith_underscore key)); [|by apply keeps_ret].
    eapply (keeps_bind _ _ _ any); [apply instance_keeps|]. intros cd _.
    destruct (state _ _ _); try apply keeps_raise. apply set_dict_keeps_caches. }
  intros _ _. unfold object_setattr.
  destruct (String.eqb key "_pk_vals").
  { unfold _pk_vals_setter.
    eapply (keeps_bind _ _ _ any); [apply instance_keeps|]. intros cd _.
    eapply (keeps_bind _ _ _ any); [by apply keeps_lift|]. intros n _.
    destruct (bool_decide _); [|apply keeps_raise].
    eapply (keeps_bind _ _ _ any); [by apply keeps_lift|]. intros items _.
    apply set_dict_keeps_caches. }
  destruct (bool_decide _); [apply keeps_raise|].
  destruct (String.eqb key "__dict__").
  { destruct v; try apply keeps_raise. apply set_dict_keeps_caches. }
  destruct (String.eqb key "__class__").
  { destruct v; try apply keeps_raise. apply set_class_keeps_caches. }
  destruct (String.eqb key "__weakref__"); [apply keeps_raise|].
  eapply (keeps_bind _ _ _ any); [apply instance_keeps|]. intros cd _.
  apply set_dict_keeps_caches.
Qed.



(** ** What [read] returns *)

Lemma new_fresh E cls parent kwargs w r w' :
  new E cls parent kwargs w = Ok r w' ->
  exists d, heap w' !! r = Some (OModel cls d) /\ d !! "_changed" = Some (VSet ∅).
Proof.
  intros H. apply new_Ok_inv in H as (p & kw & H & _).
  apply init_Ok_inv in H as (d & _ & -> & ->).
  exists (<["_changed" := VSet ∅]> d). split; [|apply lookup_insert_eq].
  simpl. rewrite lookup_app_r by done. by rewrite Nat.sub_diag.
Qed.

Lemma setattr_pk_vals_Ok_inv E r v c d w u w' :
  heap w !! r = Some (OModel c d) ->
  __setattr__ E r "_pk_vals" v w = Ok u w' ->
  exists items, py_iter v = inr items
    /\ length items = length (c_pk (classes E c))
    /\ heap w' !! r = Some (OModel c (<["_Model__pk_vals" := VTuple items]> d)).
Proof.
  intros Hr H. unfold __setattr__ in H. simpl in H. rewrite bind_ret in H.
  unfold object_setattr in H. simpl in H. unfold _pk_vals_setter in H.
  rewrite (bind_Ok _ _ _ _ _ (instance_Ok r c d w Hr)) in H.
  apply bind_Ok_inv in H as (n & w1 & Hn & H).
  destruct (py_len v) as [e|n'] eqn:Hlen; [done|]. simpl in Hn.
  injection Hn as <- <-. simpl in H.
  destruct (bool_decide (n' = length (c_pk (classes E c)))) eqn:Hb; [|done].
  apply bool_decide_eq_true in Hb.
  apply bind_Ok_inv in H as (items & w2 & Hit & H).
  destruct (py_iter v) as [e|items'] eqn:Hiter; [done|]. simpl in Hit.
  injection Hit as <- <-.
  rewrite (py_len_iter _ _ Hiter) in Hlen. injection Hlen as <-.
  exists items'. split; [done|]. split; [done|].
  unfold set_dict in H. rewrite Hr in H. injection H as _ <-. simpl.
  apply list_lookup_insert_eq. by eapply lookup_lt_Some.
Qed.

(** X18.  An instance returned by [read] belongs to the class asked
    for, carries the key values given (as many as the class has key
    names) and [_fetched = True], and has no changed names: the fields the
    server sent do not count as changes. *)
Theorem read_result_is_clean E rec cls args parent auth w r w' :
  read E rec cls args parent auth w = Ok (VRef r) w' ->
  exists d,
    heap w' !! r = Some (OModel cls d)
    /\ d !! "_changed" = Some (VSet ∅)
    /\ d !! "_fetched" = Some (VBool true)
    /\ d !! "_Model__pk_vals" = Some (VTuple args)
    /\ length args = length (c_pk (classes E cls)).
Proof.
  unfold read. intros H.
  apply bind_Ok_inv in H as (base & w1 & _ & H).
  apply bind_Ok_inv in H as (s & w2 & _ & H).
  apply bind_Ok_inv in H as (path & w3 & _ & H).
  apply bind_Ok_inv in H as (res & w4 & _ & H).
  apply bind_Ok_inv in H as (h & w5 & _ & H).
  destruct (negb (truthy h res.1)); [discriminate|].
  apply bind_Ok_inv in H as (kwargs & w6 & _ & H).
  apply bind_Ok_inv in H as (r0 & w7 & Hnew & H).
  apply bind_Ok_inv in H as (u1 & w8 & Hpk & H).
  apply bind_Ok_inv in H as (u2 & w9 & Hf & H).
  apply bind_Ok_inv in H as (h' & w10 & Hh & H).
  apply bind_Ok_inv in H as (u3 & w11 & Ha & H).
  unfold ret in H. injection H as <- <-.
  unfold get_heap in Hh. injection Hh as <- <-.
  apply new_fresh in Hnew as (d0 & Hr0 & Hch).
  destruct (setattr_pk_vals_Ok_inv _ _ _ _ _ _ _ _ Hr0 Hpk) as (items & Hit & Hlen & Hr1).
  simpl in Hit. injection Hit as <-.
  apply setattr_state_Ok in Hf as (c & d & Hr & _ & Hf & _); [|done|done].
  rewrite Hr1 in Hr. injection Hr as <- <-.
  destruct (truthy (heap w9) (default (c_auth (classes E cls)) auth)).
  - apply setattr_state_Ok in Ha as (c' & d' & Hr & _ & Ha & _); [|done|done].
    rewrite Hf in Hr. injection Hr as <- <-.
    eexists. split; [exact Ha|].
    repeat split; try done;
      repeat (rewrite lookup_insert_ne by done);
      first [apply lookup_insert_eq|exact Hch].
  - unfold ret in Ha. injection Ha as _ <-.
    eexists. split; [exact Hf|].
    repeat split; try done;
      repeat (rewrite lookup_insert_ne by done);
      first [apply lookup_insert_eq|exact Hch].
Qed.

Lemma read_result_is_clean_witness :
  let E := item_api "{name}" in
  exists d,
    heap (world_of (read E (ops E 3) 0 [VStr "42"] None None empty_world)) !! 0%nat
    = Some (OModel 0 d)
    /\ d !! "_changed" = Some (VSet ∅)
    /\ d !! "_fetched" = Some (VBool true)
    /\ d !! "_Model__pk_vals" = Some (VTuple [VStr "42"])
    /\ length [VStr "42"] = length (c_pk (classes E 0)).
Proof.
  intros E.
  apply (read_result_is_clean E (ops E 3) 0 [VStr "42"] None None empty_world 0
           (world_of (read E (ops E 3) 0 [VStr "42"] None None empty_world))).
  vm_compute. reflexivity.
Defined.
